(** * sms-handler: the AT command engine, the response parsers and the
      listener handshake of [package smshandler], embedded in Rocq.

    The handler ([SMSHandler], [NewSMSHandler], [initModem], [sendATCommand],
    [SendSMS], the readers, the listener and [readUntilAny]) is the package's
    main file; [parseSMSHeader], [splitRespectingQuotes] and [MockSerialPort]
    are the helpers of its test file.

    - Go strings are byte strings: they are [string], one [ascii] per byte.
      The functions of [strings] and [fmt] the handler calls are written out
      for all byte strings, UTF-8 decoding included where Go decodes.
    - Go's [int] is a 64-bit integer, here a [Z].
    - The port is what the code meets of it: each call ([ReadString], [Read],
      [Write]) has a result, and a read has the time it takes, in
      milliseconds ([N]).  A function of the handler is a function of these
      results; what it does to the outside (channel operations, writes,
      reads, sleeps, callbacks) is the list of [effect]s it returns, in
      order.
    - The goroutines and the two unbuffered channels are a step relation
      over the effects still to come. *)

From Stdlib Require Import String Ascii List ZArith NArith Bool Arith Lia.
From Stdlib Require Import DecimalString.
From Stdlib Require DecimalPos.
Import ListNotations.
Open Scope string_scope.

(** ** Bytes that cannot be written inside a string literal *)

Definition bytes (l : list nat) : string :=
  fold_right (fun n s => String (ascii_of_nat n) s) EmptyString l.

Definition dquote : ascii := ascii_of_nat 34.
Definition LFc : ascii := ascii_of_nat 10.
Definition CR : string := bytes [13].
Definition LF : string := bytes [10].
Definition CRLF : string := bytes [13; 10].
Definition CtrlZ : string := bytes [26].

(** [quoted s] is [s] between two double quotes. *)
Definition quoted (s : string) : string :=
  String dquote (s ++ String dquote EmptyString).

Fixpoint rev_string (s : string) : string :=
  match s with
  | EmptyString => EmptyString
  | String c s' => rev_string s' ++ String c EmptyString
  end.

(** ** Package [strings] of the Go standard library, as far as the handler
       calls it *)

Module strings.

(** [strip p s] is [Some r] when [s = p ++ r]. *)
Fixpoint strip (p s : string) : option string :=
  match p, s with
  | EmptyString, _ => Some s
  | String a p', String b s' => if Ascii.eqb a b then strip p' s' else None
  | String _ _, EmptyString => None
  end.

Definition HasPrefix (s prefix : string) : bool :=
  match strip prefix s with Some _ => true | None => false end.

Definition TrimPrefix (s prefix : string) : string :=
  match strip prefix s with Some r => r | None => s end.

Fixpoint Contains (s substr : string) : bool :=
  if HasPrefix s substr then true
  else match s with
       | EmptyString => false
       | String _ s' => Contains s' substr
       end.

(** The UTF-8 encodings of the code points for which [unicode.IsSpace]
    holds: U+0009..U+000D, U+0020, U+0085, U+00A0, U+1680, U+2000..U+200A,
    U+2028, U+2029, U+202F, U+205F, U+3000. *)
Definition space_runes : list string :=
  map bytes
    [ [9]; [10]; [11]; [12]; [13]; [32];
      [194; 133]; [194; 160];
      [225; 154; 128];
      [226; 128; 128]; [226; 128; 129]; [226; 128; 130]; [226; 128; 131];
      [226; 128; 132]; [226; 128; 133]; [226; 128; 134]; [226; 128; 135];
      [226; 128; 136]; [226; 128; 137]; [226; 128; 138];
      [226; 128; 168]; [226; 128; 169]; [226; 128; 175];
      [226; 129; 159];
      [227; 128; 128] ].

Fixpoint strip_any (ps : list string) (s : string) : option string :=
  match ps with
  | [] => None
  | p :: ps' =>
      match strip p s with
      | Some r => Some r
      | None => strip_any ps' s
      end
  end.

(** Drops leading members of [ps]; [fuel] bounds the number of members. *)
Fixpoint trim_left (ps : list string) (fuel : nat) (s : string) : string :=
  match fuel with
  | O => s
  | S fuel' =>
      match strip_any ps s with
      | Some r => trim_left ps fuel' r
      | None => s
      end
  end.

Definition TrimLeftSpace (s : string) : string :=
  trim_left space_runes (String.length s) s.

Definition TrimRightSpace (s : string) : string :=
  rev_string
    (trim_left (map rev_string space_runes) (String.length s) (rev_string s)).

(** [strings.TrimSpace]: leading, then trailing white space is removed.  Go
    decodes the string as UTF-8 and removes the code points of
    [unicode.IsSpace]; a prefix (a suffix) decodes to such a code point
    exactly when it is one of [space_runes], and a byte that starts no valid
    encoding is no white space. *)
Definition TrimSpace (s : string) : string :=
  TrimRightSpace (TrimLeftSpace s).

Fixpoint mem_ascii (c : ascii) (set : string) : bool :=
  match set with
  | EmptyString => false
  | String d set' => Ascii.eqb c d || mem_ascii c set'
  end.

Fixpoint trim_left_bytes (cutset s : string) : string :=
  match s with
  | EmptyString => EmptyString
  | String c s' => if mem_ascii c cutset then trim_left_bytes cutset s' else s
  end.

(** [strings.Trim s cutset] for a cutset of ASCII characters (the handler
    only ever passes the one-character cutset holding the double quote). *)
Definition Trim (s cutset : string) : string :=
  trim_left_bytes cutset
    (rev_string (trim_left_bytes cutset (rev_string s))).

(** [strings.Split s sep] for a one-byte separator (the handler splits on
    the comma and on the newline only): one more part than separators. *)
Fixpoint Split (s : string) (sep : ascii) : list string :=
  match s with
  | EmptyString => [EmptyString]
  | String c s' =>
      if Ascii.eqb c sep then EmptyString :: Split s' sep
      else match Split s' sep with
           | h :: t => String c h :: t
           | [] => [String c EmptyString]
           end
  end.

Definition Join (elems : list string) (sep : string) : string :=
  String.concat sep elems.

End strings.

(** [s[n:]]: [None] stands for the run-time panic of a slice out of range. *)
Fixpoint slice_from (n : nat) (s : string) : option string :=
  match n, s with
  | O, _ => Some s
  | S n', String _ s' => slice_from n' s'
  | S _, EmptyString => None
  end.

(** ** Package [fmt]: the two scans and the one print the handler uses *)

Module fmt.

Definition is_digit (c : ascii) : bool :=
  (48 <=? nat_of_ascii c)%nat && (nat_of_ascii c <=? 57)%nat.

(** The input skipped before a verb: white space, where a newline is an
    error of the scan ([None]). *)
Fixpoint skip_space (fuel : nat) (s : string) : option string :=
  match fuel with
  | O => Some s
  | S fuel' =>
      if strings.HasPrefix s LF then None
      else match strings.strip_any strings.space_runes s with
           | Some r => skip_space fuel' r
           | None => Some s
           end
  end.

(** The longest prefix made of decimal digits and underscores. *)
Fixpoint take_number (s : string) : string :=
  match s with
  | EmptyString => EmptyString
  | String c s' =>
      if is_digit c || Ascii.eqb c "_" then String c (take_number s')
      else EmptyString
  end.

Fixpoint digits_value (acc : Z) (s : string) : Z :=
  match s with
  | EmptyString => acc
  | String c s' => digits_value (10 * acc + Z.of_nat (nat_of_ascii c - 48)) s'
  end.

Definition int_min : Z := - 2 ^ 63.
Definition int_max : Z := 2 ^ 63 - 1.

(** The verb [%d] at the head of [s]: spaces, an optional sign, digits;
    [strconv.ParseInt] in base 10 refuses an underscore and a value outside
    the 64-bit range. *)
Definition scan_d (s : string) : option Z :=
  match skip_space (String.length s) s with
  | None => None
  | Some s1 =>
      let '(neg, s2) :=
        match s1 with
        | String c r =>
            if Ascii.eqb c "+" then (false, r)
            else if Ascii.eqb c "-" then (true, r)
            else (false, s1)
        | EmptyString => (false, s1)
        end in
      let tok := take_number s2 in
      if String.eqb tok EmptyString then None
      else if strings.mem_ascii "_" tok then None
      else
        let v := digits_value 0 tok in
        let v := if neg then (- v)%Z else v in
        if (int_min <=? v)%Z && (v <=? int_max)%Z then Some v else None
  end.

(** [fmt.Sscanf(str, "%d", &n)] for [n] holding 0 before the call: the value
    of [n] after it (a failed scan leaves it alone). *)
Definition Sscanf_d (str : string) : Z :=
  match scan_d str with Some v => v | None => 0%Z end.

(** [fmt.Sscanf(str, lit + " %d", &n)], [n] holding 0 before: the literal
    must match, the space of the format must find a space or the end of the
    input, then the verb is scanned. *)
Definition Sscanf_lit_d (str lit : string) : Z :=
  match strings.strip lit str with
  | None => 0%Z
  | Some r =>
      match r with
      | EmptyString => 0%Z
      | String _ _ =>
          if strings.HasPrefix r LF then 0%Z
          else match strings.strip_any strings.space_runes r with
               | Some _ => Sscanf_d r
               | None => 0%Z
               end
      end
  end.

(** [fmt.Sprintf("%d", n)]. *)
Definition Sprintf_d (n : Z) : string :=
  NilZero.string_of_int (Z.to_int n).

End fmt.

(** ** Ranging over a string: UTF-8 decoding

    [range] over a string yields code points; a byte that starts no valid
    encoding yields U+FFFD and advances by one byte.  [rune_width s] is the
    width of the valid encoding at the head of [s], and 0 when there is
    none. *)

Definition in_range (lo hi : nat) (c : ascii) : bool :=
  (lo <=? nat_of_ascii c)%nat && (nat_of_ascii c <=? hi)%nat.

Definition cont (c : ascii) : bool := in_range 128 191 c.

Definition rune_width (s : string) : nat :=
  match s with
  | EmptyString => 0
  | String b0 s1 =>
      if in_range 0 127 b0 then 1
      else
        match s1 with
        | EmptyString => 0
        | String b1 s2 =>
            if in_range 194 223 b0 then (if cont b1 then 2 else 0)
            else
              match s2 with
              | EmptyString => 0
              | String b2 s3 =>
                  let second3 :=
                    if in_range 224 224 b0 then in_range 160 191 b1
                    else if in_range 237 237 b0 then in_range 128 159 b1
                    else if in_range 225 239 b0 then cont b1
                    else false in
                  if second3 then (if cont b2 then 3 else 0)
                  else
                    match s3 with
                    | EmptyString => 0
                    | String b3 _ =>
                        let second4 :=
                          if in_range 240 240 b0 then in_range 144 191 b1
                          else if in_range 244 244 b0 then in_range 128 143 b1
                          else if in_range 241 243 b0 then cont b1
                          else false in
                        if second4 && cont b2 && cont b3 then 4 else 0
                    end
              end
        end
  end.

(** The encoding of U+FFFD, which [WriteRune] writes for an invalid byte. *)
Definition RuneError : string := bytes [239; 191; 189].

(** ** The data model *)

Record SMS : Type := mkSMS
  { Index : Z;
    Status : string;
    Sender : string;
    Date : string;
    Message : string }.

(** [SMS{}], the zero value. *)
Definition SMS_zero : SMS :=
  {| Index := 0; Status := EmptyString; Sender := EmptyString;
     Date := EmptyString; Message := EmptyString |}.

(** The errors the handler builds, named after their messages. *)
Inductive error : Type :=
| ErrInvalidHeader          (* invalid SMS header *)
| ErrInsufficientFields     (* insufficient fields in SMS header *)
| ErrWriteCommand           (* failed to write command: ... *)
| ErrCommandTimeout         (* command timeout *)
| ErrReadSMS (cause : error)     (* failed to read SMS: ... *)
| ErrReadNewSMS (cause : error)  (* failed to read new SMS: ... *)
| ErrDeleteSMS (cause : error)   (* failed to delete SMS: ... *)
| ErrParseSMS               (* failed to parse SMS *)
| ErrWriteCMGS              (* failed to write AT+CMGS command: ... *)
| ErrPromptTimeout (got : string) (* timeout waiting for SMS prompt, got: ... *)
| ErrSendMessage            (* failed to send message: ... *)
| ErrSMSFailed (response : string) (* SMS failed: ... *)
| ErrSMSTimeout.            (* SMS timeout - no valid response received *)

(** What a call comes to: a value, an error, or a run-time panic. *)
Inductive outcome (A : Type) : Type :=
| Ret (a : A)
| Fail (e : error)
| Panic.
Arguments Ret {A} a.
Arguments Fail {A} e.
Arguments Panic {A}.

(** ** The header parser of the test file *)

(** The loop of [splitRespectingQuotes]; [skip] counts the bytes of the
    code point being copied that are still to come. *)
Fixpoint splitLoop (sep : ascii) (s : string) (skip : nat) (inQuotes : bool)
    (current : string) (parts : list string) : list string :=
  match s with
  | EmptyString =>
      if (0 <? String.length current)%nat then parts ++ [current] else parts
  | String c s' =>
      match skip with
      | S k => splitLoop sep s' k inQuotes (current ++ String c EmptyString) parts
      | O =>
          match rune_width s with
          | O => splitLoop sep s' 0 inQuotes (current ++ RuneError) parts
          | S O =>
              let inQuotes := if Ascii.eqb c dquote then negb inQuotes else inQuotes in
              if Ascii.eqb c sep && negb inQuotes
              then splitLoop sep s' 0 inQuotes EmptyString (parts ++ [current])
              else splitLoop sep s' 0 inQuotes (current ++ String c EmptyString) parts
          | S (S k) =>
              splitLoop sep s' (S k) inQuotes (current ++ String c EmptyString) parts
          end
      end
  end.

(** [splitRespectingQuotes s sep] for an ASCII separator. *)
Definition splitRespectingQuotes (s : string) (sep : ascii) : list string :=
  splitLoop sep s 0 false EmptyString [].

Definition dq : string := String dquote EmptyString.

Definition parseSMSHeader (header : string) : SMS * option error :=
  if negb (strings.Contains header "+CMGR:") then (SMS_zero, Some ErrInvalidHeader)
  else
    let content := strings.TrimPrefix header "+CMGR:" in
    let content := strings.TrimSpace content in
    let parts := splitRespectingQuotes content "," in
    if (length parts <? 2)%nat then (SMS_zero, Some ErrInsufficientFields)
    else
      let status := strings.Trim (nth 0 parts EmptyString) dq in
      let sender := strings.Trim (nth 1 parts EmptyString) dq in
      let date :=
        if (4 <=? length parts)%nat then strings.Trim (nth 3 parts EmptyString) dq
        else if (3 <=? length parts)%nat then strings.Trim (nth 2 parts EmptyString) dq
        else EmptyString in
      ({| Index := 0; Status := status; Sender := sender; Date := date;
          Message := EmptyString |}, None).

(** ** The handler, its port and what a call does to the outside

    The only field of [SMSHandler] a call reads as data is [listening]; the
    port and the two channels are met through the effects below. *)

Record SMSHandler : Type := mkHandler { listening : bool }.

(** The handler [NewSMSHandler] builds: nobody listens yet. *)
Definition NewSMSHandler_handler : SMSHandler := {| listening := false |}.

(** What [ListenForIncomingSMS] does to the handler before it starts the
    listener goroutine: [s.listening = true].  No operation sets it back. *)
Definition ListenForIncomingSMS_handler (s : SMSHandler) : SMSHandler :=
  {| listening := true |}.

(** The two channels of [NewSMSHandler], both made without a buffer. *)
Inductive chan : Type := pauseChan | resumeChan.

(** The result of one [bufio.Reader.ReadString] call: a line ([err == nil])
    or a failure. *)
Inductive read_result : Type :=
| ReadOk (line : string)
| ReadFail.

(** The result of one [port.Read] call: bytes, nothing ([n == 0] with no
    error: the read timeout passed), or an error. *)
Inductive port_read : Type :=
| RdData (data : string)
| RdNone
| RdFail.

(** What a call does to the outside.  [PortWrite data ok]: [port.Write] of
    [data], which succeeded or not.  [PortRead issued got]: a [port.Read]
    made [issued] milliseconds after the [startTime] of its loop, and what
    it returned.  Setting the read timeout is not listed. *)
Inductive effect : Type :=
| ChanSend (c : chan)               (* c <- true *)
| ChanRecv (c : chan)               (* <-c *)
| PortWrite (data : string) (ok : bool)
| PortRead (issued : N) (got : port_read)
| Sleep (ms : N)
| Callback (sms : SMS).

Definition pauseListener (s : SMSHandler) : list effect :=
  if listening s then [ChanSend pauseChan; ChanRecv resumeChan] else [].

Definition resumeListener (s : SMSHandler) : list effect :=
  if listening s then [ChanSend resumeChan] else [].

(** ** sendATCommand *)

(** The port as one transaction meets it: whether the write succeeds, the
    successive results of [ReadString] each with the time the call took, and
    how [select] chooses when the reader is done at the very instant the
    timer fires.  Once [lines] is used up the stream is silent: the next
    [ReadString] does not return. *)
Record at_port : Type := mkAtPort
  { write_ok : bool;
    lines : list (N * read_result);
    done_on_tie : bool }.

Definition is_terminal (line : string) : bool :=
  strings.Contains line "OK" || strings.Contains line "ERROR"
  || strings.Contains line "+CME ERROR".

(** Why the reader goroutine left its loop; [Blocked]: it did not, the
    stream had nothing more for it. *)
Inductive reader_stop : Type :=
| StopReadFail
| StopEmpty
| StopTerminal
| Blocked.

(** The loop of the reader goroutine (lines 123-157): the stop, the text in
    [response], and the results not read. *)
Fixpoint readLines (command : string) (reads : list (N * read_result))
    (consecutiveEmpty : nat) (response : string)
    : reader_stop * string * list (N * read_result) :=
  match reads with
  | [] => (Blocked, response, [])
  | (_, ReadFail) :: rest => (StopReadFail, response, rest)
  | (_, ReadOk raw) :: rest =>
      let line := strings.TrimSpace raw in
      if String.eqb line command then
        readLines command rest consecutiveEmpty response
      else if String.eqb line EmptyString then
        let consecutiveEmpty := S consecutiveEmpty in
        if (3 <? consecutiveEmpty)%nat then (StopEmpty, response, rest)
        else readLines command rest consecutiveEmpty response
      else
        let response := response ++ line ++ LF in
        if is_terminal line then (StopTerminal, response, rest)
        else readLines command rest 0 response
  end.

Definition elapsed (reads : list (N * read_result)) : N :=
  fold_right (fun r t => (fst r + t)%N) 0%N reads.

(** The reads that return before the timer of [deadline] milliseconds
    fires, [clock] milliseconds having passed already. *)
Fixpoint arrived (deadline : N) (tie : bool) (clock : N)
    (reads : list (N * read_result)) : list (N * read_result) :=
  match reads with
  | [] => []
  | (d, r) :: rest =>
      let clock := (clock + d)%N in
      if (clock <? deadline)%N || (tie && (clock =? deadline)%N)
      then (d, r) :: arrived deadline tie clock rest
      else []
  end.

Definition command_deadline : N := 10000.

Record at_result : Type := mkAtResult
  { resp : string;            (* the text returned *)
    err : option error;       (* the error returned, [None] for nil *)
    ret_at : N;               (* when, counted from the start of the timer *)
    effs : list effect }.

(** [sendATCommand]: the pause, the write, the select between the reader
    goroutine and the timer, and the deferred resume.  The bytes the call
    drains from the buffered reader before it writes are thrown away by the
    code and are no part of [lines]. *)
Definition sendATCommand (s : SMSHandler) (command : string) (port : at_port)
    : at_result :=
  let '(text, e, t, io) :=
    if write_ok port then
      let got := arrived command_deadline (done_on_tie port) 0 (lines port) in
      match readLines command got 0 EmptyString with
      | (Blocked, response, _) =>
          (strings.TrimSpace response, Some ErrCommandTimeout, command_deadline,
           [PortWrite (command ++ CRLF) true])
      | (_, response, rest) =>
          (strings.TrimSpace response, None, (elapsed got - elapsed rest)%N,
           [PortWrite (command ++ CRLF) true])
      end
    else (EmptyString, Some ErrWriteCommand, 0%N,
          [PortWrite (command ++ CRLF) false]) in
  {| resp := text; err := e; ret_at := t;
     effs := pauseListener s ++ io ++ resumeListener s |}.

(** ** The operations built on sendATCommand *)

Definition GetModemInfo (s : SMSHandler) (port : at_port) : at_result :=
  sendATCommand s "ATI" port.

Definition GetSignalStrength (s : SMSHandler) (port : at_port) : at_result :=
  sendATCommand s "AT+CSQ" port.

(** The loop of [parseSMSList] over the lines of the response. *)
Fixpoint parseSMSLines (lines : list string) : list SMS :=
  match lines with
  | [] => []
  | l :: rest =>
      let line := strings.TrimSpace l in
      if strings.HasPrefix line "+CMGL:" then
        let parts := strings.Split line "," in
        if (4 <=? length parts)%nat then
          let sms :=
            {| Index := fmt.Sscanf_lit_d (nth 0 parts EmptyString) "+CMGL:";
               Status := strings.Trim (nth 1 parts EmptyString) dq;
               Sender := strings.Trim (nth 2 parts EmptyString) dq;
               Date := strings.Trim (nth 3 parts EmptyString) dq;
               Message := EmptyString |} in
          match rest with
          | next :: rest' =>
              {| Index := Index sms; Status := Status sms; Sender := Sender sms;
                 Date := Date sms; Message := strings.TrimSpace next |}
              :: parseSMSLines rest'
          | [] => [sms]
          end
        else parseSMSLines rest
      else parseSMSLines rest
  end.

Definition parseSMSList (response : string) : list SMS :=
  parseSMSLines (strings.Split response LFc).

Definition ReadSMS (s : SMSHandler) (port : at_port)
    : list SMS * option error * list effect :=
  let r := sendATCommand s ("AT+CMGL=" ++ quoted "ALL") port in
  match err r with
  | Some e => ([], Some (ErrReadSMS e), effs r)
  | None => (parseSMSList (resp r), None, effs r)
  end.

Definition ReadNewSMS (s : SMSHandler) (port : at_port)
    : list SMS * option error * list effect :=
  let r := sendATCommand s ("AT+CMGL=" ++ quoted "REC UNREAD") port in
  match err r with
  | Some e => ([], Some (ErrReadNewSMS e), effs r)
  | None => (parseSMSList (resp r), None, effs r)
  end.

Definition DeleteSMS (s : SMSHandler) (index : Z) (port : at_port)
    : option error * list effect :=
  let r := sendATCommand s ("AT+CMGD=" ++ fmt.Sprintf_d index) port in
  match err r with
  | Some e => (Some (ErrDeleteSMS e), effs r)
  | None => (None, effs r)
  end.

(** The loop of [readSMSByIndex] over the lines of the response. *)
Fixpoint findCMGR (index : Z) (lines : list string) : outcome SMS :=
  match lines with
  | [] => Fail ErrParseSMS
  | l :: rest =>
      let line := strings.TrimSpace l in
      if strings.HasPrefix line "+CMGR:" then
        let parts := strings.Split line "," in
        if (3 <=? length parts)%nat then
          match slice_from 7 (nth 0 parts EmptyString) with
          | None => Panic
          | Some status =>
              Ret {| Index := index;
                     Status := strings.Trim status dq;
                     Sender := strings.Trim (nth 1 parts EmptyString) dq;
                     Date := strings.Trim (nth 2 parts EmptyString) dq;
                     Message := match rest with
                                | next :: _ => strings.TrimSpace next
                                | [] => EmptyString
                                end |}
          end
        else findCMGR index rest
      else findCMGR index rest
  end.

Definition readSMSByIndex (s : SMSHandler) (index : Z) (port : at_port)
    : outcome SMS * list effect :=
  let r := sendATCommand s ("AT+CMGR=" ++ fmt.Sprintf_d index) port in
  match err r with
  | Some e => (Fail (ErrReadSMS e), effs r)
  | None => (findCMGR index (strings.Split (resp r) LFc), effs r)
  end.

(** ** The listener: classification and the two notification handlers *)

Definition isATResponse (line : string) : bool :=
  if strings.HasPrefix line "AT+" || String.eqb line "AT" then true
  else if String.eqb line "OK" || String.eqb line "ERROR" then true
  else if strings.HasPrefix line "+CMGF:" || strings.HasPrefix line "+CSCS:"
          || strings.HasPrefix line "+CPMS:" || strings.HasPrefix line "+CNMI:"
          || strings.HasPrefix line "+CSQ:" then true
  else false.

(** [s[n:]] where the code has checked [n <= len(s)] before. *)
Fixpoint drop (n : nat) (s : string) : string :=
  match n, s with
  | O, _ => s
  | S n', String _ s' => drop n' s'
  | S _, EmptyString => EmptyString
  end.

Definition cmt_deadline : N := 2000.

(** The three places of [handleCMTMessage] that end the body: the callback
    is called when at least one line was collected. *)
Definition deliver (sms : SMS) (messageLines : list string) : list effect :=
  if (0 <? length messageLines)%nat then
    [Callback {| Index := Index sms; Status := Status sms; Sender := Sender sms;
                 Date := Date sms;
                 Message := strings.Join messageLines LF |}]
  else [].

(** The body loop of [handleCMTMessage]; [clock] is the time since the
    2-second timer was started.  Every read runs under the 100 ms read
    timeout set just before it, so a stream with nothing more ([reads] used
    up) only yields failed reads until the timer is seen. *)
Fixpoint cmtBody (sms : SMS) (reads : list (N * read_result)) (clock : N)
    (messageLines : list string) : list effect :=
  if (cmt_deadline <=? clock)%N then deliver sms messageLines
  else
    match reads with
    | [] => deliver sms messageLines
    | (d, ReadFail) :: rest => cmtBody sms rest (clock + d)%N messageLines
    | (d, ReadOk raw) :: rest =>
        let line := strings.TrimSpace raw in
        if String.eqb line EmptyString && (length messageLines =? 0)%nat then
          cmtBody sms rest (clock + d)%N messageLines
        else if strings.HasPrefix line "+CMT:" || strings.HasPrefix line "+CMTI:"
                || strings.HasPrefix line "OK" || strings.HasPrefix line "ERROR"
                || strings.HasPrefix line "AT+" then
          deliver sms messageLines
        else if negb (String.eqb line EmptyString) then
          cmtBody sms rest (clock + d)%N (messageLines ++ [line])
        else if (0 <? length messageLines)%nat then
          [Callback {| Index := Index sms; Status := Status sms;
                       Sender := Sender sms; Date := Date sms;
                       Message := strings.Join messageLines LF |}]
        else cmtBody sms rest (clock + d)%N messageLines
    end.

Definition handleCMTMessage (line : string) (reads : list (N * read_result))
    : list effect :=
  let parts := strings.Split line "," in
  if (length parts <? 3)%nat then []
  else
    let senderPart := nth 0 parts EmptyString in
    if (6 <? String.length senderPart)%nat then
      let sender := strings.Trim (drop 6 senderPart) dq in
      let date :=
        if (3 <=? length parts)%nat then strings.Trim (nth 2 parts EmptyString) dq
        else EmptyString in
      cmtBody {| Index := 0; Status := EmptyString; Sender := sender;
                 Date := date; Message := EmptyString |} reads 0 []
    else [].

(** [handleCMTIMessage]: the effects, and whether the call panicked. *)
Definition handleCMTIMessage (s : SMSHandler) (line : string) (port : at_port)
    : list effect * bool :=
  let parts := strings.Split line "," in
  if (2 <=? length parts)%nat then
    let index := fmt.Sscanf_d (nth 1 parts EmptyString) in
    match readSMSByIndex s index port with
    | (Ret sms, io) => ((io ++ [Callback sms])%list, false)
    | (Fail _, io) => (io, false)
    | (Panic, io) => (io, true)
    end
  else ([], false).

(** The default branch of the listener's select for a line read without
    error: [body] feeds the reads of a [+CMT:] body, [port] the transaction
    of a [+CMTI:] fetch. *)
Definition listenLine (s : SMSHandler) (raw : string)
    (body : list (N * read_result)) (port : at_port) : list effect * bool :=
  let line := strings.TrimSpace raw in
  if String.eqb line EmptyString then ([], false)
  else if isATResponse line then ([], false)
  else
    let io1 :=
      if strings.HasPrefix line "+CMT:" then handleCMTMessage line body else [] in
    let '(io2, panicked) :=
      if strings.HasPrefix line "+CMTI:" then handleCMTIMessage s line port
      else ([], false) in
    ((io1 ++ io2)%list, panicked).

(** ** SendSMS *)

(** The port as [SendSMS] meets it: whether each of the two writes succeeds,
    and the data reaching the port, each batch with the time a [Read] waits
    for it.  Bytes of a batch that a [Read] leaves behind are read by the
    next one at once.  Once [input] is used up the port is silent: reads
    only time out, and a loop leaves by its deadline. *)
Record sms_port : Type := mkSmsPort
  { cmgs_write_ok : bool;
    body_write_ok : bool;
    input : list (N * port_read) }.

Definition prompt_deadline : N := 10000.
Definition response_deadline : N := 30000.

Fixpoint take (n : nat) (s : string) : string :=
  match n, s with
  | S n', String c s' => String c (take n' s')
  | _, _ => EmptyString
  end.

(** The successive results of [Read] calls with a buffer of [size] bytes
    over [data]. *)
Fixpoint chunks (fuel size : nat) (data : string) : list string :=
  match fuel with
  | O => []
  | S fuel' =>
      match data with
      | EmptyString => []
      | String _ _ => take size data :: chunks fuel' size (drop size data)
      end
  end.

Inductive prompt_end : Type :=
| PromptSeen (promptBuffer pending : string) (rest : list (N * port_read))
| PromptMissed (promptBuffer : string).

Inductive bytes_end : Type :=
| BytesFound (promptBuffer pending : string)
| BytesExpired (promptBuffer : string)
| BytesUsed (promptBuffer : string).

(** Iterations of the prompt loop over bytes that are in the port already. *)
Fixpoint promptBytes (clock : N) (data promptBuffer : string)
    : bytes_end * list effect :=
  match data with
  | EmptyString => (BytesUsed promptBuffer, [])
  | String b data' =>
      if (prompt_deadline <=? clock)%N then (BytesExpired promptBuffer, [])
      else
        let promptBuffer := promptBuffer ++ String b EmptyString in
        let io := PortRead clock (RdData (String b EmptyString)) in
        if strings.Contains promptBuffer ">" then
          (BytesFound promptBuffer data', [io])
        else
          let '(e, ios) := promptBytes clock data' promptBuffer in
          (e, io :: ios)
  end.

(** The loop that waits for the prompt; [clock] is [time.Since(startTime)]. *)
Fixpoint promptLoop (input : list (N * port_read)) (clock : N)
    (promptBuffer : string) : prompt_end * list effect :=
  if (prompt_deadline <=? clock)%N then (PromptMissed promptBuffer, [])
  else
    match input with
    | [] => (PromptMissed promptBuffer, [])
    | (d, RdData (String b data')) :: rest =>
        let promptBuffer := promptBuffer ++ String b EmptyString in
        let io := PortRead clock (RdData (String b EmptyString)) in
        if strings.Contains promptBuffer ">" then
          (PromptSeen promptBuffer data' rest, [io])
        else
          match promptBytes (clock + d)%N data' promptBuffer with
          | (BytesFound pb pending, ios) => (PromptSeen pb pending rest, io :: ios)
          | (BytesExpired pb, ios) => (PromptMissed pb, io :: ios)
          | (BytesUsed pb, ios) =>
              let '(e, ios') := promptLoop rest (clock + d)%N pb in
              (e, (io :: ios ++ ios')%list)
          end
    | (d, r) :: rest =>
        let '(e, ios) := promptLoop rest (clock + d)%N promptBuffer in
        (e, PortRead clock r :: ios)
    end.

Inductive response_end : Type :=
| SendOk
| SendFailed (response : string)
| SendExpired
| PiecesUsed (responseBuffer : string).

(** The checks made on the response after each read that brought bytes;
    [None]: go on reading. *)
Definition checkResponse (response : string) : option response_end :=
  if (strings.Contains response "+CMGS:" || strings.Contains response "OK")
     && strings.Contains response "+CMGS:" then Some SendOk
  else if strings.Contains response "ERROR"
          || strings.Contains response "+CMS ERROR" then Some (SendFailed response)
  else None.

(** Iterations of the response loop over data that is in the port already,
    128 bytes a read. *)
Fixpoint responsePieces (clock : N) (pieces : list string)
    (responseBuffer : string) : response_end * list effect :=
  match pieces with
  | [] => (PiecesUsed responseBuffer, [])
  | p :: ps =>
      if (response_deadline <=? clock)%N then (SendExpired, [])
      else
        let responseBuffer := responseBuffer ++ p in
        let io := PortRead clock (RdData p) in
        match checkResponse responseBuffer with
        | Some e => (e, [io])
        | None =>
            let '(e, ios) := responsePieces clock ps responseBuffer in
            (e, io :: ios)
        end
  end.

(** The loop that waits for the modem's answer to the message. *)
Fixpoint responseLoop (input : list (N * port_read)) (clock : N)
    (responseBuffer : string) : response_end * list effect :=
  if (response_deadline <=? clock)%N then (SendExpired, [])
  else
    match input with
    | [] => (SendExpired, [])
    | (d, RdData (String b data')) :: rest =>
        let data := String b data' in
        let p := take 128 data in
        let responseBuffer := responseBuffer ++ p in
        let io := PortRead clock (RdData p) in
        match checkResponse responseBuffer with
        | Some e => (e, [io])
        | None =>
            match responsePieces (clock + d)%N
                    (chunks (String.length data) 128 (drop 128 data))
                    responseBuffer with
            | (PiecesUsed rb, ios) =>
                let '(e, ios') := responseLoop rest (clock + d)%N rb in
                (e, (io :: ios ++ ios')%list)
            | (e, ios) => (e, io :: ios)
            end
        end
    | (d, r) :: rest =>
        let '(e, ios) := responseLoop rest (clock + d)%N responseBuffer in
        (e, PortRead clock r :: ios)
    end.

(** [SendSMS]: the pause, the command, the wait for the prompt, the message,
    the wait for the answer, and the deferred resume.  The bytes the call
    drains from the buffered reader at its start are no part of [input]. *)
Definition SendSMS (s : SMSHandler) (phoneNumber message : string)
    (port : sms_port) : option error * list effect :=
  let cmd := "AT+CMGS=" ++ quoted phoneNumber in
  let '(e, io) :=
    if negb (cmgs_write_ok port) then
      (Some ErrWriteCMGS, [Sleep 100; PortWrite (cmd ++ CR) false])
    else
      match promptLoop (input port) 0 EmptyString with
      | (PromptMissed pb, io1) =>
          (Some (ErrPromptTimeout pb),
           ([Sleep 100; PortWrite (cmd ++ CR) true] ++ io1)%list)
      | (PromptSeen _ pending rest, io1) =>
          if negb (body_write_ok port) then
            (Some ErrSendMessage,
             ([Sleep 100; PortWrite (cmd ++ CR) true] ++ io1
              ++ [Sleep 100; PortWrite (message ++ CtrlZ) false])%list)
          else
            let '(r, io2) :=
              match responsePieces 0 (chunks (String.length pending) 128 pending)
                      EmptyString with
              | (PiecesUsed rb, ios) =>
                  let '(e, ios') := responseLoop rest 0 rb in
                  (e, (ios ++ ios')%list)
              | other => other
              end in
            (match r with
             | SendOk => None
             | SendFailed response => Some (ErrSMSFailed response)
             | _ => Some ErrSMSTimeout
             end,
             ([Sleep 100; PortWrite (cmd ++ CR) true] ++ io1
              ++ [Sleep 100; PortWrite (message ++ CtrlZ) true] ++ io2)%list)
      end in
  (e, (pauseListener s ++ io ++ resumeListener s)%list).

(** ** The goroutines and the two channels

    A caller goroutine is the list of effects it still has to perform.  The
    listener goroutine is at the top of its select, inside the pause branch,
    or inside the default branch handling a line.  The channels have no
    buffer: a send and a receive on the same channel happen together, in two
    different goroutines. *)

Inductive listener : Type :=
| AtSelect                                        (* select { ... } *)
| Acking                                          (* s.resumeChan <- true *)
| Paused                                          (* <-s.resumeChan *)
| Handling (todo : list effect) (panicked : bool) (* default branch *)
| Stopped.                                        (* after recover() *)

Definition system : Type := listener * list (list effect).

Definition is_chan_op (e : effect) : bool :=
  match e with
  | ChanSend _ | ChanRecv _ => true
  | _ => false
  end.

Definition offers_pause (p : list effect) : bool :=
  match p with
  | ChanSend pauseChan :: _ => true
  | _ => false
  end.

(** The receive the listener is ready for, and where it goes by it. *)
Definition listener_recv (l : listener) : option (chan * listener) :=
  match l with
  | AtSelect => Some (pauseChan, Acking)
  | Paused => Some (resumeChan, AtSelect)
  | Handling (ChanRecv c :: todo) p => Some (c, Handling todo p)
  | _ => None
  end.

(** The send the listener is ready for, and where it goes by it. *)
Definition listener_send (l : listener) : option (chan * listener) :=
  match l with
  | Acking => Some (resumeChan, Paused)
  | Handling (ChanSend c :: todo) p => Some (c, Handling todo p)
  | _ => None
  end.

Fixpoint set_nth {A : Type} (i : nat) (x : A) (l : list A) : list A :=
  match i, l with
  | O, _ :: t => x :: t
  | S i', h :: t => h :: set_nth i' x t
  | _, [] => []
  end.

Inductive step : system -> system -> Prop :=
| step_poll : forall s raw body port cs,
    listening s = true ->
    existsb offers_pause cs = false ->
    step (AtSelect, cs)
         (Handling (fst (listenLine s raw body port))
                   (snd (listenLine s raw body port)), cs)
| step_handled : forall cs,
    step (Handling [] false, cs) (AtSelect, cs)
| step_recovered : forall cs,
    step (Handling [] true, cs) (Stopped, cs)
| step_listener : forall e todo p cs,
    is_chan_op e = false ->
    step (Handling (e :: todo) p, cs) (Handling todo p, cs)
| step_caller : forall l cs i e todo,
    nth_error cs i = Some (e :: todo) ->
    is_chan_op e = false ->
    step (l, cs) (l, set_nth i todo cs)
| step_listener_recv : forall l l' c cs i todo,
    listener_recv l = Some (c, l') ->
    nth_error cs i = Some (ChanSend c :: todo) ->
    step (l, cs) (l', set_nth i todo cs)
| step_listener_send : forall l l' c cs i todo,
    listener_send l = Some (c, l') ->
    nth_error cs i = Some (ChanRecv c :: todo) ->
    step (l, cs) (l', set_nth i todo cs)
| step_callers : forall l c cs i j todo_i todo_j,
    i <> j ->
    nth_error cs i = Some (ChanSend c :: todo_i) ->
    nth_error cs j = Some (ChanRecv c :: todo_j) ->
    step (l, cs) (l, set_nth i todo_i (set_nth j todo_j cs)).

Inductive steps : system -> system -> Prop :=
| steps_refl : forall sys, steps sys sys
| steps_step : forall sys1 sys2 sys3,
    step sys1 sys2 -> steps sys2 sys3 -> steps sys1 sys3.

(** A goroutine that never receives from [pauseChan]: every caller of the
    handler's operations is one. *)
Definition never_recv_pause (p : list effect) : Prop :=
  Forall (fun e => e <> ChanRecv pauseChan) p.

(** ** Words used to state the properties *)

(** The line a successful read brought, trimmed. *)
Definition line_of (r : N * read_result) : option string :=
  match snd r with
  | ReadOk raw => Some (strings.TrimSpace raw)
  | ReadFail => None
  end.

Definition is_ok (r : N * read_result) : bool :=
  match snd r with ReadOk _ => true | ReadFail => false end.

Definition is_blank (r : N * read_result) : bool :=
  match line_of r with Some l => String.eqb l EmptyString | None => false end.

Definition is_echo (command : string) (r : N * read_result) : bool :=
  match line_of r with Some l => String.eqb l command | None => false end.

Definition has_token (r : N * read_result) : bool :=
  match line_of r with Some l => is_terminal l | None => false end.

(** The lines of [reads] that go into the response: trimmed, not empty and
    not the echo of the command. *)
Fixpoint kept (command : string) (reads : list (N * read_result)) : list string :=
  match reads with
  | [] => []
  | r :: rest =>
      match line_of r with
      | Some l =>
          if String.eqb l command || String.eqb l EmptyString
          then kept command rest
          else l :: kept command rest
      | None => kept command rest
      end
  end.

(** Each line followed by a newline. *)
Fixpoint accumulate (ls : list string) : string :=
  match ls with
  | [] => EmptyString
  | l :: rest => l ++ LF ++ accumulate rest
  end.

(** The records a trace hands to the callback. *)
Fixpoint callbacks (io : list effect) : list SMS :=
  match io with
  | [] => []
  | Callback sms :: rest => sms :: callbacks rest
  | _ :: rest => callbacks rest
  end.

(** The data of the writes a trace makes on the port, in order. *)
Fixpoint writes (io : list effect) : list string :=
  match io with
  | [] => []
  | PortWrite data _ :: rest => data :: writes rest
  | _ :: rest => writes rest
  end.

(** The bytes the reads of a trace brought, in order. *)
Fixpoint bytes_read (io : list effect) : string :=
  match io with
  | [] => EmptyString
  | PortRead _ (RdData data) :: rest => data ++ bytes_read rest
  | _ :: rest => bytes_read rest
  end.

Definition is_read_before (deadline : N) (e : effect) : bool :=
  match e with
  | PortRead issued _ => (issued <? deadline)%N
  | _ => false
  end.

(** The headers and ports of the examples *)

Definition header4 : string :=
  "+CMGR: " ++ quoted "REC READ" ++ "," ++ quoted "+1234567890" ++ ","
  ++ quoted "" ++ "," ++ quoted "24/01/15,10:30:45+00".

Definition header_named : string :=
  "+CMGR: " ++ quoted "REC UNREAD" ++ "," ++ quoted "+9876543210" ++ ","
  ++ quoted "John Doe" ++ "," ++ quoted "24/01/15 14:20:30".

Definition ok_line (d : N) (text : string) : N * read_result :=
  (d, ReadOk (text ++ CRLF)).

Definition port_of (reads : list (N * read_result)) : at_port :=
  {| write_ok := true; lines := reads; done_on_tie := true |}.

Definition idle : SMSHandler := NewSMSHandler_handler.
Definition listened : SMSHandler := ListenForIncomingSMS_handler idle.

(** ** Further words used to state and prove the properties *)

Definition buffer_of_bytes (e : bytes_end) : string :=
  match e with
  | BytesFound pb _ | BytesExpired pb | BytesUsed pb => pb
  end.

Definition buffer_of_prompt (e : prompt_end) : string :=
  match e with
  | PromptSeen pb _ _ | PromptMissed pb => pb
  end.

Definition is_port_read (e : effect) : bool :=
  match e with PortRead _ _ => true | _ => false end.

(** A port that shows the prompt after 10 ms and brings [answer] 50 ms after
    the message was written. *)
Definition prompt_then (answer : string) : sms_port :=
  {| cmgs_write_ok := true; body_write_ok := true;
     input := [(10%N, RdData (CRLF ++ "> ")); (50%N, RdData answer)] |}.

Definition tail_string (s : string) : string :=
  match s with EmptyString => EmptyString | String _ t => t end.

(** What the trimming lemmas need of a set of patterns: none is empty and
    none holds a newline after its first byte. *)
Definition patterns_ok (ps : list string) : bool :=
  forallb (fun p => negb (String.eqb p EmptyString)
                    && negb (strings.mem_ascii LFc (tail_string p))) ps.

Definition rev_space_runes : list string := map rev_string strings.space_runes.

(** A stretch of text that is trimmed and not empty. *)
Definition solid (l : string) : Prop :=
  l <> EmptyString
  /\ strings.strip_any strings.space_runes l = None
  /\ strings.strip_any rev_space_runes (rev_string l) = None.

(** The reader is still reading after [reads]: every read brought a line,
    no line but an echo holds a terminal token, and no stretch of blank
    lines and echoes holds more than 3 blank lines. *)
Definition still_reading (command : string) (reads : list (N * read_result)) : Prop :=
  Forall (fun r => is_ok r = true) reads
  /\ Forall (fun r => has_token r = true -> is_echo command r = true) reads
  /\ forall a b c, reads = (a ++ b ++ c)%list ->
       Forall (fun r => is_blank r = true \/ is_echo command r = true) b ->
       length (filter (fun r => negb (is_echo command r)) b) <= 3.

(** The value of [consecutiveEmpty] after [reads], none of which stops the
    loop. *)
Fixpoint blanks_after (command : string) (reads : list (N * read_result))
    (consecutiveEmpty : nat) : nat :=
  match reads with
  | [] => consecutiveEmpty
  | r :: rest =>
      if is_echo command r then blanks_after command rest consecutiveEmpty
      else if is_blank r then blanks_after command rest (S consecutiveEmpty)
      else blanks_after command rest 0
  end.

(** The inputs of the examples below *)

Definition csq_reads : list (N * read_result) :=
  [ok_line 5 "AT+CSQ"; ok_line 1 ""; ok_line 5 "+CSQ: 20,0"; ok_line 1 "";
   ok_line 5 "OK"; ok_line 5 "+CMTI: x"].

Definition cmt_header : string :=
  "+CMT: " ++ quoted "+1234567890" ++ "," ++ quoted "" ++ ","
  ++ quoted "24/01/15,10:00:00+00".

Definition cmt_body : list (N * read_result) :=
  [ok_line 1 "Hello"; ok_line 1 ""].

Definition cmgl_empty : string :=
  "+CMGL: 1," ++ quoted "REC UNREAD" ++ "," ++ quoted "" ++ ",,"
  ++ quoted "24/01/15,10:30:45+00".

Definition cmti_line : string := "+CMTI: " ++ quoted "SM" ++ ",3".

Definition cmgr_port : at_port :=
  port_of [ok_line 5 "AT+CMGR=3"; ok_line 5 header4; ok_line 5 "Hello";
           ok_line 5 "OK"].

Definition is_ascii (c : ascii) : bool := in_range 0 127 c.

Fixpoint plain_field (x : string) : bool :=
  match x with
  | EmptyString => true
  | String c x' => is_ascii c && negb (Ascii.eqb c dquote) && plain_field x'
  end.

(** ** readUntilAny *)

(** The loop of [readUntilAny] over a [bufio.Reader] that holds the bytes
    [r] and fails (with [io.EOF]) once they are used up: the text returned,
    the delimiter (the zero byte beside an error), whether an error is
    returned, and the bytes the reader still holds. *)
Fixpoint readUntilAnyLoop (r delimiters result : string)
    : string * ascii * bool * string :=
  match r with
  | EmptyString => (result, zero, true, EmptyString)
  | String b r' =>
      let result := result ++ String b EmptyString in
      if strings.mem_ascii b delimiters then (result, b, false, r')
      else readUntilAnyLoop r' delimiters result
  end.

Definition readUntilAny (r delimiters : string)
    : string * ascii * bool * string :=
  readUntilAnyLoop r delimiters EmptyString.

(** No byte of [s] is in [set]. *)
Fixpoint free_of (set s : string) : bool :=
  match s with
  | EmptyString => true
  | String c s' => negb (strings.mem_ascii c set) && free_of set s'
  end.

(** ** The formats the parsers' comments describe *)

(** A field that can stand between quotes in a header that is split at its
    commas: it holds no comma, no double quote and no newline. *)
Definition bare (x : string) : bool :=
  free_of (String "," (String dquote (String LFc EmptyString))) x.

(** [+CMGL: index,status,sender,date] (the comment of [parseSMSList]). *)
Definition cmgl_header (sms : SMS) : string :=
  "+CMGL: " ++ fmt.Sprintf_d (Index sms) ++ "," ++ quoted (Status sms) ++ ","
  ++ quoted (Sender sms) ++ "," ++ quoted (Date sms).

(** The answer to [AT+CMGL] for the records [l]: for each a header line
    and the line of its text, then the final [OK]. *)
Fixpoint listing (l : list SMS) : string :=
  match l with
  | [] => "OK"
  | sms :: rest => cmgl_header sms ++ LF ++ Message sms ++ LF ++ listing rest
  end.

(** What the listing above can carry of a record. *)
Definition listable (sms : SMS) : Prop :=
  (fmt.int_min <= Index sms <= fmt.int_max)%Z
  /\ bare (Status sms) = true /\ bare (Sender sms) = true
  /\ bare (Date sms) = true
  /\ free_of LF (Message sms) = true
  /\ strings.TrimSpace (Message sms) = Message sms.

(** [+CMGR: status,sender,date] (the comment of [readSMSByIndex]). *)
Definition cmgr_header (status sender date : string) : string :=
  "+CMGR: " ++ quoted status ++ "," ++ quoted sender ++ "," ++ quoted date.

Definition is_cmgl (l : string) : bool :=
  strings.HasPrefix (strings.TrimSpace l) "+CMGL:".

(** ** initModem and NewSMSHandler *)

(** The errors of [initModem], named after their messages; each wraps the
    error of the transaction that failed. *)
Inductive init_error : Type :=
| ErrATTest (cause : error)         (* AT test failed: ... *)
| ErrTextMode (cause : error)       (* failed to set SMS text mode: ... *)
| ErrCharacterSet (cause : error)   (* failed to set character set: ... *)
| ErrStorage (cause : error)        (* failed to set SMS storage: ... *)
| ErrNotifications (cause : error). (* failed to enable SMS notifications: ... *)

Definition cmd_AT : string := "AT".
Definition cmd_CMGF : string := "AT+CMGF=1".
Definition cmd_CSCS : string := "AT+CSCS=" ++ quoted "GSM".
Definition cmd_CPMS : string :=
  "AT+CPMS=" ++ quoted "SM" ++ "," ++ quoted "SM" ++ "," ++ quoted "SM".
Definition cmd_CNMI_1 : string := "AT+CNMI=1,2,0,1,0".
Definition cmd_CNMI_2 : string := "AT+CNMI=2,1,0,2,0".
Definition cmd_CNMI_3 : string := "AT+CNMI=1,1,0,1,0".

(** [initModem]; [ports k] is the port as the transaction of the call's
    [k]-th [sendATCommand] meets it (counted from 0). *)
Definition initModem (s : SMSHandler) (ports : nat -> at_port)
    : option init_error * list effect :=
  let r0 := sendATCommand s cmd_AT (ports 0) in
  match err r0 with
  | Some e => (Some (ErrATTest e), effs r0)
  | None =>
  let r1 := sendATCommand s cmd_CMGF (ports 1) in
  match err r1 with
  | Some e => (Some (ErrTextMode e), (effs r0 ++ effs r1)%list)
  | None =>
  let r2 := sendATCommand s cmd_CSCS (ports 2) in
  match err r2 with
  | Some e => (Some (ErrCharacterSet e), (effs r0 ++ effs r1 ++ effs r2)%list)
  | None =>
  let r3 := sendATCommand s cmd_CPMS (ports 3) in
  let io3 := (effs r0 ++ effs r1 ++ effs r2 ++ effs r3)%list in
  match err r3 with
  | Some e => (Some (ErrStorage e), io3)
  | None =>
  let r4 := sendATCommand s cmd_CNMI_1 (ports 4) in
  match err r4 with
  | None => (None, (io3 ++ effs r4)%list)
  | Some _ =>
  let r5 := sendATCommand s cmd_CNMI_2 (ports 5) in
  match err r5 with
  | None => (None, (io3 ++ effs r4 ++ effs r5)%list)
  | Some _ =>
  let r6 := sendATCommand s cmd_CNMI_3 (ports 6) in
  match err r6 with
  | None => (None, (io3 ++ effs r4 ++ effs r5 ++ effs r6)%list)
  | Some e =>
      (Some (ErrNotifications e), (io3 ++ effs r4 ++ effs r5 ++ effs r6)%list)
  end end end end end end end.




(** The modem answers [command] on [port]: the write succeeds and a line
    with a terminal token ([OK], [ERROR], ...) is read before the timer
    fires, the reader being still at work when it comes. *)
Definition answers (command : string) (port : at_port) : Prop :=
  write_ok port = true
  /\ exists pre d raw post,
       lines port = (pre ++ (d, ReadOk raw) :: post)%list
       /\ still_reading command pre
       /\ is_terminal (strings.TrimSpace raw) = true
       /\ strings.TrimSpace raw <> command
       /\ (elapsed pre + d < command_deadline)%N.

(** A modem that answers [text] to everything, 5 ms after the write. *)
Definition says (text : string) : at_port := port_of [ok_line 5 text].

(** A modem that answers [OK] to everything, behind a port whose [k]-th
    write fails. *)
Definition failing_at (k : nat) : nat -> at_port :=
  fun i => if (i =? k)%nat
           then {| write_ok := false; lines := []; done_on_tie := true |}
           else says "OK".

(** The transaction failed to write or met its timer. *)
Definition failed (r : at_result) : Prop :=
  err r = Some ErrWriteCommand \/ err r = Some ErrCommandTimeout.

(** ** Words for the body of a [+CMT:] message *)

(** The lines that end the body (lines 401-403). *)
Definition ends_body (line : string) : bool :=
  strings.HasPrefix line "+CMT:" || strings.HasPrefix line "+CMTI:"
  || strings.HasPrefix line "OK" || strings.HasPrefix line "ERROR"
  || strings.HasPrefix line "AT+".

(** A read that brings a line of the body. *)
Definition is_body_line (r : N * read_result) : bool :=
  match line_of r with
  | Some l => negb (String.eqb l EmptyString) && negb (ends_body l)
  | None => false
  end.

(** The lines the successful reads brought, trimmed. *)
Fixpoint ok_lines (reads : list (N * read_result)) : list string :=
  match reads with
  | [] => []
  | r :: rest =>
      match line_of r with
      | Some l => l :: ok_lines rest
      | None => ok_lines rest
      end
  end.

(** ** Words for the answer to a message *)

(** What the result [e] of the response loop says of the bytes [ios] brought
    on top of the buffer [rb]. *)
Definition answer_ok (rb : string) (e : response_end) (ios : list effect) : Prop :=
  match e with
  | SendOk => strings.Contains (rb ++ bytes_read ios) "+CMGS:" = true
  | SendFailed r =>
      r = rb ++ bytes_read ios
      /\ strings.Contains r "ERROR" = true
      /\ strings.Contains r "+CMGS:" = false
  | SendExpired =>
      checkResponse rb = None -> checkResponse (rb ++ bytes_read ios) = None
  | PiecesUsed rb' =>
      rb' = rb ++ bytes_read ios
      /\ (checkResponse rb = None -> checkResponse rb' = None)
  end.

(** ** Words for the handshake *)

(** The effects still to come of a caller goroutine that stands between two
    operations of a handler with a listener: each operation is a pause
    ([pauseChan <- true; <-resumeChan]), effects on the port, and the
    deferred resume ([resumeChan <- true]). *)
Inductive transactions : list effect -> Prop :=
| tx_nil : transactions []
| tx_cons : forall io rest,
    Forall (fun e => is_chan_op e = false) io ->
    transactions rest ->
    transactions (ChanSend pauseChan :: ChanRecv resumeChan
                  :: io ++ ChanSend resumeChan :: rest).

(** The caller is inside an operation: its pause is acknowledged, its
    resume is still to come. *)
Definition inside_form (p : list effect) : Prop :=
  exists io rest,
    p = (io ++ ChanSend resumeChan :: rest)%list
    /\ Forall (fun e => is_chan_op e = false) io
    /\ transactions rest.

(** The caller has sent its pause and waits for the acknowledgement. *)
Definition acking_form (p : list effect) : Prop :=
  exists q, p = ChanRecv resumeChan :: q /\ inside_form q.

Definition caller_ok (p : list effect) : Prop :=
  transactions p \/ acking_form p \/ inside_form p.

Definition awaits_ack (p : list effect) : bool :=
  match p with
  | ChanRecv resumeChan :: _ => true
  | _ => false
  end.

Definition in_transaction (p : list effect) : bool :=
  match p with
  | ChanSend resumeChan :: _ => true
  | e :: _ => negb (is_chan_op e)
  | [] => false
  end.


Definition count (f : list effect -> bool) (cs : list (list effect)) : nat :=
  length (filter f cs).


(** ** MockSerialPort, the port of the tests *)

Module MockSerialPort.

Inductive io_error : Type :=
| ErrPortClosed            (* port closed *)
| ErrEOF                   (* io.EOF *)
| ErrSet (msg : string).   (* the error stored in readErr or writeErr *)

(** [readBuffer] holds the unread bytes of the [bytes.Buffer]; [responses]
    is the map, as the list of its bindings, the newest first. *)
Record t : Type := mk
  { readBuffer : string;
    writeData : string;
    closed : bool;
    readErr : option io_error;
    writeErr : option io_error;
    responses : list (string * string) }.

Definition NewMockSerialPort : t :=
  {| readBuffer := EmptyString; writeData := EmptyString; closed := false;
     readErr := None; writeErr := None; responses := [] |}.


(** [Read(p)] with [len(p) = size]: the bytes copied into [p], the error,
    and the mock after the call.  [bytes.Buffer.Read] returns [io.EOF] on an
    empty buffer unless [p] is empty too. *)
Definition Read (m : t) (size : nat) : string * option io_error * t :=
  if closed m then (EmptyString, Some ErrPortClosed, m)
  else
    match readErr m with
    | Some e => (EmptyString, Some e, m)
    | None =>
        match readBuffer m with
        | EmptyString =>
            if (size =? 0)%nat then (EmptyString, None, m)
            else (EmptyString, Some ErrEOF, m)
        | String _ _ =>
            (take size (readBuffer m), None,
             {| readBuffer := drop size (readBuffer m); writeData := writeData m;
                closed := closed m; readErr := readErr m; writeErr := writeErr m;
                responses := responses m |})
        end
    end.


(** [Close()] returns nil. *)
Definition Close (m : t) : t :=
  {| readBuffer := readBuffer m; writeData := writeData m; closed := true;
     readErr := readErr m; writeErr := writeErr m; responses := responses m |}.


Definition SimulateIncoming (m : t) (data : string) : t :=
  {| readBuffer := readBuffer m ++ data; writeData := writeData m;
     closed := closed m; readErr := readErr m; writeErr := writeErr m;
     responses := responses m |}.


(** Successive [Read] calls with a buffer of [size] bytes, until one
    returns an error: the data of each. *)
Fixpoint read_all (fuel size : nat) (m : t) : list string :=
  match fuel with
  | O => []
  | S fuel' =>
      match Read m size with
      | (data, None, m') => data :: read_all fuel' size m'
      | (_, Some _, _) => []
      end
  end.

End MockSerialPort.

(** ** Words for a refusal *)

(** The modem refuses [command] on [port]: after nothing but echoes and
    blank lines, one line that holds [ERROR] is read before the timer
    fires. *)
Definition refuses (command : string) (port : at_port) : Prop :=
  write_ok port = true
  /\ exists pre d raw post,
       lines port = (pre ++ (d, ReadOk raw) :: post)%list
       /\ still_reading command pre
       /\ kept command pre = []
       /\ strings.Contains (strings.TrimSpace raw) "ERROR" = true
       /\ strings.HasPrefix (strings.TrimSpace raw) "+CMGL:" = false
       /\ free_of LF (strings.TrimSpace raw) = true
       /\ strings.TrimSpace raw <> command
       /\ (elapsed pre + d < command_deadline)%N.

(** The lines a successful read brought hold no newline but at their end
    (as [ReadString] cuts them). *)
Definition one_line_each (reads : list (N * read_result)) : Prop :=
  Forall (fun r => match line_of r with
                   | Some l => free_of LF l = true
                   | None => True
                   end) reads.

(** * Properties *)

(** ** Strings *)

Lemma append_assoc : forall s1 s2 s3 : string,
  s1 ++ (s2 ++ s3) = (s1 ++ s2) ++ s3.
Proof. induction s1; intros; simpl; [reflexivity | now rewrite IHs1]. Qed.

Lemma append_empty_r : forall s : string, s ++ EmptyString = s.
Proof. induction s; simpl; congruence. Qed.

Lemma length_append : forall s1 s2 : string,
  String.length (s1 ++ s2) = String.length s1 + String.length s2.
Proof. induction s1; intros; simpl; [reflexivity | now rewrite IHs1]. Qed.

(** ** The effects of the two transactions *)

Lemma bytes_read_app : forall io1 io2,
  bytes_read (io1 ++ io2) = bytes_read io1 ++ bytes_read io2.
Proof.
  induction io1 as [|e io1 IH]; intros io2; simpl; [reflexivity|].
  destruct e as [ | | | issued got | | ]; try apply IH.
  destruct got; try apply IH.
  rewrite IH. apply append_assoc.
Qed.

Lemma promptBytes_reads : forall data clock pb,
  Forall (fun e => is_read_before prompt_deadline e = true)
         (snd (promptBytes clock data pb))
  /\ buffer_of_bytes (fst (promptBytes clock data pb))
     = pb ++ bytes_read (snd (promptBytes clock data pb))
  /\ (forall pb' pending, fst (promptBytes clock data pb) = BytesFound pb' pending ->
        strings.Contains pb' ">" = true).
Proof.
  induction data as [|b data IH]; intros clock pb; simpl.
  - split; [|split]; [constructor | symmetry; apply append_empty_r | discriminate].
  - destruct (prompt_deadline <=? clock)%N eqn:Hd; simpl.
    + split; [|split]; [constructor | symmetry; apply append_empty_r | discriminate].
    + destruct (strings.Contains (pb ++ String b "") ">") eqn:Hc; simpl.
      * split; [|split].
        -- constructor; [|constructor]. simpl.
           apply N.ltb_lt. apply N.leb_gt in Hd. exact Hd.
        -- reflexivity.
        -- intros pb' pending H. inversion H; subst. exact Hc.
      * specialize (IH clock (pb ++ String b "")).
        destruct (promptBytes clock data (pb ++ String b "")) as [e ios].
        simpl in *. destruct IH as (H1 & H2 & H3). split; [|split].
        -- constructor; [|exact H1]. simpl.
           apply N.ltb_lt. apply N.leb_gt in Hd. exact Hd.
        -- rewrite H2, <- append_assoc. reflexivity.
        -- exact H3.
Qed.

Lemma promptLoop_reads : forall input clock pb,
  Forall (fun e => is_read_before prompt_deadline e = true)
         (snd (promptLoop input clock pb))
  /\ buffer_of_prompt (fst (promptLoop input clock pb))
     = pb ++ bytes_read (snd (promptLoop input clock pb))
  /\ (forall pb' pending rest,
        fst (promptLoop input clock pb) = PromptSeen pb' pending rest ->
        strings.Contains pb' ">" = true).
Proof.
  intros inp. induction inp as [|[d r] input IH]; intros clock pb.
  - simpl. destruct (prompt_deadline <=? clock)%N; simpl;
      (split; [|split]; [constructor | symmetry; apply append_empty_r | discriminate]).
  - cbn [promptLoop]. destruct (prompt_deadline <=? clock)%N eqn:Hd.
    { simpl. split; [|split]; [constructor | symmetry; apply append_empty_r | discriminate]. }
    assert (Hlt : (clock <? prompt_deadline)%N = true)
      by (apply N.ltb_lt; apply N.leb_gt in Hd; exact Hd).
    assert (Hskip : forall r0,
      let res := (let '(e, ios) := promptLoop input (clock + d) pb in
                  (e, PortRead clock r0 :: ios)) in
      bytes_read [PortRead clock r0] = EmptyString ->
      Forall (fun e => is_read_before prompt_deadline e = true) (snd res)
      /\ buffer_of_prompt (fst res) = pb ++ bytes_read (snd res)
      /\ (forall pb' pending rest, fst res = PromptSeen pb' pending rest ->
            strings.Contains pb' ">" = true)).
    { intros r0 res Hr0. subst res. specialize (IH (clock + d)%N pb).
      destruct (promptLoop input (clock + d) pb) as [e ios]. cbn [fst snd] in *.
      destruct IH as (H1 & H2 & H3). split; [|split].
      - constructor; [exact Hlt | exact H1].
      - change (PortRead clock r0 :: ios) with ([PortRead clock r0] ++ ios)%list.
        rewrite bytes_read_app, Hr0. exact H2.
      - exact H3. }
    destruct r as [data | | ]; [| apply (Hskip RdNone); reflexivity
                                | apply (Hskip RdFail); reflexivity].
    destruct data as [|b data]; [apply (Hskip (RdData "")); reflexivity|].
    destruct (strings.Contains (pb ++ String b "") ">") eqn:Hc.
    + simpl. split; [|split].
      * constructor; [exact Hlt | constructor].
      * reflexivity.
      * intros pb' pending rest H. inversion H; subst. exact Hc.
    + pose proof (promptBytes_reads data (clock + d)%N (pb ++ String b "")) as HB.
      destruct (promptBytes (clock + d) data (pb ++ String b "")) as [be ios].
      simpl in HB. destruct HB as (B1 & B2 & B3).
      destruct be as [pb1 pending | pb1 | pb1]; simpl in *.
      * split; [|split].
        -- constructor; [exact Hlt | exact B1].
        -- rewrite B2, <- append_assoc. reflexivity.
        -- intros pb' pending' rest H. inversion H; subst.
           apply (B3 _ _ eq_refl).
      * split; [|split].
        -- constructor; [exact Hlt | exact B1].
        -- rewrite B2, <- append_assoc. reflexivity.
        -- discriminate.
      * specialize (IH (clock + d)%N pb1).
        destruct (promptLoop input (clock + d) pb1) as [e ios'].
        simpl in *. destruct IH as (H1 & H2 & H3). split; [|split].
        -- constructor; [exact Hlt |]. apply Forall_app. split; assumption.
        -- rewrite H2, B2, bytes_read_app.
           rewrite <- !append_assoc. reflexivity.
        -- exact H3.
Qed.

Lemma read_before_is_read : forall deadline e,
  is_read_before deadline e = true -> is_port_read e = true.
Proof. intros deadline [] H; simpl in *; congruence. Qed.

Lemma port_read_no_chan : forall e,
  is_port_read e = true -> is_chan_op e = false.
Proof. intros [] H; simpl in *; congruence. Qed.

Lemma promptBytes_missed : forall data clock pb pb',
  strings.Contains pb ">" = false ->
  fst (promptBytes clock data pb) = BytesExpired pb'
  \/ fst (promptBytes clock data pb) = BytesUsed pb' ->
  strings.Contains pb' ">" = false.
Proof.
  induction data as [|b data IH]; intros clock pb pb' Hpb; simpl.
  - intros [H|H]; inversion H; subst; assumption.
  - destruct (prompt_deadline <=? clock)%N; simpl.
    + intros [H|H]; inversion H; subst; assumption.
    + destruct (strings.Contains (pb ++ String b "") ">") eqn:Hc; simpl.
      * intros [H|H]; discriminate.
      * specialize (IH clock (pb ++ String b "") pb' Hc).
        destruct (promptBytes clock data (pb ++ String b "")); simpl in *.
        exact IH.
Qed.

Lemma promptLoop_missed : forall inp clock pb pb',
  strings.Contains pb ">" = false ->
  fst (promptLoop inp clock pb) = PromptMissed pb' ->
  strings.Contains pb' ">" = false.
Proof.
  intros inp. induction inp as [|[d r] inp IH]; intros clock pb pb' Hpb.
  - simpl. destruct (prompt_deadline <=? clock)%N; simpl;
      intros H; inversion H; subst; assumption.
  - cbn [promptLoop]. destruct (prompt_deadline <=? clock)%N.
    { simpl. intros H; inversion H; subst; assumption. }
    assert (Hskip : forall r0,
      fst (let '(e, ios) := promptLoop inp (clock + d) pb in
           (e, PortRead clock r0 :: ios)) = PromptMissed pb' ->
      strings.Contains pb' ">" = false).
    { intros r0. specialize (IH (clock + d)%N pb pb' Hpb).
      destruct (promptLoop inp (clock + d) pb). exact IH. }
    destruct r as [data | | ]; [| apply Hskip | apply Hskip].
    destruct data as [|b data]; [apply Hskip|].
    destruct (strings.Contains (pb ++ String b "") ">") eqn:Hc; [discriminate|].
    pose proof (promptBytes_missed data (clock + d)%N (pb ++ String b "")) as HB.
    destruct (promptBytes (clock + d) data (pb ++ String b "")) as [be ios].
    simpl in HB. destruct be as [pb1 pending | pb1 | pb1]; simpl.
    + discriminate.
    + intros H; inversion H; subst. apply (HB pb' Hc). left; reflexivity.
    + specialize (IH (clock + d)%N pb1 pb').
      destruct (promptLoop inp (clock + d) pb1). simpl in *.
      apply IH. apply (HB pb1 Hc). right; reflexivity.
Qed.

Lemma responsePieces_reads : forall ps clock rb,
  Forall (fun e => is_port_read e = true) (snd (responsePieces clock ps rb)).
Proof.
  induction ps as [|p ps IH]; intros clock rb; simpl; [constructor|].
  destruct (response_deadline <=? clock)%N; simpl; [constructor|].
  destruct (checkResponse (rb ++ p)); simpl.
  - repeat constructor.
  - specialize (IH clock (rb ++ p)).
    destruct (responsePieces clock ps (rb ++ p)); simpl in *.
    constructor; [reflexivity | exact IH].
Qed.

Lemma responseLoop_reads : forall inp clock rb,
  Forall (fun e => is_port_read e = true) (snd (responseLoop inp clock rb)).
Proof.
  intros inp. induction inp as [|[d r] inp IH]; intros clock rb.
  - simpl. destruct (response_deadline <=? clock)%N; constructor.
  - cbn [responseLoop]. destruct (response_deadline <=? clock)%N; [constructor|].
    assert (Hskip : forall r0,
      Forall (fun e => is_port_read e = true)
        (snd (let '(e, ios) := responseLoop inp (clock + d) rb in
              (e, PortRead clock r0 :: ios)))).
    { intros r0. specialize (IH (clock + d)%N rb).
      destruct (responseLoop inp (clock + d) rb). simpl in *.
      constructor; [reflexivity | exact IH]. }
    destruct r as [data | | ]; [| apply Hskip | apply Hskip].
    destruct data as [|b data]; [apply Hskip|].
    cbv zeta.
    destruct (checkResponse (rb ++ take 128 (String b data))).
    + repeat constructor.
    + pose proof (responsePieces_reads
        (chunks (String.length (String b data)) 128 (drop 128 (String b data)))
        (clock + d)%N (rb ++ take 128 (String b data))) as HP.
      destruct (responsePieces (clock + d)
        (chunks (String.length (String b data)) 128 (drop 128 (String b data)))
        (rb ++ take 128 (String b data))) as [e ios].
      simpl in HP.
      destruct e; try (simpl; constructor; [reflexivity | exact HP]).
      specialize (IH (clock + d)%N responseBuffer).
      destruct (responseLoop inp (clock + d) responseBuffer). simpl in *.
      constructor; [reflexivity|]. apply Forall_app. split; assumption.
Qed.

(** The trace of [SendSMS] between the pause and the resume. *)
Lemma SendSMS_shape : forall s phoneNumber message port,
  let cmd := "AT+CMGS=" ++ quoted phoneNumber in
  exists io,
    snd (SendSMS s phoneNumber message port)
    = (pauseListener s ++ io ++ resumeListener s)%list
    /\ Forall (fun e => is_chan_op e = false) io
    /\ match fst (SendSMS s phoneNumber message port) with
       | None =>
           exists reads1 reads2,
             io = ([Sleep 100; PortWrite (cmd ++ CR) true] ++ reads1
                   ++ [Sleep 100; PortWrite (message ++ CtrlZ) true]
                   ++ reads2)%list
             /\ Forall (fun e => is_read_before prompt_deadline e = true) reads1
             /\ strings.Contains (bytes_read reads1) ">" = true
             /\ Forall (fun e => is_port_read e = true) reads2
       | Some (ErrPromptTimeout got) =>
           exists reads1,
             io = ([Sleep 100; PortWrite (cmd ++ CR) true] ++ reads1)%list
             /\ Forall (fun e => is_read_before prompt_deadline e = true) reads1
             /\ got = bytes_read reads1
             /\ strings.Contains got ">" = false
       | Some _ => True
       end.
Proof.
  intros s phoneNumber message port cmd. unfold SendSMS. fold cmd.
  destruct (cmgs_write_ok port); simpl negb; cbv iota.
  2:{ eexists. split; [reflexivity|]. split; [repeat constructor | exact I]. }
  pose proof (promptLoop_reads (input port) 0%N "") as (P1 & P2 & P3).
  pose proof (promptLoop_missed (input port) 0%N "") as P4.
  destruct (promptLoop (input port) 0 "") as [pe io1]. simpl in P1, P2, P3, P4.
  assert (Hio1 : Forall (fun e => is_chan_op e = false) io1).
  { eapply Forall_impl; [|exact P1]. intros e He.
    apply port_read_no_chan. eapply read_before_is_read; exact He. }
  destruct pe as [pb pending rest | pb].
  - destruct (body_write_ok port); simpl negb; cbv iota.
    2:{ eexists. split; [reflexivity|]. split; [|exact I].
        repeat (apply Forall_app; split); try exact Hio1; repeat constructor. }
    set (r2 := match responsePieces 0 (chunks (String.length pending) 128 pending) "" with
               | (PiecesUsed rb, ios) =>
                   let '(e, ios') := responseLoop rest 0 rb in (e, (ios ++ ios')%list)
               | other => other
               end).
    assert (H2 : Forall (fun e => is_port_read e = true) (snd r2)).
    { subst r2.
      pose proof (responsePieces_reads (chunks (String.length pending) 128 pending)
                    0%N "") as HP.
      destruct (responsePieces 0 (chunks (String.length pending) 128 pending) "")
        as [e ios]. simpl in HP.
      destruct e; try exact HP.
      pose proof (responseLoop_reads rest 0%N responseBuffer) as HL.
      destruct (responseLoop rest 0 responseBuffer). simpl in *.
      apply Forall_app. split; assumption. }
    destruct r2 as [r io2]. simpl in H2.
    eexists. split; [reflexivity|]. split.
    + repeat (apply Forall_app; split); try exact Hio1; repeat constructor.
      eapply Forall_impl; [|exact H2]. intros e He. apply port_read_no_chan, He.
    + simpl in P2. subst pb.
      destruct r; try exact I.
      exists io1, io2. split; [reflexivity|]. split; [exact P1|].
      split; [|exact H2]. apply (P3 _ _ _ eq_refl).
  - eexists. split; [reflexivity|]. split.
    + apply Forall_app; split; [repeat constructor | exact Hio1].
    + exists io1. split; [reflexivity|]. split; [exact P1|].
      simpl in P2. split; [exact P2|]. apply (P4 pb eq_refl eq_refl).
Qed.

Lemma writes_app : forall io1 io2,
  writes (io1 ++ io2) = (writes io1 ++ writes io2)%list.
Proof.
  induction io1 as [|e io1 IH]; intros io2; simpl; [reflexivity|].
  destruct e; simpl; rewrite ?IH; reflexivity.
Qed.

Lemma writes_no_port_write : forall io,
  Forall (fun e => is_port_read e = true \/ is_chan_op e = true) io ->
  writes io = [].
Proof.
  induction 1 as [|e io He _ IH]; simpl; [reflexivity|].
  destruct e; simpl in *; try exact IH; destruct He; discriminate.
Qed.

Lemma pauseListener_chan : forall s,
  Forall (fun e => is_port_read e = true \/ is_chan_op e = true) (pauseListener s).
Proof.
  intros [[]]; unfold pauseListener; simpl;
    repeat (constructor; [right; reflexivity|]); constructor.
Qed.

Lemma resumeListener_chan : forall s,
  Forall (fun e => is_port_read e = true \/ is_chan_op e = true) (resumeListener s).
Proof.
  intros [[]]; unfold resumeListener; simpl;
    repeat (constructor; [right; reflexivity|]); constructor.
Qed.

(** The trace of [sendATCommand]: one write between the pause and the
    resume. *)
Lemma sendATCommand_shape : forall s command port,
  effs (sendATCommand s command port)
  = (pauseListener s ++ [PortWrite (command ++ CRLF) (write_ok port)]
     ++ resumeListener s)%list.
Proof.
  intros s command port. unfold sendATCommand.
  destruct (write_ok port); [|reflexivity].
  destruct (readLines command _ 0 "") as [[[] response] rest]; reflexivity.
Qed.

(** C8. Every call of sendATCommand and of SendSMS made while the listener
    runs pauses it first, resumes it last and touches no channel in between,
    whatever the port does: the resume request is sent exactly once, after
    everything else, on every way out (success, failed write, prompt
    timeout, protocol error, response timeout). *)
Theorem resume_follows_pause_on_every_exit : forall s : SMSHandler,
  listening s = true ->
  (forall command port, exists io,
      effs (sendATCommand s command port)
      = ([ChanSend pauseChan; ChanRecv resumeChan] ++ io
         ++ [ChanSend resumeChan])%list
      /\ Forall (fun e => is_chan_op e = false) io)
  /\ (forall phoneNumber message port, exists io,
      snd (SendSMS s phoneNumber message port)
      = ([ChanSend pauseChan; ChanRecv resumeChan] ++ io
         ++ [ChanSend resumeChan])%list
      /\ Forall (fun e => is_chan_op e = false) io).
Proof.
  intros s Hs. split.
  - intros command port. rewrite sendATCommand_shape.
    unfold pauseListener, resumeListener. rewrite Hs.
    eexists. split; [reflexivity|]. repeat constructor.
  - intros phoneNumber message port.
    destruct (SendSMS_shape s phoneNumber message port) as (io & Hio & Hno & _).
    exists io. split; [|exact Hno]. rewrite Hio.
    unfold pauseListener, resumeListener. rewrite Hs. reflexivity.
Qed.

Lemma resume_follows_pause_witness :
  listening listened = true
  /\ (exists io,
        effs (sendATCommand listened "AT" (port_of [ok_line 5 "OK"]))
        = ([ChanSend pauseChan; ChanRecv resumeChan] ++ io
           ++ [ChanSend resumeChan])%list
        /\ Forall (fun e => is_chan_op e = false) io)
  /\ (exists io,
        snd (SendSMS listened "+1234567890" "hi" (prompt_then "ERROR"))
        = ([ChanSend pauseChan; ChanRecv resumeChan] ++ io
           ++ [ChanSend resumeChan])%list
        /\ Forall (fun e => is_chan_op e = false) io).
Proof.
  split; [reflexivity|]. split.
  - exact (proj1 (resume_follows_pause_on_every_exit listened eq_refl)
             "AT" (port_of [ok_line 5 "OK"])).
  - exact (proj2 (resume_follows_pause_on_every_exit listened eq_refl)
             "+1234567890" "hi" (prompt_then "ERROR")).
Defined.

(** Every way out of [SendSMS] is taken by some port: success, failed first
    write, prompt timeout, failed second write, protocol error, response
    timeout. *)
Lemma SendSMS_exits :
  fst (SendSMS listened "+1" "hi" (prompt_then ("+CMGS: 1" ++ CRLF))) = None
  /\ fst (SendSMS listened "+1" "hi"
            {| cmgs_write_ok := false; body_write_ok := true; input := [] |})
     = Some ErrWriteCMGS
  /\ fst (SendSMS listened "+1" "hi"
            {| cmgs_write_ok := true; body_write_ok := true;
               input := [(10000%N, RdData "x"); (10%N, RdData ">")] |})
     = Some (ErrPromptTimeout "x")
  /\ fst (SendSMS listened "+1" "hi"
            {| cmgs_write_ok := true; body_write_ok := false;
               input := [(100%N, RdData ">")] |})
     = Some ErrSendMessage
  /\ fst (SendSMS listened "+1" "hi" (prompt_then ("+CMS ERROR: 500" ++ CRLF)))
     = Some (ErrSMSFailed (" +CMS ERROR: 500" ++ CRLF))
  /\ fst (SendSMS listened "+1" "hi" (prompt_then "")) = Some ErrSMSTimeout.
Proof. repeat split; vm_compute; reflexivity. Qed.

(** C9. A successful SendSMS writes, in this order and nothing else, the
    command AT+CMGS= with the quoted number followed by the single byte 13,
    and the message followed by the single byte 26; between the two writes
    it only reads, every read is issued less than 10 seconds after the
    polling began, and the bytes read hold the prompt character.  When the
    polling ends without the prompt the call fails with the prompt timeout
    and the message is not written. *)
Theorem SendSMS_writes_after_prompt : forall s phoneNumber message port,
  (fst (SendSMS s phoneNumber message port) = None ->
   exists reads1 reads2,
     snd (SendSMS s phoneNumber message port)
     = (pauseListener s
        ++ [Sleep 100; PortWrite (("AT+CMGS=" ++ quoted phoneNumber) ++ bytes [13]) true]
        ++ reads1
        ++ [Sleep 100; PortWrite (message ++ bytes [26]) true]
        ++ reads2 ++ resumeListener s)%list
     /\ Forall (fun e => is_read_before 10000 e = true) reads1
     /\ strings.Contains (bytes_read reads1) ">" = true
     /\ Forall (fun e => is_port_read e = true) reads2
     /\ writes (snd (SendSMS s phoneNumber message port))
        = [("AT+CMGS=" ++ quoted phoneNumber) ++ bytes [13];
           message ++ bytes [26]])
  /\ (forall got,
        fst (SendSMS s phoneNumber message port) = Some (ErrPromptTimeout got) ->
        strings.Contains got ">" = false
        /\ writes (snd (SendSMS s phoneNumber message port))
           = [("AT+CMGS=" ++ quoted phoneNumber) ++ bytes [13]]).
Proof.
  intros s phoneNumber message port.
  destruct (SendSMS_shape s phoneNumber message port) as (io & Hio & Hno & Hcase).
  assert (Hreads : forall rs, Forall (fun e => is_port_read e = true) rs ->
            writes rs = []).
  { intros rs H. apply writes_no_port_write.
    eapply Forall_impl; [|exact H]. intros e He; left; exact He. }
  assert (Hbefore : forall rs,
            Forall (fun e => is_read_before prompt_deadline e = true) rs ->
            Forall (fun e => is_port_read e = true) rs).
  { intros rs H. eapply Forall_impl; [|exact H].
    intros e He. eapply read_before_is_read; exact He. }
  split.
  - intros Hok. rewrite Hok in Hcase.
    destruct Hcase as (reads1 & reads2 & Hshape & H1 & H2 & H3).
    exists reads1, reads2. rewrite Hio, Hshape.
    split; [now rewrite <- !app_assoc|].
    split; [exact H1|]. split; [exact H2|]. split; [exact H3|].
    rewrite !writes_app, (Hreads reads2 H3), (Hreads reads1 (Hbefore _ H1)).
    rewrite (writes_no_port_write _ (pauseListener_chan s)).
    rewrite (writes_no_port_write _ (resumeListener_chan s)). reflexivity.
  - intros got Hgot. rewrite Hgot in Hcase.
    destruct Hcase as (reads1 & Hshape & H1 & _ & H2).
    split; [exact H2|]. rewrite Hio, Hshape.
    rewrite !writes_app, (Hreads reads1 (Hbefore _ H1)).
    rewrite (writes_no_port_write _ (pauseListener_chan s)).
    rewrite (writes_no_port_write _ (resumeListener_chan s)). reflexivity.
Qed.

Lemma SendSMS_writes_after_prompt_witness :
  fst (SendSMS listened "+1234567890" "hi" (prompt_then ("+CMGS: 1" ++ CRLF ++ "OK" ++ CRLF)))
  = None
  /\ exists reads1 reads2,
     snd (SendSMS listened "+1234567890" "hi"
            (prompt_then ("+CMGS: 1" ++ CRLF ++ "OK" ++ CRLF)))
     = (pauseListener listened
        ++ [Sleep 100; PortWrite (("AT+CMGS=" ++ quoted "+1234567890") ++ bytes [13]) true]
        ++ reads1
        ++ [Sleep 100; PortWrite ("hi" ++ bytes [26]) true]
        ++ reads2 ++ resumeListener listened)%list
     /\ Forall (fun e => is_read_before 10000 e = true) reads1
     /\ strings.Contains (bytes_read reads1) ">" = true
     /\ Forall (fun e => is_port_read e = true) reads2
     /\ writes (snd (SendSMS listened "+1234567890" "hi"
                       (prompt_then ("+CMGS: 1" ++ CRLF ++ "OK" ++ CRLF))))
        = [("AT+CMGS=" ++ quoted "+1234567890") ++ bytes [13]; "hi" ++ bytes [26]].
Proof.
  split; [vm_compute; reflexivity|].
  apply (proj1 (SendSMS_writes_after_prompt listened "+1234567890" "hi"
                  (prompt_then ("+CMGS: 1" ++ CRLF ++ "OK" ++ CRLF)))).
  vm_compute; reflexivity.
Defined.

(** C10. While the listening flag is false, pauseListener and resumeListener
    do nothing, and sendATCommand, SendSMS and the public read, delete and
    query operations perform no channel operation at all. *)
Theorem no_handshake_without_listener : forall s : SMSHandler,
  listening s = false ->
  pauseListener s = [] /\ resumeListener s = []
  /\ (forall command port,
        Forall (fun e => is_chan_op e = false) (effs (sendATCommand s command port)))
  /\ (forall phoneNumber message port,
        Forall (fun e => is_chan_op e = false)
               (snd (SendSMS s phoneNumber message port)))
  /\ (forall port, Forall (fun e => is_chan_op e = false) (snd (ReadSMS s port)))
  /\ (forall port, Forall (fun e => is_chan_op e = false) (snd (ReadNewSMS s port)))
  /\ (forall index port,
        Forall (fun e => is_chan_op e = false) (snd (DeleteSMS s index port)))
  /\ (forall port, Forall (fun e => is_chan_op e = false) (effs (GetModemInfo s port)))
  /\ (forall port,
        Forall (fun e => is_chan_op e = false) (effs (GetSignalStrength s port))).
Proof.
  intros s Hs.
  assert (Hp : pauseListener s = []) by (unfold pauseListener; now rewrite Hs).
  assert (Hr : resumeListener s = []) by (unfold resumeListener; now rewrite Hs).
  assert (Hat : forall command port,
    Forall (fun e => is_chan_op e = false) (effs (sendATCommand s command port))).
  { intros command port. rewrite sendATCommand_shape, Hp, Hr.
    repeat constructor. }
  split; [exact Hp|]. split; [exact Hr|]. split; [exact Hat|].
  split.
  { intros phoneNumber message port.
    destruct (SendSMS_shape s phoneNumber message port) as (io & Hio & Hno & _).
    rewrite Hio, Hp, Hr, app_nil_r. exact Hno. }
  split.
  { intros port. unfold ReadSMS.
    destruct (err (sendATCommand s _ port)); apply Hat. }
  split.
  { intros port. unfold ReadNewSMS.
    destruct (err (sendATCommand s _ port)); apply Hat. }
  split.
  { intros index port. unfold DeleteSMS.
    destruct (err (sendATCommand s _ port)); apply Hat. }
  split; intros port; apply Hat.
Qed.

Lemma no_handshake_without_listener_witness :
  listening NewSMSHandler_handler = false
  /\ pauseListener NewSMSHandler_handler = []
  /\ resumeListener NewSMSHandler_handler = []
  /\ Forall (fun e => is_chan_op e = false)
            (effs (sendATCommand NewSMSHandler_handler "AT" (port_of [ok_line 5 "OK"]))).
Proof.
  split; [reflexivity|].
  pose proof (no_handshake_without_listener NewSMSHandler_handler eq_refl)
    as (Hp & Hr & Hat & _).
  split; [exact Hp|]. split; [exact Hr|]. apply Hat.
Defined.

(** ** Trimming *)

Lemma rev_string_app : forall a b,
  rev_string (a ++ b) = rev_string b ++ rev_string a.
Proof.
  induction a as [|c a IH]; intros b; simpl.
  - symmetry. apply append_empty_r.
  - rewrite IH. symmetry. apply append_assoc.
Qed.

Lemma rev_string_involutive : forall s, rev_string (rev_string s) = s.
Proof.
  induction s as [|c s IH]; simpl; [reflexivity|].
  rewrite rev_string_app, IH. reflexivity.
Qed.

Lemma rev_string_length : forall s,
  String.length (rev_string s) = String.length s.
Proof.
  induction s as [|c s IH]; simpl; [reflexivity|].
  rewrite length_append, IH. simpl. lia.
Qed.

Lemma strip_length : forall p s r,
  strings.strip p s = Some r -> String.length s = String.length p + String.length r.
Proof.
  induction p as [|a p IH]; intros s r H; simpl in *.
  - inversion H; reflexivity.
  - destruct s as [|b s]; [discriminate|].
    destruct (Ascii.eqb a b); [|discriminate].
    simpl. f_equal. apply IH, H.
Qed.

Lemma strip_app : forall p s r w,
  strings.strip p s = Some r -> strings.strip p (s ++ w) = Some (r ++ w).
Proof.
  induction p as [|a p IH]; intros s r w H; simpl in *.
  - inversion H; reflexivity.
  - destruct s as [|b s]; [discriminate|]. simpl.
    destruct (Ascii.eqb a b); [|discriminate]. apply IH, H.
Qed.

Lemma strip_any_none : forall ps s,
  strings.strip_any ps s = None <-> Forall (fun p => strings.strip p s = None) ps.
Proof.
  induction ps as [|p ps IH]; intros s; simpl.
  - split; [constructor | reflexivity].
  - destruct (strings.strip p s) eqn:Hp.
    + split; [discriminate|]. intros H. inversion H; congruence.
    + rewrite IH. split.
      * intros H. constructor; assumption.
      * intros H. inversion H; assumption.
Qed.

Lemma strip_any_shorter : forall ps s r,
  patterns_ok ps = true ->
  strings.strip_any ps s = Some r -> String.length r < String.length s.
Proof.
  induction ps as [|p ps IH]; intros s r Hok H; simpl in *; [discriminate|].
  apply andb_prop in Hok. destruct Hok as [Hp Hps].
  destruct (strings.strip p s) eqn:Hs.
  - inversion H; subst. apply strip_length in Hs.
    destruct p; [discriminate|]. simpl in Hs. lia.
  - apply IH; assumption.
Qed.

Lemma strip_any_empty : forall ps,
  patterns_ok ps = true -> strings.strip_any ps EmptyString = None.
Proof.
  intros ps Hok. destruct (strings.strip_any ps "") eqn:H; [|reflexivity].
  apply strip_any_shorter in H; [simpl in H; lia | exact Hok].
Qed.

Lemma trim_left_fixed : forall ps fuel s,
  strings.strip_any ps s = None -> strings.trim_left ps fuel s = s.
Proof. intros ps [|fuel] s H; simpl; [reflexivity | now rewrite H]. Qed.

Lemma trim_left_step : forall ps fuel s r,
  strings.strip_any ps s = Some r ->
  strings.trim_left ps (S fuel) s = strings.trim_left ps fuel r.
Proof. intros ps fuel s r H. simpl. now rewrite H. Qed.

Lemma trim_left_none : forall ps fuel s,
  patterns_ok ps = true -> String.length s <= fuel ->
  strings.strip_any ps (strings.trim_left ps fuel s) = None.
Proof.
  induction fuel as [|fuel IH]; intros s Hok Hlen; simpl.
  - destruct s; [|simpl in Hlen; lia]. apply strip_any_empty, Hok.
  - destruct (strings.strip_any ps s) eqn:H; [|exact H].
    apply IH; [exact Hok|]. apply strip_any_shorter in H; [lia | exact Hok].
Qed.

Lemma strip_prefix_of : forall p s r, strings.strip p s = Some r -> s = p ++ r.
Proof.
  induction p as [|a p IH]; intros s r H; simpl in *.
  - inversion H; reflexivity.
  - destruct s as [|b s]; [discriminate|].
    destruct (Ascii.eqb_spec a b); [|discriminate]. subst. f_equal. apply IH, H.
Qed.

Lemma strip_any_prefix_of : forall ps s r,
  strings.strip_any ps s = Some r -> exists p, s = p ++ r.
Proof.
  induction ps as [|p ps IH]; intros s r H; simpl in *; [discriminate|].
  destruct (strings.strip p s) eqn:Hs.
  - inversion H; subst. exists p. apply strip_prefix_of, Hs.
  - apply IH, H.
Qed.

Lemma trim_left_suffix : forall ps fuel s,
  exists w, s = w ++ strings.trim_left ps fuel s.
Proof.
  induction fuel as [|fuel IH]; intros s; simpl; [exists ""; reflexivity|].
  destruct (strings.strip_any ps s) eqn:H; [|exists ""; reflexivity].
  destruct (strip_any_prefix_of _ _ _ H) as [p Hp].
  destruct (IH s0) as [w Hw]. exists (p ++ w).
  rewrite <- append_assoc, <- Hw. exact Hp.
Qed.

Lemma strip_any_app_some : forall ps s w,
  strings.strip_any ps s <> None -> strings.strip_any ps (s ++ w) <> None.
Proof.
  intros ps s w H Hn. apply H. rewrite strip_any_none in *.
  eapply Forall_impl; [|exact Hn]. intros p Hp. simpl in Hp.
  destruct (strings.strip p s) eqn:Hs; [|reflexivity].
  rewrite (strip_app _ _ _ w Hs) in Hp. discriminate.
Qed.

Lemma space_runes_ok : patterns_ok strings.space_runes = true.
Proof. vm_compute. reflexivity. Qed.

Lemma rev_space_runes_ok : patterns_ok rev_space_runes = true.
Proof. vm_compute. reflexivity. Qed.

(** A trimmed string neither begins nor ends with white space. *)
Lemma TrimSpace_trimmed : forall raw,
  strings.strip_any strings.space_runes (strings.TrimSpace raw) = None
  /\ strings.strip_any rev_space_runes (rev_string (strings.TrimSpace raw)) = None.
Proof.
  intros raw. unfold strings.TrimSpace, strings.TrimRightSpace.
  set (u := strings.TrimLeftSpace raw). fold rev_space_runes.
  assert (Hu : strings.strip_any strings.space_runes u = None).
  { apply trim_left_none; [apply space_runes_ok | lia]. }
  set (v := strings.trim_left rev_space_runes (String.length u) (rev_string u)).
  assert (Hv : strings.strip_any rev_space_runes v = None).
  { apply trim_left_none; [apply rev_space_runes_ok|].
    rewrite rev_string_length. lia. }
  split; [|rewrite rev_string_involutive; exact Hv].
  destruct (trim_left_suffix rev_space_runes (String.length u) (rev_string u))
    as [w Hw]. fold v in Hw.
  assert (Hsplit : u = rev_string v ++ rev_string w).
  { rewrite <- (rev_string_involutive u), Hw. apply rev_string_app. }
  destruct (strings.strip_any strings.space_runes (rev_string v)) eqn:H;
    [|reflexivity].
  exfalso. apply (strip_any_app_some strings.space_runes (rev_string v)
                    (rev_string w)); [congruence|].
  rewrite <- Hsplit. exact Hu.
Qed.

Lemma strip_before_newline : forall x p w,
  strings.strip p x = None -> strings.mem_ascii LFc p = false ->
  strings.strip p (x ++ String LFc w) = None.
Proof.
  induction x as [|b x IH]; intros p w Hs Hm.
  - destruct p as [|a p]; [discriminate|].
    cbn [strings.strip strings.mem_ascii String.append] in *.
    apply orb_false_elim in Hm. destruct Hm as [Hm _].
    rewrite Ascii.eqb_sym in Hm. now rewrite Hm.
  - destruct p as [|a p]; [discriminate|].
    cbn [strings.strip strings.mem_ascii String.append] in *.
    destruct (Ascii.eqb a b); [|reflexivity].
    apply orb_false_elim in Hm. destruct Hm as [_ Hm]. apply IH; assumption.
Qed.

Lemma strip_any_before_newline : forall ps x w,
  patterns_ok ps = true -> x <> EmptyString ->
  strings.strip_any ps x = None ->
  strings.strip_any ps (x ++ String LFc w) = None.
Proof.
  induction ps as [|p ps IH]; intros x w Hok Hx H; simpl in *; [reflexivity|].
  apply andb_prop in Hok. destruct Hok as [Hp Hps].
  apply andb_prop in Hp. destruct Hp as [Hne Hnl].
  destruct (strings.strip p x) eqn:Hs; [discriminate|].
  rewrite (IH x w Hps Hx H).
  destruct x as [|b x]; [congruence|].
  destruct p as [|a p]; [discriminate|].
  cbn [strings.strip String.append tail_string] in *.
  destruct (Ascii.eqb a b); [|reflexivity].
  rewrite strip_before_newline; [reflexivity | exact Hs |].
  now apply negb_true_iff in Hnl.
Qed.

Lemma accumulate_snoc : forall ls l,
  accumulate (ls ++ [l]) = accumulate ls ++ l ++ LF.
Proof.
  induction ls as [|k ls IH]; intros l; cbn [accumulate List.app String.append].
  - now rewrite append_empty_r.
  - rewrite IH. now rewrite !append_assoc.
Qed.

Lemma accumulate_app : forall l1 l2,
  accumulate (l1 ++ l2) = accumulate l1 ++ accumulate l2.
Proof.
  induction l1 as [|k l1 IH]; intros l2; cbn [accumulate List.app String.append];
    [reflexivity|].
  rewrite IH. now rewrite !append_assoc.
Qed.

Lemma Join_snoc : forall ls l,
  strings.Join (ls ++ [l]) LF = accumulate ls ++ l.
Proof.
  unfold strings.Join.
  induction ls as [|k ls IH]; intros l;
    cbn [accumulate List.app String.append String.concat]; [reflexivity|].
  specialize (IH l). destruct (ls ++ [l])%list eqn:E.
  - destruct ls; discriminate.
  - rewrite IH. now rewrite !append_assoc.
Qed.

Lemma rev_accumulate : forall ls,
  rev_string (accumulate ls) = EmptyString
  \/ exists z, rev_string (accumulate ls) = String LFc z.
Proof.
  intros ls. destruct ls as [|k ls] using rev_ind; [left; reflexivity|].
  right. rewrite accumulate_snoc, append_assoc, rev_string_app. simpl.
  eexists. reflexivity.
Qed.

Lemma accumulate_cons : forall k rest,
  accumulate (k :: rest) = k ++ String LFc (accumulate rest).
Proof. reflexivity. Qed.

Lemma strip_newline : forall z,
  strings.strip_any rev_space_runes (String LFc z) = Some z.
Proof. intros z. vm_compute. reflexivity. Qed.

Lemma TrimRightSpace_line : forall y x,
  x <> EmptyString ->
  strings.strip_any rev_space_runes (rev_string x) = None ->
  (rev_string y = EmptyString \/ exists z, rev_string y = String LFc z) ->
  strings.TrimRightSpace (y ++ x ++ LF) = y ++ x.
Proof.
  intros y x Hne Htrail Hy. unfold strings.TrimRightSpace. fold rev_space_runes.
  assert (Hrev : rev_string (y ++ x ++ LF)
                 = String LFc (rev_string x ++ rev_string y)).
  { rewrite append_assoc, !rev_string_app. reflexivity. }
  assert (Hlen : exists fuel, String.length (y ++ x ++ LF) = S (S fuel)).
  { rewrite !length_append. destruct x; [congruence|].
    exists (String.length y + String.length x). simpl. lia. }
  destruct Hlen as [fuel Hfuel]. rewrite Hrev, Hfuel.
  rewrite (trim_left_step _ _ _ _ (strip_newline _)), trim_left_fixed.
  - rewrite rev_string_app, !rev_string_involutive. reflexivity.
  - destruct Hy as [E | [z E]]; rewrite E.
    + rewrite append_empty_r. exact Htrail.
    + apply strip_any_before_newline; [apply rev_space_runes_ok | | exact Htrail].
      intros E'. apply Hne. rewrite <- (rev_string_involutive x), E'. reflexivity.
Qed.

(** The text the reader goroutine gathers, trimmed, is its lines joined by
    newlines. *)
Lemma TrimSpace_accumulate : forall ls,
  Forall solid ls ->
  strings.TrimSpace (accumulate ls) = strings.Join ls LF.
Proof.
  intros ls Hls. destruct ls as [|l ls _] using rev_ind.
  - vm_compute. reflexivity.
  - assert (Hl : solid l).
    { apply Forall_app in Hls. destruct Hls as [_ Hl]. now inversion Hl. }
    destruct Hl as (Hne & Hlead & Htrail).
    rewrite Join_snoc.
    assert (Hleft : strings.TrimLeftSpace (accumulate (ls ++ [l]))
                    = accumulate (ls ++ [l])).
    { apply trim_left_fixed.
      destruct (ls ++ [l])%list as [|k rest] eqn:E; [destruct ls; discriminate|].
      inversion Hls as [|? ? (Hk1 & Hk2 & _) _]; subst.
      rewrite accumulate_cons.
      apply strip_any_before_newline; [apply space_runes_ok | assumption..]. }
    unfold strings.TrimSpace. rewrite Hleft, accumulate_snoc.
    apply TrimRightSpace_line; [assumption.. | apply rev_accumulate].
Qed.

(** ** The reader loop *)

Lemma kept_app : forall command l1 l2,
  kept command (l1 ++ l2) = (kept command l1 ++ kept command l2)%list.
Proof.
  induction l1 as [|r l1 IH]; intros l2; simpl; [reflexivity|].
  destruct (line_of r) as [l|]; [|apply IH].
  destruct (String.eqb l command || String.eqb l ""); [apply IH|].
  simpl. now rewrite IH.
Qed.

Lemma kept_solid : forall command reads, Forall solid (kept command reads).
Proof.
  induction reads as [|[d [raw|]] reads IH]; simpl; try exact IH; [constructor|].
  unfold line_of; simpl.
  destruct (String.eqb (strings.TrimSpace raw) command); simpl; [exact IH|].
  destruct (String.eqb_spec (strings.TrimSpace raw) ""); [exact IH|].
  constructor; [|exact IH]. split; [assumption | apply TrimSpace_trimmed].
Qed.

Lemma terminal_not_blank : forall r, has_token r = true -> is_blank r = false.
Proof.
  intros [d [raw|]]; unfold has_token, is_blank, line_of; simpl; [|reflexivity].
  destruct (String.eqb_spec (strings.TrimSpace raw) ""); [|reflexivity].
  rewrite e. vm_compute. discriminate.
Qed.

(** What [readLines] returns: the reads split into those used and those
    left, the text is the kept lines of those used, and the last read used
    is the one that stopped the loop. *)
Lemma readLines_spec : forall command reads ce r,
  exists used,
    reads = (used ++ snd (readLines command reads ce r))%list
    /\ snd (fst (readLines command reads ce r))
       = r ++ accumulate (kept command used)
    /\ match fst (fst (readLines command reads ce r)) with
       | Blocked => snd (readLines command reads ce r) = []
       | StopReadFail =>
           exists pre t, used = (pre ++ [t])%list /\ is_ok t = false
       | StopTerminal =>
           exists pre t, used = (pre ++ [t])%list /\ has_token t = true
                         /\ is_echo command t = false
       | StopEmpty =>
           exists pre t, used = (pre ++ [t])%list /\ is_blank t = true
                         /\ is_echo command t = false
       end.
Proof.
  intros command reads. induction reads as [|[d [raw|]] reads IH]; intros ce r.
  - exists []. simpl. rewrite append_empty_r. auto.
  - cbn [readLines].
    destruct (String.eqb (strings.TrimSpace raw) command) eqn:Hecho.
    { destruct (IH ce r) as (used & H1 & H2 & H3).
      exists ((d, ReadOk raw) :: used). split; [simpl; now f_equal|].
      split.
      - rewrite H2. simpl. unfold line_of. simpl. now rewrite Hecho.
      - destruct (fst (fst (readLines command reads ce r))); try exact H3;
          destruct H3 as (pre & t & -> & H3);
          exists ((d, ReadOk raw) :: pre), t; split; auto. }
    destruct (String.eqb (strings.TrimSpace raw) "") eqn:Hblank.
    { destruct (3 <? S ce)%nat eqn:Hce.
      - exists [(d, ReadOk raw)]. simpl. split; [reflexivity|]. split.
        + unfold line_of; simpl. rewrite Hecho, Hblank. simpl.
          now rewrite append_empty_r.
        + exists [], (d, ReadOk raw). split; [reflexivity|].
          unfold is_blank, is_echo, line_of; simpl. auto.
      - destruct (IH (S ce) r) as (used & H1 & H2 & H3).
        exists ((d, ReadOk raw) :: used). split; [simpl; now f_equal|].
        split.
        + rewrite H2. simpl. unfold line_of. simpl.
          now rewrite Hecho, Hblank.
        + destruct (fst (fst (readLines command reads (S ce) r))); try exact H3;
            destruct H3 as (pre & t & -> & H3);
            exists ((d, ReadOk raw) :: pre), t; split; auto. }
    cbv zeta.
    destruct (is_terminal (strings.TrimSpace raw)) eqn:Hterm.
    { exists [(d, ReadOk raw)]. simpl. split; [reflexivity|]. split.
      - unfold line_of; simpl. rewrite Hecho, Hblank. reflexivity.
      - exists [], (d, ReadOk raw). split; [reflexivity|].
        unfold has_token, is_echo, line_of; simpl. auto. }
    destruct (IH 0 (r ++ strings.TrimSpace raw ++ LF)) as (used & H1 & H2 & H3).
    exists ((d, ReadOk raw) :: used). split; [simpl; now f_equal|].
    split.
    + rewrite H2. cbn [kept]. unfold line_of. cbn [snd]. rewrite Hecho, Hblank.
      cbn [orb accumulate]. now rewrite !append_assoc.
    + destruct (fst (fst (readLines command reads 0 _))); try exact H3;
        destruct H3 as (pre & t & -> & H3);
        exists ((d, ReadOk raw) :: pre), t; split; auto.
  - exists [(d, ReadFail)]. simpl. split; [reflexivity|]. split.
    + now rewrite append_empty_r.
    + exists [], (d, ReadFail). split; reflexivity.
Qed.

Lemma readLines_stops_at_terminal : forall command t post,
  has_token t = true -> is_echo command t = false ->
  forall pre ce r,
  length post <= length (snd (readLines command (pre ++ t :: post) ce r)).
Proof.
  intros command t post Ht He pre.
  assert (Hrest : forall reads ce r,
            length (snd (readLines command reads ce r)) <= length reads).
  { intros reads ce r. destruct (readLines_spec command reads ce r) as (u & H & _).
    rewrite H at 2. rewrite length_app. lia. }
  induction pre as [|[d [raw|]] pre IH]; intros ce r.
  - destruct t as [d [raw|]]; [|discriminate].
    pose proof (terminal_not_blank _ Ht) as Hb.
    cbn [app readLines].
    unfold has_token, is_echo, is_blank, line_of in *; simpl in *.
    rewrite He, Hb, Ht. simpl. lia.
  - cbn [app readLines].
    destruct (String.eqb (strings.TrimSpace raw) command); [apply IH|].
    destruct (String.eqb (strings.TrimSpace raw) "").
    { destruct (3 <? S ce)%nat; [|apply IH]. simpl. rewrite length_app. simpl. lia. }
    cbv zeta. destruct (is_terminal (strings.TrimSpace raw)); [|apply IH].
    simpl. rewrite length_app. simpl. lia.
  - simpl. rewrite length_app. simpl. lia.
Qed.

Lemma readLines_stops_at_blanks : forall command b1 b2 b3 b4 post,
  Forall (fun b => is_blank b = true /\ is_echo command b = false) [b1; b2; b3; b4] ->
  forall pre ce r,
  length post
  <= length (snd (readLines command (pre ++ b1 :: b2 :: b3 :: b4 :: post) ce r)).
Proof.
  intros command b1 b2 b3 b4 post Hb pre.
  assert (Hstep : forall b rest ce r,
    is_blank b = true -> is_echo command b = false ->
    readLines command (b :: rest) ce r
    = if (3 <? S ce)%nat then (StopEmpty, r, rest) else readLines command rest (S ce) r).
  { intros [d [raw|]] rest ce r H1 H2; [|discriminate].
    unfold is_blank, is_echo, line_of in *; simpl in *. now rewrite H2, H1. }
  induction pre as [|[d [raw|]] pre IH]; intros ce r.
  - inversion Hb as [|? ? [B1 E1] Hb2]; subst.
    inversion Hb2 as [|? ? [B2 E2] Hb3]; subst.
    inversion Hb3 as [|? ? [B3 E3] Hb4]; subst.
    inversion Hb4 as [|? ? [B4 E4] _]; subst.
    cbn [app]. rewrite (Hstep b1 _ ce r B1 E1).
    destruct (3 <? S ce)%nat; [simpl; lia|].
    rewrite (Hstep b2 _ _ r B2 E2).
    destruct (3 <? S (S ce))%nat; [simpl; lia|].
    rewrite (Hstep b3 _ _ r B3 E3).
    destruct (3 <? S (S (S ce)))%nat; [simpl; lia|].
    rewrite (Hstep b4 _ _ r B4 E4).
    replace (3 <? S (S (S (S ce))))%nat with true
      by (symmetry; apply Nat.ltb_lt; lia).
    simpl. lia.
  - cbn [app readLines].
    destruct (String.eqb (strings.TrimSpace raw) command); [apply IH|].
    destruct (String.eqb (strings.TrimSpace raw) "").
    { destruct (3 <? S ce)%nat; [|apply IH]. simpl. rewrite length_app. simpl. lia. }
    cbv zeta. destruct (is_terminal (strings.TrimSpace raw)); [|apply IH].
    simpl. rewrite length_app. simpl. lia.
  - simpl. rewrite length_app. simpl. lia.
Qed.

Lemma readLines_app : forall command post pre ce r,
  fst (fst (readLines command pre ce r)) = Blocked ->
  readLines command (pre ++ post) ce r
  = readLines command post (blanks_after command pre ce)
      (r ++ accumulate (kept command pre)).
Proof.
  intros command post pre. induction pre as [|[d [raw|]] pre IH]; intros ce r H.
  - simpl. now rewrite append_empty_r.
  - cbn [app readLines blanks_after kept] in *.
    unfold is_echo, is_blank, line_of in *. cbn [snd] in *.
    destruct (String.eqb (strings.TrimSpace raw) command); cbn [orb].
    { apply IH, H. }
    destruct (String.eqb (strings.TrimSpace raw) ""); cbn [orb].
    { destruct (3 <? S ce)%nat; [discriminate|]. apply IH, H. }
    cbv zeta in *. destruct (is_terminal (strings.TrimSpace raw)); [discriminate|].
    rewrite (IH 0 _ H). cbn [accumulate]. now rewrite !append_assoc.
  - discriminate.
Qed.

Lemma count_cons_echo : forall command x b,
  is_echo command x = true ->
  length (filter (fun r => negb (is_echo command r)) (x :: b))
  = length (filter (fun r => negb (is_echo command r)) b).
Proof. intros command x b H. simpl. now rewrite H. Qed.

Lemma count_cons_other : forall command x b,
  is_echo command x = false ->
  length (filter (fun r => negb (is_echo command r)) (x :: b))
  = S (length (filter (fun r => negb (is_echo command r)) b)).
Proof. intros command x b H. simpl. now rewrite H. Qed.

Lemma still_reading_blocked : forall command reads,
  still_reading command reads ->
  fst (fst (readLines command reads 0 EmptyString)) = Blocked.
Proof.
  intros command reads (Hok & Htok & Hrun).
  assert (Hgen : forall reads ce r,
    Forall (fun r => is_ok r = true) reads ->
    Forall (fun r => has_token r = true -> is_echo command r = true) reads ->
    (forall a b c, reads = (a ++ b ++ c)%list ->
       Forall (fun r => is_blank r = true \/ is_echo command r = true) b ->
       length (filter (fun r => negb (is_echo command r)) b) <= 3) ->
    (forall b c, reads = (b ++ c)%list ->
       Forall (fun r => is_blank r = true \/ is_echo command r = true) b ->
       ce + length (filter (fun r => negb (is_echo command r)) b) <= 3) ->
    fst (fst (readLines command reads ce r)) = Blocked).
  { clear. intros reads. induction reads as [|[d [raw|]] reads IH];
      intros ce r Hok Htok Hrun Hcur; [reflexivity| |inversion Hok; discriminate].
    inversion Hok as [|? ? _ Hok']; subst.
    inversion Htok as [|? ? Ht Htok']; subst.
    assert (Hrun' : forall a b c, reads = (a ++ b ++ c)%list ->
       Forall (fun r => is_blank r = true \/ is_echo command r = true) b ->
       length (filter (fun r => negb (is_echo command r)) b) <= 3).
    { intros a b c E. apply (Hrun ((d, ReadOk raw) :: a) b c). now rewrite E. }
    assert (He : is_echo command (d, ReadOk raw)
                 = String.eqb (strings.TrimSpace raw) command) by reflexivity.
    assert (Hb : is_blank (d, ReadOk raw)
                 = String.eqb (strings.TrimSpace raw) "") by reflexivity.
    assert (Hk : has_token (d, ReadOk raw)
                 = is_terminal (strings.TrimSpace raw)) by reflexivity.
    cbn [readLines].
    destruct (String.eqb (strings.TrimSpace raw) command).
    { apply IH; try assumption. intros b c E Hbs.
      rewrite <- (count_cons_echo command (d, ReadOk raw) b He).
      apply (Hcur ((d, ReadOk raw) :: b) c); [now rewrite E|].
      constructor; [right; exact He | exact Hbs]. }
    destruct (String.eqb (strings.TrimSpace raw) "").
    { assert (Hone : S ce <= 3).
      { pose proof (Hcur [(d, ReadOk raw)] reads eq_refl) as H1.
        rewrite (count_cons_other command _ [] He) in H1. simpl in H1.
        rewrite Nat.add_1_r in H1. apply H1.
        constructor; [left; exact Hb | constructor]. }
      replace (3 <? S ce)%nat with false by (symmetry; apply Nat.ltb_ge; lia).
      apply IH; try assumption. intros b c E Hbs.
      pose proof (Hcur ((d, ReadOk raw) :: b) c) as H1.
      rewrite (count_cons_other command _ b He), Nat.add_succ_r in H1.
      apply H1; [now rewrite E|].
      constructor; [left; exact Hb | exact Hbs]. }
    cbv zeta. destruct (is_terminal (strings.TrimSpace raw)).
    { specialize (Ht Hk). congruence. }
    apply IH; try assumption. intros b c E Hbs.
    apply (Hrun' [] b c E Hbs). }
  apply Hgen; try assumption.
  intros b c E Hb. apply (Hrun [] b c E Hb).
Qed.

Lemma blocked_still_reading : forall command reads,
  fst (fst (readLines command reads 0 EmptyString)) = Blocked ->
  still_reading command reads.
Proof.
  intros command reads Hb.
  assert (Hgen : forall reads ce r,
    ce <= 3 ->
    fst (fst (readLines command reads ce r)) = Blocked ->
    Forall (fun r => is_ok r = true) reads
    /\ Forall (fun r => has_token r = true -> is_echo command r = true) reads
    /\ (forall a b c, reads = (a ++ b ++ c)%list ->
          Forall (fun r => is_blank r = true \/ is_echo command r = true) b ->
          length (filter (fun r => negb (is_echo command r)) b) <= 3)
    /\ (forall b c, reads = (b ++ c)%list ->
          Forall (fun r => is_blank r = true \/ is_echo command r = true) b ->
          ce + length (filter (fun r => negb (is_echo command r)) b) <= 3)).
  { clear. intros reads. induction reads as [|[d [raw|]] reads IH];
      intros ce r Hce Hb.
    - split; [constructor|]. split; [constructor|]. split.
      + intros a b c E _. symmetry in E. apply app_eq_nil in E.
        destruct E as [_ E]. apply app_eq_nil in E. destruct E as [-> _].
        simpl. lia.
      + intros b c E _. symmetry in E. apply app_eq_nil in E.
        destruct E as [-> _]. simpl. lia.
    - set (x := (d, ReadOk raw)) in *.
      assert (He : is_echo command x
                   = String.eqb (strings.TrimSpace raw) command) by reflexivity.
      assert (Hk : is_blank x
                   = String.eqb (strings.TrimSpace raw) "") by reflexivity.
      assert (Ht : has_token x
                   = is_terminal (strings.TrimSpace raw)) by reflexivity.
      (* the stretches that begin after [x], from those that begin at [x] *)
      assert (HP : forall ce',
        (forall a b c, reads = (a ++ b ++ c)%list ->
           Forall (fun r => is_blank r = true \/ is_echo command r = true) b ->
           length (filter (fun r => negb (is_echo command r)) b) <= 3) ->
        (forall b c, x :: reads = (b ++ c)%list ->
           Forall (fun r => is_blank r = true \/ is_echo command r = true) b ->
           ce' + length (filter (fun r => negb (is_echo command r)) b) <= 3) ->
        forall a b c, x :: reads = (a ++ b ++ c)%list ->
           Forall (fun r => is_blank r = true \/ is_echo command r = true) b ->
           length (filter (fun r => negb (is_echo command r)) b) <= 3).
      { intros ce' P Q [|y a] b c E Hbs.
        - specialize (Q b c E Hbs). lia.
        - simpl in E. inversion E; subst. apply (P a b c eq_refl Hbs). }
      unfold x in Hb. cbn [readLines] in Hb. fold x in Hb.
      destruct (String.eqb (strings.TrimSpace raw) command).
      + destruct (IH ce r Hce Hb) as (O & T & P & Q).
        assert (Q' : forall b c, x :: reads = (b ++ c)%list ->
           Forall (fun r => is_blank r = true \/ is_echo command r = true) b ->
           ce + length (filter (fun r => negb (is_echo command r)) b) <= 3).
        { intros [|y b] c E Hbs; [simpl; lia|].
          simpl in E. inversion E; subst.
          rewrite (count_cons_echo command x b He).
          apply (Q b c eq_refl). now inversion Hbs. }
        split; [constructor; [reflexivity | exact O]|].
        split; [constructor; [intros _; exact He | exact T]|].
        split; [apply (HP ce P Q') | exact Q'].
      + destruct (String.eqb (strings.TrimSpace raw) "").
        * destruct (3 <? S ce)%nat eqn:Hlt; [discriminate|].
          apply Nat.ltb_ge in Hlt.
          destruct (IH (S ce) r Hlt Hb) as (O & T & P & Q).
          assert (Q' : forall b c, x :: reads = (b ++ c)%list ->
             Forall (fun r => is_blank r = true \/ is_echo command r = true) b ->
             ce + length (filter (fun r => negb (is_echo command r)) b) <= 3).
          { intros [|y b] c E Hbs; [simpl; lia|].
            simpl in E. inversion E; subst.
            rewrite (count_cons_other command x b He), Nat.add_succ_r.
            apply (Q b c eq_refl). now inversion Hbs. }
          split; [constructor; [reflexivity | exact O]|].
          split.
          { constructor; [|exact T]. intros Htok.
            apply terminal_not_blank in Htok. congruence. }
          split; [apply (HP ce P Q') | exact Q'].
        * cbv zeta in Hb.
          destruct (is_terminal (strings.TrimSpace raw)); [discriminate|].
          destruct (IH 0 _ (Nat.le_0_l 3) Hb) as (O & T & P & Q).
          assert (Q' : forall b c, x :: reads = (b ++ c)%list ->
             Forall (fun r => is_blank r = true \/ is_echo command r = true) b ->
             ce + length (filter (fun r => negb (is_echo command r)) b) <= 3).
          { intros [|y b] c E Hbs; [simpl; lia|].
            simpl in E. inversion E; subst.
            inversion Hbs as [|? ? [Hx|Hx] _]; congruence. }
          split; [constructor; [reflexivity | exact O]|].
          split; [constructor; [intros Htok; congruence | exact T]|].
          split; [apply (HP ce P Q') | exact Q'].
    - discriminate. }
  destruct (Hgen reads 0 "" (Nat.le_0_l 3) Hb) as (O & T & P & _).
  split; [exact O|]. split; [exact T | exact P].
Qed.

(** [still_reading] says exactly when the loop has not stopped. *)
Lemma still_reading_iff : forall command reads,
  still_reading command reads
  <-> fst (fst (readLines command reads 0 EmptyString)) = Blocked.
Proof.
  intros command reads. split;
    [apply still_reading_blocked | apply blocked_still_reading].
Qed.

(** Three reads or fewer cannot hold four blank lines. *)
Lemma still_reading_short : forall command reads,
  Forall (fun r => is_ok r = true) reads ->
  Forall (fun r => has_token r = true -> is_echo command r = true) reads ->
  length reads <= 3 ->
  still_reading command reads.
Proof.
  intros command reads Hok Htok Hlen. split; [exact Hok|]. split; [exact Htok|].
  intros a b c E _. rewrite E, !length_app in Hlen.
  pose proof (filter_length_le (fun r => negb (is_echo command r)) b). lia.
Qed.

(** ** The timer *)

Lemma arrived_app : forall deadline tie pre post clock,
  (clock + elapsed pre < deadline)%N ->
  arrived deadline tie clock (pre ++ post)
  = (pre ++ arrived deadline tie (clock + elapsed pre) post)%list.
Proof.
  intros deadline tie pre post. induction pre as [|[d r] pre IH]; intros clock H.
  - simpl. now rewrite N.add_0_r.
  - cbn [app arrived elapsed fold_right fst] in *. fold (elapsed pre) in *.
    replace (clock + d <? deadline)%N with true by (symmetry; apply N.ltb_lt; lia).
    simpl. rewrite IH by lia. now rewrite N.add_assoc.
Qed.

Lemma arrived_all : forall deadline tie reads,
  (elapsed reads < deadline)%N -> arrived deadline tie 0 reads = reads.
Proof.
  intros deadline tie reads H.
  rewrite <- (app_nil_r reads) at 1. rewrite arrived_app by exact H.
  simpl. apply app_nil_r.
Qed.

Lemma arrived_late : forall deadline tie clock d r rest,
  (deadline < clock + d)%N -> arrived deadline tie clock ((d, r) :: rest) = [].
Proof.
  intros deadline tie clock d r rest H. simpl.
  replace (clock + d <? deadline)%N with false by (symmetry; apply N.ltb_ge; lia).
  replace (clock + d =? deadline)%N with false by (symmetry; apply N.eqb_neq; lia).
  now rewrite andb_false_r.
Qed.

Lemma elapsed_app : forall l1 l2, elapsed (l1 ++ l2) = (elapsed l1 + elapsed l2)%N.
Proof.
  induction l1 as [|[d r] l1 IH]; intros l2; simpl; [reflexivity|].
  fold (elapsed (l1 ++ l2)). fold (elapsed l1). rewrite IH. lia.
Qed.

(** ** sendATCommand *)

Lemma TrimSpace_kept : forall command used,
  strings.TrimSpace (EmptyString ++ accumulate (kept command used))
  = strings.Join (kept command used) LF.
Proof. intros. apply TrimSpace_accumulate, kept_solid. Qed.

(** The reader stopped before the timer: no error. *)
Lemma sendATCommand_done : forall s command port stop response rest,
  write_ok port = true ->
  readLines command (arrived command_deadline (done_on_tie port) 0 (lines port))
            0 EmptyString = (stop, response, rest) ->
  stop <> Blocked ->
  resp (sendATCommand s command port) = strings.TrimSpace response
  /\ err (sendATCommand s command port) = None
  /\ ret_at (sendATCommand s command port)
     = (elapsed (arrived command_deadline (done_on_tie port) 0 (lines port))
        - elapsed rest)%N.
Proof.
  intros s command port stop response rest Hw Hr Hs.
  unfold sendATCommand. rewrite Hw, Hr.
  destruct stop; try congruence; simpl; auto.
Qed.

(** The timer fired first: the timeout error, with the text so far. *)
Lemma sendATCommand_timer : forall s command port response rest,
  write_ok port = true ->
  readLines command (arrived command_deadline (done_on_tie port) 0 (lines port))
            0 EmptyString = (Blocked, response, rest) ->
  resp (sendATCommand s command port) = strings.TrimSpace response
  /\ err (sendATCommand s command port) = Some ErrCommandTimeout
  /\ ret_at (sendATCommand s command port) = command_deadline.
Proof.
  intros s command port response rest Hw Hr.
  unfold sendATCommand. rewrite Hw, Hr. simpl. auto.
Qed.

(** C3 (as amended). A failed write makes sendATCommand return at once with
    an error and no text.  A failed read of a response line does not: when
    it comes before the timer fires and before anything stopped the reader,
    sendATCommand returns the lines gathered so far, joined by newlines,
    with a nil error. *)
Theorem write_failure_is_an_error_read_failure_is_not :
  forall s command port,
    (write_ok port = false ->
       err (sendATCommand s command port) = Some ErrWriteCommand
       /\ resp (sendATCommand s command port) = EmptyString
       /\ ret_at (sendATCommand s command port) = 0%N)
    /\ (write_ok port = true ->
        forall pre d post,
          lines port = (pre ++ (d, ReadFail) :: post)%list ->
          still_reading command pre ->
          (elapsed pre + d < command_deadline)%N ->
          err (sendATCommand s command port) = None
          /\ resp (sendATCommand s command port)
             = strings.Join (kept command pre) LF
          /\ ret_at (sendATCommand s command port) = (elapsed pre + d)%N).
Proof.
  intros s command port. split.
  - intros Hw. split; [|split].
    + unfold sendATCommand. now rewrite Hw.
    + unfold sendATCommand. now rewrite Hw.
    + unfold sendATCommand. now rewrite Hw.
  - intros Hw pre d post Hl Hpre Ht.
    set (tie := done_on_tie port).
    set (late := arrived command_deadline tie (elapsed pre + d) post).
    assert (Hgot : arrived command_deadline tie 0 (lines port)
                   = (pre ++ (d, ReadFail) :: late)%list).
    { rewrite Hl, arrived_app by lia. f_equal. simpl.
      replace (elapsed pre + d <? command_deadline)%N with true
        by (symmetry; apply N.ltb_lt; exact Ht).
      reflexivity. }
    assert (Hrun : readLines command (pre ++ (d, ReadFail) :: late) 0 ""
                   = (StopReadFail, "" ++ accumulate (kept command pre), late)).
    { rewrite readLines_app by (apply still_reading_blocked, Hpre). reflexivity. }
    fold tie in Hgot. rewrite <- Hgot in Hrun.
    destruct (sendATCommand_done s command port _ _ _ Hw Hrun) as (H1 & H2 & H3);
      [discriminate|].
    split; [exact H2|]. split.
    + rewrite H1. apply TrimSpace_kept.
    + rewrite H3. fold tie. rewrite Hgot, elapsed_app. simpl.
      fold (elapsed late). lia.
Qed.

Lemma write_failure_is_an_error_witness :
  write_ok {| write_ok := false; lines := []; done_on_tie := true |} = false
  /\ err (sendATCommand listened "AT"
            {| write_ok := false; lines := []; done_on_tie := true |})
     = Some ErrWriteCommand
  /\ lines (port_of [ok_line 5 "AT"; ok_line 5 "+CSQ: 20,0"; (40%N, ReadFail)])
     = ([ok_line 5 "AT"; ok_line 5 "+CSQ: 20,0"] ++ (40%N, ReadFail) :: [])%list
  /\ err (sendATCommand listened "AT"
            (port_of [ok_line 5 "AT"; ok_line 5 "+CSQ: 20,0"; (40%N, ReadFail)]))
     = None.
Proof.
  split; [reflexivity|]. split.
  - apply (proj1 (write_failure_is_an_error_read_failure_is_not listened "AT"
                    {| write_ok := false; lines := []; done_on_tie := true |})).
    reflexivity.
  - split; [reflexivity|].
    apply (proj2 (write_failure_is_an_error_read_failure_is_not listened "AT"
                    (port_of [ok_line 5 "AT"; ok_line 5 "+CSQ: 20,0";
                              (40%N, ReadFail)]))
             eq_refl [ok_line 5 "AT"; ok_line 5 "+CSQ: 20,0"] 40%N [] eq_refl).
    + apply still_reading_short; [repeat constructor | | simpl; lia].
      repeat constructor; vm_compute; discriminate.
    + vm_compute. reflexivity.
Defined.

(** The claim of C3 fails: the read after the echo fails, no terminal token
    was seen, and sendATCommand reports success. *)
Lemma read_failure_returns_nil_error :
  has_token (ok_line 5 "AT") = false
  /\ err (sendATCommand listened "AT" (port_of [ok_line 5 "AT"; (5%N, ReadFail)]))
     = None
  /\ resp (sendATCommand listened "AT" (port_of [ok_line 5 "AT"; (5%N, ReadFail)]))
     = EmptyString.
Proof. vm_compute. repeat split. Qed.

(** C7 (as amended). When the reads that return within 10 seconds all bring
    a line, none of them but an echo holds a terminal token and no stretch
    of them holds more than 3 blank lines, sendATCommand returns 10000 ms
    after it started its timer, with the timeout error and with the lines
    gathered so far joined by newlines. *)
Theorem timeout_after_ten_seconds : forall s command port early late,
  write_ok port = true ->
  lines port = (early ++ late)%list ->
  (elapsed early < command_deadline)%N ->
  (late = []
   \/ exists d r late', late = (d, r) :: late'
                        /\ (command_deadline < elapsed early + d)%N) ->
  still_reading command early ->
  err (sendATCommand s command port) = Some ErrCommandTimeout
  /\ ret_at (sendATCommand s command port) = 10000%N
  /\ resp (sendATCommand s command port) = strings.Join (kept command early) LF.
Proof.
  intros s command port early late Hw Hl He Hlate Hearly.
  assert (Hgot : arrived command_deadline (done_on_tie port) 0 (lines port) = early).
  { rewrite Hl, arrived_app by lia.
    destruct Hlate as [-> | (d & r & late' & -> & Hd)].
    - simpl. apply app_nil_r.
    - rewrite arrived_late by (simpl; exact Hd). apply app_nil_r. }
  destruct (readLines_spec command early 0 "") as (used & H1 & H2 & H3).
  pose proof (still_reading_blocked command early Hearly) as Hb.
  rewrite Hb in H3. rewrite H3, app_nil_r in H1. subst used.
  destruct (readLines command early 0 "") as [[stop response] rest] eqn:Hr.
  simpl in Hb, H2, H3. subst stop rest.
  rewrite <- Hgot in Hr at 1.
  destruct (sendATCommand_timer s command port _ _ Hw Hr) as (R1 & R2 & R3).
  split; [exact R2|]. split; [exact R3|].
  rewrite R1, H2. apply TrimSpace_kept.
Qed.

Lemma timeout_after_ten_seconds_witness :
  err (sendATCommand listened "AT+CSQ"
         (port_of [ok_line 5 "AT+CSQ"; ok_line 5 "+CSQ: 20,0";
                   ok_line 20000 "OK"]))
  = Some ErrCommandTimeout
  /\ ret_at (sendATCommand listened "AT+CSQ"
               (port_of [ok_line 5 "AT+CSQ"; ok_line 5 "+CSQ: 20,0";
                         ok_line 20000 "OK"]))
     = 10000%N
  /\ resp (sendATCommand listened "AT+CSQ"
             (port_of [ok_line 5 "AT+CSQ"; ok_line 5 "+CSQ: 20,0";
                       ok_line 20000 "OK"]))
     = strings.Join (kept "AT+CSQ" [ok_line 5 "AT+CSQ"; ok_line 5 "+CSQ: 20,0"]) LF.
Proof.
  apply (timeout_after_ten_seconds listened "AT+CSQ"
           (port_of [ok_line 5 "AT+CSQ"; ok_line 5 "+CSQ: 20,0"; ok_line 20000 "OK"])
           [ok_line 5 "AT+CSQ"; ok_line 5 "+CSQ: 20,0"] [ok_line 20000 "OK"]).
  - reflexivity.
  - reflexivity.
  - vm_compute. reflexivity.
  - right. exists 20000%N, (ReadOk ("OK" ++ CRLF)), []. split; [reflexivity|].
    vm_compute. reflexivity.
  - apply still_reading_short; [repeat constructor | | simpl; lia].
    repeat constructor; vm_compute; discriminate.
Defined.

(** The claim of C7 fails: no terminal condition is reached, and
    sendATCommand returns after 50 ms, with no error. *)
Lemma read_failure_returns_before_the_timer :
  still_reading "AT+CSQ" [ok_line 5 "AT+CSQ"; ok_line 5 "+CSQ: 20,0"]
  /\ err (sendATCommand listened "AT+CSQ"
            (port_of [ok_line 5 "AT+CSQ"; ok_line 5 "+CSQ: 20,0"; (40%N, ReadFail)]))
     = None
  /\ ret_at (sendATCommand listened "AT+CSQ"
               (port_of [ok_line 5 "AT+CSQ"; ok_line 5 "+CSQ: 20,0"; (40%N, ReadFail)]))
     = 50%N.
Proof.
  split; [|vm_compute; split; reflexivity].
  apply still_reading_short; [repeat constructor | | simpl; lia].
  repeat constructor; vm_compute; discriminate.
Qed.

Lemma kept_snoc_line : forall command pre t l,
  line_of t = Some l -> is_echo command t = false -> is_blank t = false ->
  kept command (pre ++ [t]) = (kept command pre ++ [l])%list.
Proof.
  intros command pre t l Hl He Hb. rewrite kept_app. f_equal. simpl.
  unfold is_echo, is_blank in *. rewrite Hl in *. now rewrite He, Hb.
Qed.

(** C6. Over any sequence of reads, the reader loop of sendATCommand uses a
    prefix of the sequence and leaves the rest unread.
    Its text is made of the trimmed lines of that prefix that are neither
    empty nor equal to the command, each followed by a newline (a line equal
    to the command is an echo and leaves no trace).  The prefix never goes
    past the fourth of four blank lines in a row, and never past a line that
    holds OK, ERROR or +CME ERROR: when nothing stopped the loop before such
    a line the loop stops exactly there, with that line, followed by a
    newline, at the end of the text.  When all the lines arrive within the
    10 seconds, the text returned is these lines joined by newlines. *)
Theorem reader_accumulates_and_stops : forall command reads,
  exists used,
    reads = (used ++ snd (readLines command reads 0 EmptyString))%list
    /\ snd (fst (readLines command reads 0 EmptyString))
       = accumulate (kept command used)
    /\ (forall pre b1 b2 b3 b4 post,
          reads = (pre ++ b1 :: b2 :: b3 :: b4 :: post)%list ->
          Forall (fun b => is_blank b = true /\ is_echo command b = false)
                 [b1; b2; b3; b4] ->
          length used <= length pre + 4)
    /\ (forall pre t post,
          reads = (pre ++ t :: post)%list ->
          has_token t = true -> is_echo command t = false ->
          length used <= length pre + 1
          /\ (still_reading command pre ->
              used = (pre ++ [t])%list
              /\ fst (fst (readLines command reads 0 EmptyString)) = StopTerminal))
    /\ (fst (fst (readLines command reads 0 EmptyString)) = StopTerminal ->
        exists pre t l,
          used = (pre ++ [t])%list /\ line_of t = Some l /\ is_terminal l = true
          /\ snd (fst (readLines command reads 0 EmptyString))
             = accumulate (kept command pre) ++ l ++ LF)
    /\ (forall s tie,
          (elapsed reads < command_deadline)%N ->
          resp (sendATCommand s command
                  {| write_ok := true; lines := reads; done_on_tie := tie |})
          = strings.Join (kept command used) LF).
Proof.
  intros command reads.
  destruct (readLines_spec command reads 0 "") as (used & H1 & H2 & H3).
  exists used. split; [exact H1|]. split; [exact H2|].
  assert (Hlen : length reads
                 = length used + length (snd (readLines command reads 0 ""))).
  { rewrite H1 at 1. apply length_app. }
  split; [|split; [|split]].
  - intros pre b1 b2 b3 b4 post E Hb.
    pose proof (readLines_stops_at_blanks command b1 b2 b3 b4 post Hb pre 0 "") as Hs.
    rewrite <- E in Hs. rewrite E in Hlen at 1.
    rewrite length_app in Hlen. simpl in Hlen. lia.
  - intros pre t post E Ht He. split.
    + pose proof (readLines_stops_at_terminal command t post Ht He pre 0 "") as Hs.
      rewrite <- E in Hs. rewrite E in Hlen at 1.
      rewrite length_app in Hlen. simpl in Hlen. lia.
    + intros Hpre.
      assert (Hrun : readLines command reads 0 ""
                     = (StopTerminal,
                        ("" ++ accumulate (kept command pre))
                        ++ match line_of t with Some l => l | None => "" end ++ LF,
                        post)).
      { rewrite E, readLines_app by (apply still_reading_blocked, Hpre).
        pose proof (terminal_not_blank t Ht) as Hb.
        destruct t as [d [raw|]]; [|discriminate].
        unfold has_token, is_echo, is_blank, line_of in *. simpl in *.
        now rewrite He, Hb, Ht. }
      rewrite Hrun in H1. simpl in H1. split; [|now rewrite Hrun].
      rewrite E in H1.
      change (pre ++ t :: post)%list with (pre ++ [t] ++ post)%list in H1.
      rewrite app_assoc in H1. apply app_inv_tail in H1. now symmetry.
  - intros Hstop. rewrite Hstop in H3.
    destruct H3 as (pre & t & -> & Ht & He).
    pose proof (terminal_not_blank t Ht) as Hb.
    destruct (line_of t) as [l|] eqn:Hl;
      [|unfold has_token in Ht; rewrite Hl in Ht; discriminate].
    exists pre, t, l. split; [reflexivity|]. split; [exact Hl|]. split.
    + unfold has_token in Ht. now rewrite Hl in Ht.
    + rewrite H2, (kept_snoc_line command pre t l Hl He Hb).
      now rewrite accumulate_snoc.
  - intros s tie Ht.
    set (port := {| write_ok := true; lines := reads; done_on_tie := tie |}).
    assert (Hgot : arrived command_deadline (done_on_tie port) 0 (lines port)
                   = reads) by (apply arrived_all, Ht).
    destruct (readLines command reads 0 "") as [[stop response] rest] eqn:Hr.
    simpl in H2. rewrite <- Hgot in Hr at 1.
    assert (Hresp : resp (sendATCommand s command port)
                    = strings.TrimSpace response).
    { destruct stop.
      - apply (sendATCommand_done s command port _ _ _ eq_refl Hr). discriminate.
      - apply (sendATCommand_done s command port _ _ _ eq_refl Hr). discriminate.
      - apply (sendATCommand_done s command port _ _ _ eq_refl Hr). discriminate.
      - apply (sendATCommand_timer s command port _ _ eq_refl Hr). }
    rewrite Hresp, H2. apply TrimSpace_kept.
Qed.

Lemma reader_accumulates_and_stops_witness :
  exists used,
    csq_reads = (used ++ [ok_line 5 "+CMTI: x"])%list
    /\ accumulate (kept "AT+CSQ" used) = "+CSQ: 20,0" ++ LF ++ "OK" ++ LF
    /\ resp (sendATCommand idle "AT+CSQ" (port_of csq_reads))
       = strings.Join (kept "AT+CSQ" used) LF.
Proof.
  destruct (reader_accumulates_and_stops "AT+CSQ" csq_reads)
    as (used & H1 & H2 & _ & _ & _ & H6).
  exists used. split; [exact H1|]. split.
  - rewrite <- H2. vm_compute. reflexivity.
  - apply (H6 idle true). vm_compute. reflexivity.
Defined.

(** For a command that is not empty and holds no terminal token, which is
    the case of every command the handler sends, no blank line and no line
    with a terminal token is an echo. *)
Lemma plain_command_echo : forall command,
  command <> EmptyString -> is_terminal command = false ->
  forall r, (is_blank r = true -> is_echo command r = false)
            /\ (has_token r = true -> is_echo command r = false).
Proof.
  intros command Hne Hterm [d [raw|]]; unfold is_blank, is_echo, has_token, line_of;
    simpl; [|split; reflexivity].
  split; intros H.
  - apply String.eqb_eq in H. rewrite H.
    apply String.eqb_neq. congruence.
  - destruct (String.eqb_spec (strings.TrimSpace raw) command); [|reflexivity].
    congruence.
Qed.

Lemma fixed_commands_plain :
  Forall (fun command => command <> EmptyString /\ is_terminal command = false)
    ["AT"; "AT+CMGF=1"; "AT+CSCS=" ++ quoted "GSM";
     "AT+CPMS=" ++ quoted "SM" ++ "," ++ quoted "SM" ++ "," ++ quoted "SM";
     "AT+CNMI=1,2,0,1,0"; "AT+CNMI=2,1,0,2,0"; "AT+CNMI=1,1,0,1,0";
     "ATI"; "AT+CSQ"; "AT+CMGL=" ++ quoted "ALL";
     "AT+CMGL=" ++ quoted "REC UNREAD"].
Proof. repeat constructor; try discriminate; vm_compute; reflexivity. Qed.

(** The transaction of the handler's first command against a modem that
    answers a blank line and OK. *)
Lemma sendATCommand_AT_OK :
  sendATCommand idle "AT" (port_of [ok_line 1 ""; ok_line 1 "OK"])
  = {| resp := "OK"; err := None; ret_at := 2;
       effs := [PortWrite ("AT" ++ CRLF) true] |}.
Proof. vm_compute. reflexivity. Qed.

(** ** The records handed to a caller *)

Lemma Join_not_empty : forall l ls,
  l <> EmptyString -> strings.Join (l :: ls) LF <> EmptyString.
Proof.
  intros l ls Hl. unfold strings.Join. simpl.
  destruct l as [|c l]; [congruence|].
  destruct ls; simpl; discriminate.
Qed.

Lemma deliver_message : forall sms ml x,
  Forall (fun l => l <> EmptyString) ml ->
  In (Callback x) (deliver sms ml) ->
  (exists l ls, Message x = strings.Join (l :: ls) LF
                /\ Forall (fun l => l <> EmptyString) (l :: ls))
  /\ Sender x = Sender sms /\ Date x = Date sms.
Proof.
  intros sms ml x Hml Hin. unfold deliver in Hin.
  destruct ml as [|l ml]; simpl in Hin; [contradiction|].
  destruct Hin as [Hx|[]]. inversion Hx; subst; simpl.
  split; [|auto]. exists l, ml. split; [reflexivity | exact Hml].
Qed.

Lemma cmtBody_message : forall sms reads clock ml x,
  Forall (fun l => l <> EmptyString) ml ->
  In (Callback x) (cmtBody sms reads clock ml) ->
  (exists l ls, Message x = strings.Join (l :: ls) LF
                /\ Forall (fun l => l <> EmptyString) (l :: ls))
  /\ Sender x = Sender sms /\ Date x = Date sms.
Proof.
  intros sms reads. induction reads as [|[d [raw|]] reads IH];
    intros clock ml x Hml Hin; cbn [cmtBody] in Hin;
    destruct (cmt_deadline <=? clock)%N;
    try (apply (deliver_message sms ml x Hml Hin)).
  - destruct (String.eqb_spec (strings.TrimSpace raw) "") as [Hb|Hb];
      cbn [andb negb] in Hin.
    + destruct (length ml =? 0)%nat eqn:Hlen; [apply (IH _ _ _ Hml Hin)|].
      destruct (_ || _) in Hin; [apply (deliver_message sms ml x Hml Hin)|].
      destruct (0 <? length ml)%nat; [|apply (IH _ _ _ Hml Hin)].
      apply (deliver_message sms ml x Hml). unfold deliver.
      destruct ml; [discriminate Hlen | exact Hin].
    + destruct (_ || _) in Hin; [apply (deliver_message sms ml x Hml Hin)|].
      apply (IH _ _ x) in Hin; [exact Hin|].
      apply Forall_app. split; [exact Hml|]. constructor; [exact Hb | constructor].
  - apply (IH _ _ _ Hml Hin).
Qed.

(** The message [handleCMTMessage] passes on is made of one line or more,
    none empty, joined by newlines; the sender and the date come from the
    first and the third part of the header split on commas. *)
Lemma handleCMTMessage_record : forall line reads sms,
  In (Callback sms) (handleCMTMessage line reads) ->
  (exists l ls, Message sms = strings.Join (l :: ls) LF
                /\ Forall (fun l => l <> EmptyString) (l :: ls))
  /\ Sender sms
     = strings.Trim (drop 6 (nth 0 (strings.Split line ",") "")) dq
  /\ Date sms = strings.Trim (nth 2 (strings.Split line ",") "") dq.
Proof.
  intros line reads sms Hin. unfold handleCMTMessage in Hin.
  destruct (length (strings.Split line ",") <? 3)%nat eqn:Hlen; [contradiction|].
  destruct (6 <? String.length (nth 0 (strings.Split line ",") ""))%nat;
    [|contradiction].
  apply cmtBody_message in Hin; [|constructor].
  destruct Hin as (Hm & Hs & Hd). split; [exact Hm|]. split; [exact Hs|].
  rewrite Hd. cbn [Date].
  apply Nat.ltb_ge in Hlen. apply Nat.leb_le in Hlen. now rewrite Hlen.
Qed.

(** C4 (as amended). A record passed to the callback for a [+CMT:]
    notification has a message that is not empty: its lines are trimmed lines
    that are not empty, joined by newlines.  (Nothing is checked about the
    sender, and nothing at all about the records read from storage.) *)
Theorem cmt_record_has_a_message : forall line reads sms,
  In (Callback sms) (handleCMTMessage line reads) ->
  Message sms <> EmptyString.
Proof.
  intros line reads sms Hin.
  destruct (handleCMTMessage_record line reads sms Hin) as ((l & ls & -> & Hl) & _).
  apply Join_not_empty. now inversion Hl.
Qed.

Lemma cmt_record_has_a_message_witness :
  In (Callback {| Index := 0; Status := ""; Sender := "+1234567890";
                  Date := "24/01/15"; Message := "Hello" |})
     (handleCMTMessage cmt_header cmt_body)
  /\ Message {| Index := 0; Status := ""; Sender := "+1234567890";
                Date := "24/01/15"; Message := "Hello" |} <> EmptyString.
Proof.
  assert (H : In (Callback {| Index := 0; Status := ""; Sender := "+1234567890";
                              Date := "24/01/15"; Message := "Hello" |})
                 (handleCMTMessage cmt_header cmt_body))
    by (vm_compute; left; reflexivity).
  split; [exact H|].
  exact (cmt_record_has_a_message cmt_header cmt_body _ H).
Defined.

(** The same through the listener's dispatch: a line that begins with
    [+CMT:] does not begin with [+CMTI:], so its callbacks are those of
    [handleCMTMessage]. *)
Lemma listenLine_cmt_message : forall s raw body port sms,
  strings.HasPrefix (strings.TrimSpace raw) "+CMT:" = true ->
  In (Callback sms) (fst (listenLine s raw body port)) ->
  Message sms <> EmptyString.
Proof.
  intros s raw body port sms Hp Hin. unfold listenLine in Hin.
  destruct (String.eqb (strings.TrimSpace raw) ""); [contradiction|].
  destruct (isATResponse (strings.TrimSpace raw)); [contradiction|].
  rewrite Hp in Hin.
  assert (Hn : strings.HasPrefix (strings.TrimSpace raw) "+CMTI:" = false).
  { unfold strings.HasPrefix in *.
    destruct (strings.strip "+CMT:" (strings.TrimSpace raw)) eqn:E; [|discriminate].
    apply strip_prefix_of in E. rewrite E. reflexivity. }
  rewrite Hn in Hin. simpl in Hin. rewrite app_nil_r in Hin.
  destruct (handleCMTMessage_record _ _ _ Hin) as ((l & ls & -> & Hl) & _).
  apply Join_not_empty. now inversion Hl.
Qed.

(** The claim of C4 fails: ReadSMS returns, with no error, a record whose
    sender and message are both empty (the header is the last line the
    reader got), and a [+CMT:] record may have an empty sender. *)
Lemma records_with_empty_sender_and_message :
  ReadSMS idle (port_of [ok_line 5 cmgl_empty; (5%N, ReadFail)])
  = ([{| Index := 1; Status := "REC UNREAD"; Sender := ""; Date := "";
         Message := "" |}], None,
     [PortWrite (("AT+CMGL=" ++ quoted "ALL") ++ CRLF) true])
  /\ fst (readSMSByIndex idle 1
            (port_of [ok_line 5 ("+CMGR: " ++ quoted "REC UNREAD" ++ ",,");
                      (5%N, ReadFail)]))
     = Ret {| Index := 1; Status := "REC UNREAD"; Sender := ""; Date := "";
              Message := "" |}
  /\ callbacks (handleCMTMessage ("+CMT: " ++ quoted "" ++ ",,") cmt_body)
     = [{| Index := 0; Status := ""; Sender := ""; Date := "";
           Message := "Hello" |}].
Proof. vm_compute. repeat split. Qed.

(** A [+CMT:] notification calls the callback at most once. *)
Lemma handleCMTMessage_at_most_once : forall line reads,
  length (handleCMTMessage line reads) <= 1.
Proof.
  assert (Hd : forall sms ml, length (deliver sms ml) <= 1).
  { intros sms ml. unfold deliver. destruct (0 <? length ml)%nat; simpl; lia. }
  assert (Hb : forall sms reads clock ml, length (cmtBody sms reads clock ml) <= 1).
  { intros sms reads. induction reads as [|[d [raw|]] reads IH]; intros clock ml;
      cbn [cmtBody]; destruct (cmt_deadline <=? clock)%N; try apply Hd; try apply IH.
    destruct (_ && _); [apply IH|].
    destruct (_ || _); [apply Hd|].
    destruct (negb _); [apply IH|].
    destruct (0 <? length ml)%nat; [simpl; lia | apply IH]. }
  intros line reads. unfold handleCMTMessage.
  destruct (length _ <? 3)%nat; [simpl; lia|].
  destruct (6 <? _)%nat; [apply Hb | simpl; lia].
Qed.

(** ** The parsers and the quoted fields *)

(** C1. The header of the test file, with its date in quotes and a comma in
    the date: [splitRespectingQuotes] keeps the date whole and the header
    parser of the test file returns it, while the split on commas of
    [readSMSByIndex], [parseSMSList] and [handleCMTMessage] cuts it in two,
    and the three return an empty or a cut date. *)
Theorem comma_in_quotes_splits_the_field :
  splitRespectingQuotes (strings.TrimSpace (strings.TrimPrefix header4 "+CMGR:")) ","
  = [quoted "REC READ"; quoted "+1234567890"; quoted "";
     quoted "24/01/15,10:30:45+00"]
  /\ Date (fst (parseSMSHeader header4)) = "24/01/15,10:30:45+00"
  /\ strings.Split header4 ","
     = ["+CMGR: " ++ quoted "REC READ"; quoted "+1234567890"; quoted "";
        String dquote "24/01/15"; "10:30:45+00" ++ dq]
  /\ fst (readSMSByIndex idle 3
            (port_of [ok_line 5 header4; ok_line 5 "Hello"; ok_line 5 "OK"]))
     = Ret {| Index := 3; Status := "REC READ"; Sender := "+1234567890";
              Date := ""; Message := "Hello" |}
  /\ parseSMSList
       ("+CMGL: 1," ++ quoted "REC READ" ++ "," ++ quoted "+1234567890" ++ ","
        ++ quoted "" ++ "," ++ quoted "24/01/15,10:30:45+00" ++ LF ++ "Hello"
        ++ LF ++ "OK")
     = [{| Index := 1; Status := "REC READ"; Sender := "+1234567890";
           Date := ""; Message := "Hello" |}]
  /\ callbacks (handleCMTMessage cmt_header cmt_body)
     = [{| Index := 0; Status := ""; Sender := "+1234567890";
           Date := "24/01/15"; Message := "Hello" |}].
Proof. vm_compute. repeat split. Qed.

(** C5. On a header of four fields, none with a comma inside,
    [parseSMSHeader] takes the date from the fourth field and
    [readSMSByIndex] takes it from the third, the name. *)
Theorem readSMSByIndex_takes_the_third_field :
  strings.Split header_named ","
  = ["+CMGR: " ++ quoted "REC UNREAD"; quoted "+9876543210"; quoted "John Doe";
     quoted "24/01/15 14:20:30"]
  /\ parseSMSHeader header_named
     = ({| Index := 0; Status := "REC UNREAD"; Sender := "+9876543210";
           Date := "24/01/15 14:20:30"; Message := "" |}, None)
  /\ fst (readSMSByIndex idle 2
            (port_of [ok_line 5 header_named; ok_line 5 "Hi"; ok_line 5 "OK"]))
     = Ret {| Index := 2; Status := "REC UNREAD"; Sender := "+9876543210";
              Date := "John Doe"; Message := "Hi" |}.
Proof. vm_compute. repeat split. Qed.

(** What the header parser of the test file does with the date: the fourth
    field when there are four or more, the third when there are three. *)
Lemma parseSMSHeader_date : forall header,
  strings.Contains header "+CMGR:" = true ->
  let parts := splitRespectingQuotes
                 (strings.TrimSpace (strings.TrimPrefix header "+CMGR:")) "," in
  (4 <= length parts ->
     snd (parseSMSHeader header) = None
     /\ Date (fst (parseSMSHeader header)) = strings.Trim (nth 3 parts "") dq)
  /\ (length parts = 3 ->
     snd (parseSMSHeader header) = None
     /\ Date (fst (parseSMSHeader header)) = strings.Trim (nth 2 parts "") dq).
Proof.
  intros header Hc parts. unfold parseSMSHeader. rewrite Hc. simpl negb.
  cbv iota. fold parts. split; intros Hlen.
  - replace (length parts <? 2)%nat with false by (symmetry; apply Nat.ltb_ge; lia).
    replace (4 <=? length parts)%nat with true by (symmetry; apply Nat.leb_le; lia).
    split; reflexivity.
  - rewrite Hlen. split; reflexivity.
Qed.

(** The record [readSMSByIndex] builds from the first header line it
    accepts: whatever the number of fields, its date is the third part of the
    line split on commas. *)
Lemma findCMGR_date : forall index l rest sms,
  strings.HasPrefix (strings.TrimSpace l) "+CMGR:" = true ->
  3 <= length (strings.Split (strings.TrimSpace l) ",") ->
  findCMGR index (l :: rest) = Ret sms ->
  Date sms = strings.Trim (nth 2 (strings.Split (strings.TrimSpace l) ",") "") dq
  /\ Sender sms
     = strings.Trim (nth 1 (strings.Split (strings.TrimSpace l) ",") "") dq
  /\ Index sms = index.
Proof.
  intros index l rest sms Hp Hlen H. cbn [findCMGR] in H. rewrite Hp in H.
  replace (3 <=? length (strings.Split (strings.TrimSpace l) ","))%nat with true in H
    by (symmetry; apply Nat.leb_le; exact Hlen).
  destruct (slice_from 7 _); [|discriminate].
  inversion H; subst; simpl. auto.
Qed.

(** A header without [+CMGR:], or with fewer than two fields after it, is
    refused by the header parser of the test file. *)
Lemma parseSMSHeader_fails : forall header,
  (strings.Contains header "+CMGR:" = false ->
     snd (parseSMSHeader header) = Some ErrInvalidHeader)
  /\ (strings.Contains header "+CMGR:" = true ->
      length (splitRespectingQuotes
                (strings.TrimSpace (strings.TrimPrefix header "+CMGR:")) ",") < 2 ->
      snd (parseSMSHeader header) = Some ErrInsufficientFields).
Proof.
  intros header. unfold parseSMSHeader. split.
  - intros H. now rewrite H.
  - intros H Hlen. rewrite H. simpl negb. cbv iota.
    replace (length _ <? 2)%nat with true by (symmetry; apply Nat.ltb_lt; exact Hlen).
    reflexivity.
Qed.

(** ** The listener and the nested transaction *)

Lemma cmti_line_facts : forall r,
  String.eqb ("+CMTI:" ++ r) EmptyString = false
  /\ isATResponse ("+CMTI:" ++ r) = false
  /\ strings.HasPrefix ("+CMTI:" ++ r) "+CMT:" = false
  /\ strings.HasPrefix ("+CMTI:" ++ r) "+CMTI:" = true.
Proof. intros r. vm_compute. repeat split. Qed.

(** What the listener does with a stored-message notification of two fields
    or more: it begins the nested transaction, whose first effect is the
    send on [pauseChan]. *)
Lemma listenLine_cmti_pauses : forall s raw body port,
  listening s = true ->
  strings.HasPrefix (strings.TrimSpace raw) "+CMTI:" = true ->
  2 <= length (strings.Split (strings.TrimSpace raw) ",") ->
  exists todo,
    fst (listenLine s raw body port) = ChanSend pauseChan :: todo.
Proof.
  intros s raw body port Hs Hp Hparts. unfold listenLine.
  unfold strings.HasPrefix in Hp.
  destruct (strings.strip "+CMTI:" (strings.TrimSpace raw)) as [r|] eqn:E;
    [|discriminate].
  apply strip_prefix_of in E.
  destruct (cmti_line_facts r) as (F1 & F2 & F3 & F4).
  rewrite E in *. rewrite F1, F2, F3, F4.
  unfold handleCMTIMessage.
  replace (2 <=? length (strings.Split ("+CMTI:" ++ r) ","))%nat with true
    by (symmetry; apply Nat.leb_le; exact Hparts).
  unfold readSMSByIndex.
  set (r0 := sendATCommand s _ port).
  assert (Hio : exists todo, effs r0 = ChanSend pauseChan :: todo).
  { subst r0. rewrite sendATCommand_shape. unfold pauseListener. rewrite Hs.
    eexists. reflexivity. }
  destruct Hio as [todo Hio].
  destruct (err r0); [|destruct (findCMGR _ _)]; simpl; rewrite Hio;
    eexists; reflexivity.
Qed.

Lemma set_nth_Forall : forall (A : Type) (P : A -> Prop) i x l,
  Forall P l -> P x -> Forall P (set_nth i x l).
Proof.
  intros A P i x l Hl Hx. revert i. induction Hl as [|h t Hh Ht IH]; intros i.
  - destruct i; constructor.
  - destruct i; simpl; constructor; auto.
Qed.

Lemma nth_error_tail_never_recv : forall cs i e todo,
  Forall never_recv_pause cs ->
  nth_error cs i = Some (e :: todo) ->
  e <> ChanRecv pauseChan /\ never_recv_pause todo.
Proof.
  intros cs i e todo Hcs Hn. apply nth_error_In in Hn.
  rewrite Forall_forall in Hcs. specialize (Hcs _ Hn).
  inversion Hcs; subst. split; assumption.
Qed.

Lemma nested_pause_step : forall todo p cs sys,
  Forall never_recv_pause cs ->
  step (Handling (ChanSend pauseChan :: todo) p, cs) sys ->
  fst sys = Handling (ChanSend pauseChan :: todo) p
  /\ Forall never_recv_pause (snd sys).
Proof.
  intros todo p cs sys Hcs Hstep. inversion Hstep; subst; simpl;
    repeat match goal with
    | H : is_chan_op (ChanSend _) = false |- _ => discriminate H
    | H : listener_recv (Handling _ _) = Some _ |- _ => discriminate H
    | H : listener_send (Handling _ _) = Some _ |- _ =>
        simpl in H; inversion H; subst; clear H
    | H : nth_error cs _ = Some (_ :: _) |- _ =>
        apply (nth_error_tail_never_recv _ _ _ _ Hcs) in H; destruct H
    end;
    try congruence;
    (split; [reflexivity|]);
    repeat apply set_nth_Forall; assumption.
Qed.

Lemma nested_pause_steps : forall sys0 sys,
  steps sys0 sys ->
  forall todo p cs,
    sys0 = (Handling (ChanSend pauseChan :: todo) p, cs) ->
    Forall never_recv_pause cs ->
    fst sys = Handling (ChanSend pauseChan :: todo) p.
Proof.
  induction 1 as [sys|sys1 sys2 sys3 Hstep _ IH]; intros todo p cs -> Hcs.
  - reflexivity.
  - destruct (nested_pause_step _ _ _ _ Hcs Hstep) as [H1 H2].
    destruct sys2 as [l2 cs2]. simpl in *. subst l2.
    apply (IH todo p cs2 eq_refl H2).
Qed.

(** The callers' goroutines never receive from [pauseChan]. *)
Lemma sendATCommand_never_recv_pause : forall s command port,
  never_recv_pause (effs (sendATCommand s command port)).
Proof.
  intros s command port. rewrite sendATCommand_shape.
  unfold never_recv_pause, pauseListener, resumeListener.
  destruct (listening s); repeat constructor; discriminate.
Qed.

Lemma SendSMS_never_recv_pause : forall s phoneNumber message port,
  never_recv_pause (snd (SendSMS s phoneNumber message port)).
Proof.
  intros s phoneNumber message port.
  destruct (SendSMS_shape s phoneNumber message port) as (io & Hio & Hno & _).
  rewrite Hio. unfold never_recv_pause.
  repeat (apply Forall_app; split).
  - unfold pauseListener. destruct (listening s); repeat constructor; discriminate.
  - eapply Forall_impl; [|exact Hno]. intros e He E. subst e. discriminate.
  - unfold resumeListener. destruct (listening s); repeat constructor; discriminate.
Qed.

(** C2. When the listener goroutine reads a stored-message notification and
    runs the nested transaction itself, it stays for ever in front of its
    first effect, the send on [pauseChan]: whatever the other goroutines
    (which never receive from that channel) do, no run of the system moves
    the listener, and with no other goroutine the system cannot move at all.
    The pause request of the nested transaction is never acknowledged. *)
Theorem nested_pause_is_never_acknowledged : forall s raw body port callers sys,
  listening s = true ->
  strings.HasPrefix (strings.TrimSpace raw) "+CMTI:" = true ->
  2 <= length (strings.Split (strings.TrimSpace raw) ",") ->
  Forall never_recv_pause callers ->
  steps (Handling (fst (listenLine s raw body port))
                  (snd (listenLine s raw body port)), callers) sys ->
  (exists todo, fst (listenLine s raw body port) = ChanSend pauseChan :: todo)
  /\ fst sys = Handling (fst (listenLine s raw body port))
                        (snd (listenLine s raw body port))
  /\ (callers = [] -> forall sys', ~ step sys sys').
Proof.
  intros s raw body port callers sys Hs Hp Hparts Hcs Hrun.
  destruct (listenLine_cmti_pauses s raw body port Hs Hp Hparts) as [todo Htodo].
  split; [exists todo; exact Htodo|].
  rewrite Htodo in *.
  pose proof (nested_pause_steps _ _ Hrun todo _ callers eq_refl Hcs) as Hl.
  split; [exact Hl|].
  intros -> sys' Hstep.
  assert (Hsys : sys = (Handling (ChanSend pauseChan :: todo)
                          (snd (listenLine s raw body port)), [])).
  { inversion Hrun as [|? sys2 ? Hfirst _]; subst; [reflexivity|].
    exfalso. inversion Hfirst; subst;
      try discriminate;
      match goal with
      | H : nth_error [] ?i = Some _ |- _ => destruct i; discriminate H
      end. }
  subst sys. inversion Hstep; subst;
    try discriminate;
    match goal with
    | H : nth_error [] ?i = Some _ |- _ => destruct i; discriminate H
    end.
Qed.

Lemma nested_pause_witness :
  listening listened = true
  /\ fst (listenLine listened (cmti_line ++ CRLF) [] cmgr_port)
     = [ChanSend pauseChan; ChanRecv resumeChan;
        PortWrite ("AT+CMGR=3" ++ CRLF) true; ChanSend resumeChan;
        Callback {| Index := 3; Status := "REC READ"; Sender := "+1234567890";
                    Date := ""; Message := "Hello" |}]
  /\ forall sys',
       ~ step (Handling (fst (listenLine listened (cmti_line ++ CRLF) [] cmgr_port))
                        (snd (listenLine listened (cmti_line ++ CRLF) [] cmgr_port)),
               []) sys'.
Proof.
  split; [reflexivity|]. split; [vm_compute; reflexivity|].
  refine (proj2 (proj2 (nested_pause_is_never_acknowledged
            listened (cmti_line ++ CRLF) [] cmgr_port [] _
            eq_refl _ _ (Forall_nil _) (steps_refl _))) eq_refl).
  - vm_compute. reflexivity.
  - vm_compute. lia.
Defined.

(** With a second goroutine the handshake goes through: the listener, at its
    select, and one caller running a transaction reach the end of the
    transaction, the listener back at its select. *)
Lemma handshake_with_a_caller : forall command port,
  steps (AtSelect, [effs (sendATCommand listened command port)])
        (AtSelect, [[]]).
Proof.
  intros command port. rewrite sendATCommand_shape.
  change (pauseListener listened) with [ChanSend pauseChan; ChanRecv resumeChan].
  change (resumeListener listened) with [ChanSend resumeChan].
  cbn [app].
  eapply steps_step.
  { eapply step_listener_recv with (i := 0); reflexivity. }
  eapply steps_step.
  { eapply step_listener_send with (i := 0); reflexivity. }
  eapply steps_step.
  { eapply step_caller with (i := 0); reflexivity. }
  eapply steps_step.
  { eapply step_listener_recv with (i := 0); reflexivity. }
  apply steps_refl.
Qed.

(** ** The quote-aware split *)

Lemma rune_width_ascii : forall c s, is_ascii c = true -> rune_width (String c s) = 1.
Proof. intros c s H. unfold rune_width. unfold is_ascii in H. now rewrite H. Qed.

Lemma splitLoop_inside_quotes : forall sep x rest current parts,
  plain_field x = true ->
  splitLoop sep (x ++ rest) 0 true current parts
  = splitLoop sep rest 0 true (current ++ x) parts.
Proof.
  intros sep x. induction x as [|c x IH]; intros rest current parts Hx.
  - simpl. now rewrite append_empty_r.
  - simpl in Hx. apply andb_prop in Hx. destruct Hx as [Hc Hx].
    apply andb_prop in Hc. destruct Hc as [Ha Hq].
    apply negb_true_iff in Hq.
    change (String c x ++ rest) with (String c (x ++ rest)).
    cbn [splitLoop]. rewrite (rune_width_ascii c _ Ha), Hq.
    rewrite andb_false_r, IH by exact Hx.
    f_equal. rewrite <- append_assoc. reflexivity.
Qed.

(** One quoted field, whatever commas it holds, is read whole up to its
    closing quote. *)
Lemma splitLoop_quoted : forall x rest current parts,
  plain_field x = true ->
  splitLoop "," (quoted x ++ rest) 0 false current parts
  = splitLoop "," rest 0 false (current ++ quoted x) parts.
Proof.
  intros x rest current parts Hx. unfold quoted.
  change (String dquote (x ++ String dquote "") ++ rest)
    with (String dquote ((x ++ String dquote "") ++ rest)).
  cbn [splitLoop].
  replace (rune_width (String dquote ((x ++ String dquote "") ++ rest))) with 1
    by reflexivity.
  replace (Ascii.eqb dquote dquote) with true by reflexivity.
  replace (Ascii.eqb dquote ",") with false by reflexivity.
  cbn [negb andb]. rewrite <- append_assoc.
  rewrite splitLoop_inside_quotes by exact Hx.
  change (String dquote "" ++ rest) with (String dquote rest).
  cbn [splitLoop].
  replace (rune_width (String dquote rest)) with 1 by reflexivity.
  replace (Ascii.eqb dquote dquote) with true by reflexivity.
  replace (Ascii.eqb dquote ",") with false by reflexivity.
  cbn [negb andb]. f_equal.
  rewrite <- !append_assoc. reflexivity.
Qed.

(** Quoted fields joined by commas are split at the commas between them and
    nowhere else: a comma inside a quoted field is no boundary for
    [splitRespectingQuotes]. *)
Lemma splitRespectingQuotes_quoted_fields : forall xs x,
  forallb plain_field (x :: xs) = true ->
  splitRespectingQuotes (strings.Join (map quoted (x :: xs)) ",") ","
  = map quoted (x :: xs).
Proof.
  intros xs x H. unfold splitRespectingQuotes.
  assert (Hcons : forall a b l,
            strings.Join (a :: b :: l) ","
            = a ++ String "," (strings.Join (b :: l) ",")) by reflexivity.
  assert (Hcomma : forall rest current parts,
            splitLoop "," (String "," rest) 0 false current parts
            = splitLoop "," rest 0 false "" (parts ++ [current])) by reflexivity.
  assert (Hgen : forall xs x parts,
    forallb plain_field (x :: xs) = true ->
    splitLoop "," (strings.Join (map quoted (x :: xs)) ",") 0 false "" parts
    = (parts ++ map quoted (x :: xs))%list).
  { clear - Hcons Hcomma. induction xs as [|y xs IH]; intros x parts H;
      cbn [forallb] in H; apply andb_prop in H; destruct H as [Hx Hxs].
    - change (strings.Join (map quoted [x]) ",") with (quoted x).
      rewrite <- (append_empty_r (quoted x)) at 1.
      rewrite splitLoop_quoted by exact Hx. reflexivity.
    - cbn [map]. rewrite Hcons, splitLoop_quoted by exact Hx.
      rewrite Hcomma. change (quoted y :: map quoted xs) with (map quoted (y :: xs)).
      rewrite (IH y _ Hxs). rewrite <- app_assoc. reflexivity. }
  apply (Hgen xs x [] H).
Qed.

(** The spec's own example. *)
Lemma quoted_comma_stays_one_field :
  splitRespectingQuotes (quoted "a,b") "," = [quoted "a,b"]
  /\ strings.Split (quoted "a,b") "," = [String dquote "a"; "b" ++ dq].
Proof. vm_compute. split; reflexivity. Qed.

(** ** The reads of a batch *)

Lemma take_drop : forall n s, take n s ++ drop n s = s.
Proof.
  induction n as [|n IH]; intros s; [reflexivity|].
  destruct s as [|c s]; [reflexivity|]. simpl. now rewrite IH.
Qed.

Lemma drop_length : forall n s,
  String.length (drop n s) = String.length s - n.
Proof.
  induction n as [|n IH]; intros s; simpl; [lia|].
  destruct s as [|c s]; [reflexivity|]. simpl. apply IH.
Qed.

(** The fuel of [chunks] is enough: the reads bring the whole batch. *)
Lemma chunks_concat : forall fuel size data,
  0 < size -> String.length data <= fuel ->
  String.concat EmptyString (chunks fuel size data) = data.
Proof.
  assert (Hcat : forall p ps,
            String.concat "" (p :: ps) = p ++ String.concat "" ps).
  { intros p [|q ps]; simpl; [now rewrite append_empty_r | reflexivity]. }
  induction fuel as [|fuel IH]; intros size data Hs Hlen.
  - destruct data; [reflexivity | simpl in Hlen; lia].
  - cbn [chunks]. destruct data as [|c data]; [reflexivity|].
    rewrite Hcat, IH; [apply take_drop | exact Hs |].
    rewrite drop_length. cbn [String.length] in *. lia.
Qed.

(** ** readUntilAny *)

Lemma free_of_app : forall set a b,
  free_of set (a ++ b) = free_of set a && free_of set b.
Proof.
  induction a as [|c a IH]; intros b; simpl; [reflexivity|].
  rewrite IH. now rewrite andb_assoc.
Qed.

Lemma readUntilAnyLoop_spec : forall r delimiters result,
  free_of delimiters result = true ->
  match readUntilAnyLoop r delimiters result with
  | (text, b, failed, rest) =>
      result ++ r = text ++ rest
      /\ (failed = true ->
          rest = EmptyString /\ b = zero /\ free_of delimiters text = true)
      /\ (failed = false ->
          exists pre, text = pre ++ String b EmptyString
                      /\ strings.mem_ascii b delimiters = true
                      /\ free_of delimiters pre = true)
  end.
Proof.
  induction r as [|c r IH]; intros delimiters result Hfree; simpl.
  - split; [reflexivity|]. split; [intros _; auto | discriminate].
  - destruct (strings.mem_ascii c delimiters) eqn:Hc.
    + split; [now rewrite <- append_assoc|].
      split; [discriminate|]. intros _. exists result. auto.
    + specialize (IH delimiters (result ++ String c EmptyString)).
      rewrite free_of_app in IH. simpl in IH. rewrite Hc, Hfree in IH.
      specialize (IH eq_refl).
      destruct (readUntilAnyLoop r delimiters (result ++ String c EmptyString))
        as [[[text b] failed] rest].
      rewrite <- append_assoc in IH. exact IH.
Qed.

(** X1. [readUntilAny] returns the bytes up to and including the first
    delimiter, and that delimiter; nothing of the input is lost; when the
    input holds no delimiter it returns the whole input, the zero byte and
    the reader's error. *)
Theorem readUntilAny_first_delimiter : forall r delimiters,
  match readUntilAny r delimiters with
  | (text, b, failed, rest) =>
      r = text ++ rest
      /\ (failed = true <-> free_of delimiters r = true)
      /\ (failed = true -> text = r /\ b = zero)
      /\ (failed = false ->
          exists pre, text = pre ++ String b EmptyString
                      /\ strings.mem_ascii b delimiters = true
                      /\ free_of delimiters pre = true)
  end.
Proof.
  intros r delimiters. unfold readUntilAny.
  pose proof (readUntilAnyLoop_spec r delimiters EmptyString eq_refl) as H.
  destruct (readUntilAnyLoop r delimiters EmptyString) as [[[text b] failed] rest].
  simpl in H. destruct H as [Hr [Hf Hd]].
  split; [exact Hr|]. split; [|split].
  - split.
    + intros E. destruct (Hf E) as [E1 [_ E3]]. subst rest.
      rewrite append_empty_r in Hr. now subst r.
    + intros Hfree. destruct failed; [reflexivity|].
      destruct (Hd eq_refl) as [pre [E1 [E2 _]]]. subst text r.
      rewrite !free_of_app in Hfree. simpl in Hfree. rewrite E2 in Hfree.
      simpl in Hfree. rewrite andb_false_r in Hfree. discriminate.
  - intros E. destruct (Hf E) as [E1 [E2 _]]. subst rest.
    rewrite append_empty_r in Hr. auto.
  - exact Hd.
Qed.

(** ** Decimal numbers: printing, then scanning *)

Lemma digits_value_acc : forall u (acc : positive),
  fmt.digits_value (Z.pos acc) (NilEmpty.string_of_uint u)
  = Z.pos (Pos.of_uint_acc u acc).
Proof.
  induction u as [|u IH|u IH|u IH|u IH|u IH|u IH|u IH|u IH|u IH|u IH];
    intros acc; cbn [NilEmpty.string_of_uint fmt.digits_value Pos.of_uint_acc];
    [reflexivity| rewrite <- IH; f_equal;
       try match goal with
           | |- context [Z.of_nat ?n] =>
               let v := eval vm_compute in (Z.of_nat n) in
               change (Z.of_nat n) with v
           end; lia ..].
Qed.

Lemma digits_value_uint : forall u,
  fmt.digits_value 0 (NilEmpty.string_of_uint u) = Z.of_N (Pos.of_uint u).
Proof.
  induction u as [|u IH|u IH|u IH|u IH|u IH|u IH|u IH|u IH|u IH|u IH];
    cbn [NilEmpty.string_of_uint fmt.digits_value Pos.of_uint];
    [reflexivity | exact IH | apply (digits_value_acc u) ..].
Qed.

Lemma take_number_uint : forall u rest,
  fmt.take_number (NilEmpty.string_of_uint u ++ rest)
  = NilEmpty.string_of_uint u ++ fmt.take_number rest.
Proof.
  induction u as [|u IH|u IH|u IH|u IH|u IH|u IH|u IH|u IH|u IH|u IH];
    intros rest; [reflexivity | cbn; now rewrite IH ..].
Qed.

Lemma underscore_free_uint : forall u,
  strings.mem_ascii "_" (NilEmpty.string_of_uint u) = false.
Proof.
  induction u as [|u IH|u IH|u IH|u IH|u IH|u IH|u IH|u IH|u IH|u IH];
    [reflexivity | cbn; exact IH ..].
Qed.

(** The digits [Sprintf] prints for a positive number. *)
Lemma digits_of_positive : forall p,
  exists c ds,
    NilZero.string_of_uint (Pos.to_uint p) = String c ds
    /\ fmt.is_digit c = true
    /\ fmt.take_number (String c ds) = String c ds
    /\ strings.mem_ascii "_" (String c ds) = false
    /\ fmt.digits_value 0 (String c ds) = Z.pos p.
Proof.
  intros p.
  pose proof (DecimalPos.Unsigned.to_uint_nonnil p) as Hnn.
  pose proof (DecimalPos.Unsigned.of_to p) as Hof.
  pose proof (digits_value_uint (Pos.to_uint p)) as Hv.
  pose proof (take_number_uint (Pos.to_uint p) EmptyString) as Ht.
  pose proof (underscore_free_uint (Pos.to_uint p)) as Hu.
  rewrite Hof in Hv. rewrite append_empty_r in Ht. cbn [fmt.take_number] in Ht.
  rewrite append_empty_r in Ht.
  destruct (Pos.to_uint p) as [|u|u|u|u|u|u|u|u|u|u]; [congruence|..];
    cbn [NilZero.string_of_uint NilEmpty.string_of_uint] in *;
    eexists; eexists; (split; [reflexivity|]); (split; [reflexivity|]);
    (split; [exact Ht|]); (split; [exact Hu | exact Hv]).
Qed.

Lemma skip_space_digit : forall fuel c ds,
  fmt.is_digit c = true -> fmt.skip_space fuel (String c ds) = Some (String c ds).
Proof.
  intros fuel c ds Hc. destruct fuel as [|fuel]; [reflexivity|].
  unfold fmt.is_digit in Hc. apply andb_prop in Hc. destruct Hc as [H1 H2].
  apply Nat.leb_le in H1. apply Nat.leb_le in H2.
  rewrite <- (ascii_nat_embedding c).
  remember (nat_of_ascii c) as n eqn:En. clear En.
  do 48 (destruct n as [|n]; [lia|]).
  do 10 (destruct n as [|n]; [reflexivity|]). lia.
Qed.

Lemma scan_d_Sprintf_d : forall n,
  (fmt.int_min <= n <= fmt.int_max)%Z -> fmt.scan_d (fmt.Sprintf_d n) = Some n.
Proof.
  intros n Hn. destruct n as [|p|p].
  - reflexivity.
  - destruct (digits_of_positive p) as [c [ds [E [Hc [Ht [Hu Hv]]]]]].
    unfold fmt.Sprintf_d, fmt.scan_d. cbn [Z.to_int NilZero.string_of_int].
    rewrite E, (skip_space_digit _ c ds Hc).
    assert (Hplus : Ascii.eqb c "+" = false).
    { destruct (Ascii.eqb c "+") eqn:Ec; [|reflexivity].
      apply Ascii.eqb_eq in Ec. subst c. discriminate. }
    assert (Hminus : Ascii.eqb c "-" = false).
    { destruct (Ascii.eqb c "-") eqn:Ec; [|reflexivity].
      apply Ascii.eqb_eq in Ec. subst c. discriminate. }
    rewrite Hplus, Hminus, Ht, Hu, Hv.
    cbn [String.eqb].
    replace ((fmt.int_min <=? Z.pos p)%Z && (Z.pos p <=? fmt.int_max)%Z) with true;
      [reflexivity|].
    symmetry. apply andb_true_intro. split; apply Z.leb_le; lia.
  - destruct (digits_of_positive p) as [c [ds [E [Hc [Ht [Hu Hv]]]]]].
    unfold fmt.Sprintf_d, fmt.scan_d. cbn [Z.to_int NilZero.string_of_int].
    rewrite E.
    replace (fmt.skip_space (String.length (String "-" (String c ds)))
               (String "-" (String c ds)))
      with (Some (String "-" (String c ds))) by reflexivity.
    replace (Ascii.eqb "-" "+") with false by reflexivity.
    replace (Ascii.eqb "-" "-") with true by reflexivity.
    rewrite Ht, Hu, Hv. cbn [String.eqb].
    replace ((fmt.int_min <=? - Z.pos p)%Z && (- Z.pos p <=? fmt.int_max)%Z) with true;
      [reflexivity|].
    symmetry. apply andb_true_intro. split; apply Z.leb_le; lia.
Qed.

(** ** Fields, quotes and separators *)

Lemma free_of_rev : forall set s, free_of set (rev_string s) = free_of set s.
Proof.
  induction s as [|c s IH]; [reflexivity|].
  cbn [rev_string]. rewrite free_of_app, IH. cbn [free_of].
  rewrite andb_true_r. apply andb_comm.
Qed.

Lemma trim_left_bytes_free : forall set y w,
  y <> EmptyString -> free_of set y = true ->
  strings.trim_left_bytes set (y ++ w) = y ++ w.
Proof.
  intros set [|c y] w Hy Hfree; [congruence|].
  cbn [free_of] in Hfree. apply andb_prop in Hfree. destruct Hfree as [Hc _].
  apply negb_true_iff in Hc. cbn. now rewrite Hc.
Qed.

Lemma rev_quoted : forall x, rev_string (quoted x) = quoted (rev_string x).
Proof.
  intros x. unfold quoted. cbn [rev_string].
  rewrite rev_string_app. reflexivity.
Qed.

(** [strings.Trim] takes the two quotes off a quoted field that holds none. *)
Lemma Trim_quoted : forall x, free_of dq x = true -> strings.Trim (quoted x) dq = x.
Proof.
  intros x Hx. destruct x as [|c x]; [reflexivity|].
  unfold strings.Trim. rewrite rev_quoted.
  assert (Hne : rev_string (String c x) <> EmptyString).
  { intros E. apply (f_equal String.length) in E.
    rewrite rev_string_length in E. discriminate. }
  assert (Hstep : forall y, strings.trim_left_bytes dq (quoted y)
                            = strings.trim_left_bytes dq (y ++ dq)) by reflexivity.
  rewrite Hstep, trim_left_bytes_free;
    [| exact Hne | now rewrite free_of_rev].
  rewrite rev_string_app, rev_string_involutive.
  change (strings.trim_left_bytes dq (rev_string dq ++ String c x))
    with (strings.trim_left_bytes dq (String c x)).
  cbn [free_of] in Hx. apply andb_prop in Hx. destruct Hx as [Hc _].
  apply negb_true_iff in Hc. cbn [strings.trim_left_bytes]. now rewrite Hc.
Qed.

Lemma plain_field_free : forall x, plain_field x = true -> free_of dq x = true.
Proof.
  induction x as [|c x IH]; [reflexivity|]. cbn [plain_field free_of].
  intros H. apply andb_prop in H. destruct H as [H Hx].
  apply andb_prop in H. destruct H as [_ Hq].
  rewrite (IH Hx), andb_true_r. cbn [strings.mem_ascii dq].
  now rewrite orb_false_r.
Qed.

Lemma free_of_mono : forall set1 set2 x,
  (forall c, strings.mem_ascii c set1 = true -> strings.mem_ascii c set2 = true) ->
  free_of set2 x = true -> free_of set1 x = true.
Proof.
  intros set1 set2 x Hsub. induction x as [|c x IH]; [reflexivity|].
  cbn [free_of]. intros H. apply andb_prop in H. destruct H as [Hc Hx].
  rewrite (IH Hx), andb_true_r. apply negb_true_iff in Hc. apply negb_true_iff.
  destruct (strings.mem_ascii c set1) eqn:E; [|reflexivity].
  rewrite (Hsub c E) in Hc. discriminate.
Qed.

Lemma Split_nonempty : forall s sep, strings.Split s sep <> [].
Proof.
  induction s as [|c s IH]; intros sep; cbn [strings.Split]; [discriminate|].
  destruct (Ascii.eqb c sep); [discriminate|].
  destruct (strings.Split s sep); discriminate.
Qed.

(** A stretch without the separator is one part... *)
Lemma Split_free : forall sep a,
  free_of (String sep EmptyString) a = true -> strings.Split a sep = [a].
Proof.
  intros sep. induction a as [|c a IH]; [reflexivity|].
  cbn [free_of strings.mem_ascii strings.Split]. rewrite orb_false_r.
  intros H. apply andb_prop in H. destruct H as [Hc Ha].
  apply negb_true_iff in Hc. rewrite Hc, (IH Ha). reflexivity.
Qed.

(** ... and is cut off at the separator that follows it. *)
Lemma Split_app : forall sep a r,
  free_of (String sep EmptyString) a = true ->
  strings.Split (a ++ String sep r) sep = a :: strings.Split r sep.
Proof.
  intros sep a r. induction a as [|c a IH].
  - intros _. cbn [append strings.Split]. now rewrite Ascii.eqb_refl.
  - cbn [free_of strings.mem_ascii append strings.Split]. rewrite orb_false_r.
    intros H. apply andb_prop in H. destruct H as [Hc Ha].
    apply negb_true_iff in Hc. rewrite Hc, (IH Ha). reflexivity.
Qed.

Lemma TrimSpace_fixed : forall l,
  strings.strip_any strings.space_runes l = None ->
  strings.strip_any rev_space_runes (rev_string l) = None ->
  strings.TrimSpace l = l.
Proof.
  intros l H1 H2. unfold strings.TrimSpace, strings.TrimLeftSpace.
  rewrite trim_left_fixed by exact H1.
  unfold strings.TrimRightSpace. fold rev_space_runes.
  rewrite trim_left_fixed by exact H2. apply rev_string_involutive.
Qed.

Lemma TrimSpace_idempotent : forall raw,
  strings.TrimSpace (strings.TrimSpace raw) = strings.TrimSpace raw.
Proof.
  intros raw. destruct (TrimSpace_trimmed raw) as [H1 H2].
  now apply TrimSpace_fixed.
Qed.

Lemma Join_cons : forall a b l sep,
  strings.Join (a :: b :: l) sep = a ++ sep ++ strings.Join (b :: l) sep.
Proof. reflexivity. Qed.

Lemma Join_quoted_ends : forall xs x,
  exists y z,
    strings.Join (map quoted (x :: xs)) "," = String dquote y
    /\ rev_string (strings.Join (map quoted (x :: xs)) ",") = String dquote z.
Proof.
  induction xs as [|x' xs IH]; intros x.
  - exists (x ++ dq), (rev_string x ++ dq). split; [reflexivity|].
    change (strings.Join (map quoted [x]) ",") with (quoted x).
    now rewrite rev_quoted.
  - destruct (IH x') as [y [z [E1 E2]]].
    cbn [map] in *. rewrite Join_cons.
    split with (x := (x ++ dq) ++ "," ++ strings.Join (quoted x' :: map quoted xs) ",").
    exists ((z ++ rev_string ("," : string)) ++ rev_string (quoted x)).
    split; [reflexivity|].
    rewrite !rev_string_app, E2. reflexivity.
Qed.

(** A header line that is made of quoted fields is trimmed already, with
    or without the space after its tag. *)
Lemma TrimSpace_quoted_fields : forall xs x,
  strings.TrimSpace (String " " (strings.Join (map quoted (x :: xs)) ","))
  = strings.Join (map quoted (x :: xs)) ",".
Proof.
  intros xs x. destruct (Join_quoted_ends xs x) as [y [z [E1 E2]]].
  unfold strings.TrimSpace.
  assert (Hl : strings.TrimLeftSpace
                 (String " " (strings.Join (map quoted (x :: xs)) ","))
               = strings.Join (map quoted (x :: xs)) ",").
  { unfold strings.TrimLeftSpace. cbn [String.length].
    rewrite (trim_left_step _ _ _ (strings.Join (map quoted (x :: xs)) ","))
      by reflexivity.
    apply trim_left_fixed. rewrite E1. reflexivity. }
  rewrite Hl. unfold strings.TrimRightSpace. fold rev_space_runes.
  rewrite trim_left_fixed; [apply rev_string_involutive|].
  rewrite E2. reflexivity.
Qed.

(** X2. A header whose fields are quoted is split at the commas between the
    fields and nowhere else (a comma inside a quoted field is no boundary
    for [splitRespectingQuotes]), and every field comes back whole, quotes
    included. *)
Theorem splitRespectingQuotes_keeps_quoted_fields : forall x xs,
  forallb plain_field (x :: xs) = true ->
  splitRespectingQuotes (strings.Join (map quoted (x :: xs)) ",") ","
  = map quoted (x :: xs)
  /\ length (splitRespectingQuotes (strings.Join (map quoted (x :: xs)) ",") ",")
     = S (length xs).
Proof.
  intros x xs H. rewrite (splitRespectingQuotes_quoted_fields xs x H).
  split; [reflexivity|]. cbn [map length]. now rewrite length_map.
Qed.

Lemma splitRespectingQuotes_keeps_quoted_fields_witness :
  forallb plain_field ["REC READ"; "+1234567890"; ""; "24/01/15,10:30:45+00"] = true
  /\ splitRespectingQuotes
       (strings.Join (map quoted ["REC READ"; "+1234567890"; "";
                                  "24/01/15,10:30:45+00"]) ",") ","
     = map quoted ["REC READ"; "+1234567890"; ""; "24/01/15,10:30:45+00"].
Proof.
  split; [reflexivity|].
  apply (splitRespectingQuotes_keeps_quoted_fields
           "REC READ" ["+1234567890"; ""; "24/01/15,10:30:45+00"]).
  reflexivity.
Defined.

(** X3. [parseSMSHeader] reads back what a header of quoted fields says:
    the first field is the status, the second the sender, and the date is
    the fourth field when there are four or more, the third when there are
    three, and empty otherwise; commas inside the fields do no harm. *)
Theorem parseSMSHeader_reads_quoted_fields : forall status sender more,
  forallb plain_field (status :: sender :: more) = true ->
  parseSMSHeader
    ("+CMGR: " ++ strings.Join (map quoted (status :: sender :: more)) ",")
  = ({| Index := 0; Status := status; Sender := sender;
        Date := match more with
                | [] => EmptyString
                | [date] => date
                | _ :: date :: _ => date
                end;
        Message := EmptyString |}, None).
Proof.
  intros status sender more H. unfold parseSMSHeader.
  replace (strings.Contains
             ("+CMGR: " ++ strings.Join (map quoted (status :: sender :: more)) ",")
             "+CMGR:") with true by reflexivity.
  replace (strings.TrimPrefix
             ("+CMGR: " ++ strings.Join (map quoted (status :: sender :: more)) ",")
             "+CMGR:")
    with (String " " (strings.Join (map quoted (status :: sender :: more)) ","))
    by reflexivity.
  cbn [negb]. rewrite TrimSpace_quoted_fields.
  rewrite (splitRespectingQuotes_quoted_fields _ _ H).
  cbn [forallb] in H. apply andb_prop in H. destruct H as [Hst H].
  apply andb_prop in H. destruct H as [Hse Hmore].
  cbn [map length nth Nat.ltb Nat.leb].
  rewrite !Trim_quoted by now apply plain_field_free.
  destruct more as [|m1 [|m2 more]].
  - reflexivity.
  - cbn [forallb] in Hmore. apply andb_prop in Hmore. destruct Hmore as [H1 _].
    cbn [map length nth Nat.leb].
    rewrite Trim_quoted by now apply plain_field_free. reflexivity.
  - cbn [forallb] in Hmore. apply andb_prop in Hmore. destruct Hmore as [_ Hmore].
    apply andb_prop in Hmore. destruct Hmore as [H2 _].
    cbn [map length nth Nat.leb].
    rewrite Trim_quoted by now apply plain_field_free. reflexivity.
Qed.

Lemma parseSMSHeader_reads_quoted_fields_witness :
  forallb plain_field ["REC READ"; "+1234567890"; ""; "24/01/15,10:30:45+00"] = true
  /\ parseSMSHeader header4
     = ({| Index := 0; Status := "REC READ"; Sender := "+1234567890";
           Date := "24/01/15,10:30:45+00"; Message := EmptyString |}, None).
Proof.
  split; [reflexivity|].
  apply (parseSMSHeader_reads_quoted_fields
           "REC READ" "+1234567890" [""; "24/01/15,10:30:45+00"]).
  reflexivity.
Defined.

(** ** The parsers on the formats of their comments *)

Lemma bare_facts : forall x,
  bare x = true ->
  free_of "," x = true /\ free_of dq x = true /\ free_of LF x = true.
Proof.
  intros x H. unfold bare in H.
  split; [|split]; (eapply free_of_mono; [|exact H]); intros c Hc;
    unfold dq, LF, LFc, bytes in *; cbn [strings.mem_ascii fold_right] in *;
    destruct (Ascii.eqb c ","), (Ascii.eqb c dquote),
             (Ascii.eqb c (ascii_of_nat 10));
    try reflexivity; discriminate.
Qed.

Lemma free_of_digits : forall set u,
  free_of set "0123456789" = true ->
  free_of set (NilEmpty.string_of_uint u) = true.
Proof.
  intros set u H. cbn [free_of] in H.
  repeat match type of H with
         | (_ && _) = true => apply andb_prop in H; destruct H as [? H]
         end.
  induction u as [|u IH|u IH|u IH|u IH|u IH|u IH|u IH|u IH|u IH|u IH];
    cbn [NilEmpty.string_of_uint free_of]; [reflexivity| rewrite IH ..];
    rewrite andb_true_r; assumption.
Qed.

Lemma free_of_Sprintf_d : forall set n,
  free_of set "-0123456789" = true -> free_of set (fmt.Sprintf_d n) = true.
Proof.
  intros set n H.
  assert (Hd : free_of set "0123456789" = true).
  { cbn [free_of] in H. apply andb_prop in H. apply H. }
  assert (Hu : forall u, free_of set (NilZero.string_of_uint u) = true).
  { intros u. destruct u; try apply (free_of_digits set _ Hd).
    cbn [NilZero.string_of_uint free_of]. cbn [free_of] in Hd.
    apply andb_prop in Hd. destruct Hd as [H0 _]. now rewrite H0. }
  unfold fmt.Sprintf_d. destruct (Z.to_int n) as [u|u];
    cbn [NilZero.string_of_int]; [apply Hu|].
  cbn [free_of]. rewrite Hu, andb_true_r.
  cbn [free_of] in H. apply andb_prop in H. apply H.
Qed.

Lemma scan_d_space : forall ds,
  fmt.scan_d (String " " ds) = fmt.scan_d ds.
Proof. reflexivity. Qed.

(** The index printed after a tag is the index scanned from it. *)
Lemma Sscanf_lit_d_Sprintf_d : forall n,
  (fmt.int_min <= n <= fmt.int_max)%Z ->
  fmt.Sscanf_lit_d ("+CMGL: " ++ fmt.Sprintf_d n) "+CMGL:" = n.
Proof.
  intros n Hn. unfold fmt.Sscanf_lit_d.
  replace (strings.strip "+CMGL:" ("+CMGL: " ++ fmt.Sprintf_d n))
    with (Some (String " " (fmt.Sprintf_d n))) by reflexivity.
  replace (strings.HasPrefix (String " " (fmt.Sprintf_d n)) LF) with false
    by reflexivity.
  replace (strings.strip_any strings.space_runes (String " " (fmt.Sprintf_d n)))
    with (Some (fmt.Sprintf_d n)) by reflexivity.
  unfold fmt.Sscanf_d. rewrite scan_d_space, scan_d_Sprintf_d by exact Hn.
  reflexivity.
Qed.

Lemma free_of_quoted : forall set x,
  strings.mem_ascii dquote set = false -> free_of set x = true ->
  free_of set (quoted x) = true.
Proof.
  intros set x Hq Hx. unfold quoted. cbn [free_of].
  rewrite free_of_app, Hx, Hq. cbn [free_of]. now rewrite Hq.
Qed.

Lemma Split_three : forall a b c,
  free_of "," a = true -> free_of "," b = true -> free_of "," c = true ->
  strings.Split (a ++ "," ++ b ++ "," ++ c) "," = [a; b; c].
Proof.
  intros a b c Ha Hb Hc.
  change ("," ++ b ++ "," ++ c) with (String "," (b ++ String "," c)).
  rewrite (Split_app _ _ _ Ha), (Split_app _ _ _ Hb), (Split_free _ _ Hc).
  reflexivity.
Qed.

Lemma Split_four : forall a b c d,
  free_of "," a = true -> free_of "," b = true -> free_of "," c = true ->
  free_of "," d = true ->
  strings.Split (a ++ "," ++ b ++ "," ++ c ++ "," ++ d) "," = [a; b; c; d].
Proof.
  intros a b c d Ha Hb Hc Hd.
  change ("," ++ b ++ "," ++ c ++ "," ++ d)
    with (String "," (b ++ "," ++ c ++ "," ++ d)).
  rewrite (Split_app _ _ _ Ha), (Split_three _ _ _ Hb Hc Hd). reflexivity.
Qed.

Lemma quoted_last_trimmed : forall a x,
  strings.strip_any strings.space_runes (a ++ quoted x) = None ->
  strings.TrimSpace (a ++ quoted x) = a ++ quoted x.
Proof.
  intros a x H. apply TrimSpace_fixed; [exact H|].
  rewrite rev_string_app, rev_quoted. reflexivity.
Qed.

Lemma cmgl_header_trimmed : forall sms,
  strings.TrimSpace (cmgl_header sms) = cmgl_header sms.
Proof.
  intros sms. unfold cmgl_header.
  rewrite !append_assoc. apply quoted_last_trimmed.
  rewrite <- !append_assoc. reflexivity.
Qed.

Lemma cmgl_header_parts : forall sms,
  listable sms ->
  strings.Split (cmgl_header sms) ","
  = ["+CMGL: " ++ fmt.Sprintf_d (Index sms); quoted (Status sms);
     quoted (Sender sms); quoted (Date sms)].
Proof.
  intros sms (_ & Hst & Hse & Hda & _).
  apply bare_facts in Hst, Hse, Hda.
  unfold cmgl_header. rewrite (append_assoc "+CMGL: ").
  apply Split_four; try (apply free_of_quoted; [reflexivity | tauto]).
  rewrite free_of_app. rewrite free_of_Sprintf_d by reflexivity. reflexivity.
Qed.

Lemma listing_lines : forall sms rest,
  listable sms ->
  strings.Split (listing (sms :: rest)) LFc
  = cmgl_header sms :: Message sms :: strings.Split (listing rest) LFc.
Proof.
  intros sms rest H. pose proof H as (_ & Hst & Hse & Hda & Hm & _).
  apply bare_facts in Hst, Hse, Hda.
  cbn [listing].
  change (LF ++ Message sms ++ LF ++ listing rest)
    with (String LFc (Message sms ++ String LFc (listing rest))).
  rewrite Split_app, Split_app; [reflexivity | exact Hm |].
  unfold cmgl_header. rewrite !free_of_app.
  rewrite free_of_Sprintf_d by reflexivity.
  rewrite !free_of_quoted by (reflexivity || tauto). reflexivity.
Qed.

(** X4. [parseSMSList] reads back the listing its comment describes: from
    the answer made of a header [+CMGL: index,status,sender,date] and a text
    line for each record, then [OK], it returns exactly these records, in
    order, as long as no field holds a comma, a quote or a newline, the
    index fits an [int] and the text is one trimmed line. *)
Theorem parseSMSList_reads_its_listing : forall l,
  Forall listable l -> parseSMSList (listing l) = l.
Proof.
  intros l H. unfold parseSMSList. induction H as [|sms rest Hsms Hrest IH].
  - reflexivity.
  - rewrite (listing_lines sms rest Hsms). cbn [parseSMSLines].
    rewrite cmgl_header_trimmed.
    replace (strings.HasPrefix (cmgl_header sms) "+CMGL:") with true by reflexivity.
    rewrite (cmgl_header_parts sms Hsms). cbn [length Nat.leb nth].
    destruct Hsms as (Hi & Hst & Hse & Hda & _ & Hm).
    apply bare_facts in Hst, Hse, Hda.
    rewrite (Sscanf_lit_d_Sprintf_d _ Hi), !Trim_quoted by tauto.
    cbn [Index Status Sender Date]. rewrite Hm, IH.
    destruct sms; reflexivity.
Qed.

Lemma parseSMSList_reads_its_listing_witness :
  parseSMSList
    (listing [ {| Index := 1; Status := "REC UNREAD"; Sender := "+1234567890";
                  Date := "24/01/15 10:30:45+00"; Message := "Hello" |};
               {| Index := 12; Status := "REC READ"; Sender := "+9876543210";
                  Date := "24/01/16"; Message := "" |} ])
  = [ {| Index := 1; Status := "REC UNREAD"; Sender := "+1234567890";
         Date := "24/01/15 10:30:45+00"; Message := "Hello" |};
      {| Index := 12; Status := "REC READ"; Sender := "+9876543210";
         Date := "24/01/16"; Message := "" |} ].
Proof.
  apply parseSMSList_reads_its_listing.
  repeat constructor; cbn [Index]; try reflexivity; unfold fmt.int_min, fmt.int_max; lia.
Defined.

Lemma cmgr_header_trimmed : forall status sender date,
  strings.TrimSpace (cmgr_header status sender date)
  = cmgr_header status sender date.
Proof.
  intros status sender date. unfold cmgr_header.
  rewrite !append_assoc. apply quoted_last_trimmed.
  rewrite <- !append_assoc. reflexivity.
Qed.

(** X5. [readSMSByIndex] reads back the answer its comment describes: from
    a header [+CMGR: status,sender,date] it returns the index asked for, the
    three fields without their quotes, and the next line, trimmed, as the
    text (and no text when the header is the last line), as long as no field
    holds a comma or a quote. *)
Theorem readSMSByIndex_reads_three_fields :
  forall index status sender date rest,
    bare status = true -> bare sender = true -> bare date = true ->
    findCMGR index (cmgr_header status sender date :: rest)
    = Ret {| Index := index; Status := status; Sender := sender; Date := date;
             Message := match rest with
                        | next :: _ => strings.TrimSpace next
                        | [] => EmptyString
                        end |}.
Proof.
  intros index status sender date rest Hst Hse Hda.
  apply bare_facts in Hst, Hse, Hda.
  cbn [findCMGR]. rewrite cmgr_header_trimmed.
  replace (strings.HasPrefix (cmgr_header status sender date) "+CMGR:")
    with true by reflexivity.
  unfold cmgr_header. rewrite (append_assoc "+CMGR: ").
  rewrite Split_three by (try apply free_of_quoted; try reflexivity; tauto).
  cbn [length Nat.leb nth].
  replace (slice_from 7 ("+CMGR: " ++ quoted status)) with (Some (quoted status))
    by reflexivity.
  rewrite !Trim_quoted by tauto. reflexivity.
Qed.

Lemma readSMSByIndex_reads_three_fields_witness :
  findCMGR 3 (cmgr_header "REC UNREAD" "+1234567890" "24/01/15 10:30:45+00"
              :: ["  Hello " ++ CR; "OK"])
  = Ret {| Index := 3; Status := "REC UNREAD"; Sender := "+1234567890";
           Date := "24/01/15 10:30:45+00"; Message := "Hello" |}.
Proof.
  apply (readSMSByIndex_reads_three_fields 3 "REC UNREAD" "+1234567890"
           "24/01/15 10:30:45+00" ["  Hello " ++ CR; "OK"]); reflexivity.
Defined.

Lemma Split_head_tag : forall r,
  exists h t, strings.Split ("+CMGR: " ++ r) "," = ("+CMGR: " ++ h) :: t.
Proof.
  intros r. cbn [append strings.Split Ascii.eqb Bool.eqb].
  destruct (strings.Split r ",") as [|h t] eqn:E.
  - now apply Split_nonempty in E.
  - exists h, t. reflexivity.
Qed.

(** X6. The slice [parts[0][7:]] of [readSMSByIndex]: a header that begins
    with [+CMGR:] and a space never makes it panic, whatever the lines are;
    a header whose first part is the bare tag [+CMGR:] (a comma right after
    the colon) with two more parts does. *)
Theorem readSMSByIndex_slice_panics_on_bare_tag : forall index,
  (forall lines,
     Forall (fun l => strings.HasPrefix (strings.TrimSpace l) "+CMGR:" = true ->
                      strings.HasPrefix (strings.TrimSpace l) "+CMGR: " = true)
            lines ->
     findCMGR index lines <> Panic)
  /\ (forall raw r rest,
        strings.TrimSpace raw = "+CMGR:," ++ r ->
        2 <= length (strings.Split r ",") ->
        findCMGR index (raw :: rest) = Panic).
Proof.
  intros index. split.
  - intros lines H. induction H as [|l rest Hl Hrest IH]; cbn [findCMGR].
    + discriminate.
    + destruct (strings.HasPrefix (strings.TrimSpace l) "+CMGR:") eqn:Hp;
        [|exact IH].
      specialize (Hl eq_refl). unfold strings.HasPrefix in Hl.
      destruct (strings.strip "+CMGR: " (strings.TrimSpace l)) as [r|] eqn:Er;
        [|discriminate].
      apply strip_prefix_of in Er. rewrite Er.
      destruct (Split_head_tag r) as [h [t Es]]. rewrite Es.
      destruct (3 <=? length (("+CMGR: " ++ h) :: t))%nat; [|exact IH].
      cbn [nth]. discriminate.
  - intros raw r rest Eraw Hlen. cbn [findCMGR]. rewrite Eraw.
    replace (strings.HasPrefix ("+CMGR:," ++ r) "+CMGR:") with true by reflexivity.
    replace (strings.Split ("+CMGR:," ++ r) ",")
      with ("+CMGR:" :: strings.Split r ",") by reflexivity.
    cbn [length nth].
    replace (3 <=? S (length (strings.Split r ",")))%nat with true;
      [reflexivity|].
    symmetry. apply Nat.leb_le. lia.
Qed.

Lemma readSMSByIndex_slice_panics_on_bare_tag_witness :
  findCMGR 1 ["+CMGR: " ++ quoted "REC READ" ++ ",a,b"; "Hi"] <> Panic
  /\ findCMGR 1 ["+CMGR:,a,b"; "Hi"] = Panic.
Proof.
  destruct (readSMSByIndex_slice_panics_on_bare_tag 1) as [H1 H2]. split.
  - apply H1. repeat constructor; intros H; vm_compute in H |- *; congruence.
  - apply (H2 "+CMGR:,a,b" "a,b" ["Hi"]); [reflexivity | vm_compute; lia].
Defined.

(** X7. [parseSMSList] returns one record at most for each line that
    begins with [+CMGL:]: an answer without such a line (a lone [OK], an
    [ERROR]) gives no record, and never an error. *)
Theorem parseSMSList_counts_headers : forall response,
  length (parseSMSList response)
  <= length (filter is_cmgl (strings.Split response LFc)).
Proof.
  intros response. unfold parseSMSList.
  assert (H : forall ls,
            length (parseSMSLines ls) <= length (filter is_cmgl ls)
            /\ forall l, length (parseSMSLines (l :: ls))
                         <= length (filter is_cmgl (l :: ls))).
  { intros ls. induction ls as [|x ls [IH1 IH2]].
    - split; [apply Nat.le_refl|]. intros l. cbn [parseSMSLines filter].
      unfold is_cmgl.
      destruct (strings.HasPrefix (strings.TrimSpace l) "+CMGL:");
        [|apply Nat.le_refl].
      destruct (4 <=? length (strings.Split (strings.TrimSpace l) ","))%nat;
        cbn [length]; lia.
    - split; [apply IH2|]. intros l.
      assert (E : parseSMSLines (l :: x :: ls) = parseSMSLines (x :: ls)
                  \/ exists sms, parseSMSLines (l :: x :: ls)
                                 = sms :: parseSMSLines ls /\ is_cmgl l = true).
      { unfold is_cmgl. cbn [parseSMSLines].
        destruct (strings.HasPrefix (strings.TrimSpace l) "+CMGL:");
          [|now left].
        destruct (4 <=? length (strings.Split (strings.TrimSpace l) ","))%nat;
          [|now left].
        right. eexists. split; reflexivity. }
      specialize (IH2 x). cbn [filter] in IH2 |- *.
      destruct E as [E | [sms [E Hl]]]; rewrite E.
      + destruct (is_cmgl l); cbn [length]; lia.
      + rewrite Hl. destruct (is_cmgl x); cbn [length] in *; lia. }
  apply H.
Qed.

(** ** What a transaction comes to *)

Lemma elapsed_arrived : forall deadline tie reads clock,
  (clock <= deadline)%N ->
  (clock + elapsed (arrived deadline tie clock reads) <= deadline)%N.
Proof.
  intros deadline tie reads. induction reads as [|[d r] rest IH]; intros clock Hc.
  - simpl. lia.
  - cbn [arrived].
    destruct ((clock + d <? deadline)%N || tie && (clock + d =? deadline)%N) eqn:E.
    + assert (Hle : (clock + d <= deadline)%N).
      { apply orb_prop in E. destruct E as [E|E].
        - apply N.ltb_lt in E. lia.
        - apply andb_prop in E. destruct E as [_ E]. apply N.eqb_eq in E. lia. }
      specialize (IH _ Hle). cbn [elapsed fold_right fst].
      fold (elapsed (arrived deadline tie (clock + d) rest)). lia.
    + simpl. lia.
Qed.

(** X8. Whatever the port does, [sendATCommand] writes the command once,
    followed by CR LF, returns at most 10 seconds after the write, and
    returns no other error than the two it builds: the write error (exactly
    when the write fails, and then at once) and the timeout (exactly 10
    seconds after the write). *)
Theorem sendATCommand_is_bounded : forall s command port,
  writes (effs (sendATCommand s command port)) = [command ++ CRLF]
  /\ (ret_at (sendATCommand s command port) <= 10000)%N
  /\ (err (sendATCommand s command port) = None
      \/ err (sendATCommand s command port) = Some ErrWriteCommand
      \/ err (sendATCommand s command port) = Some ErrCommandTimeout)
  /\ (err (sendATCommand s command port) = Some ErrWriteCommand
      <-> write_ok port = false)
  /\ (err (sendATCommand s command port) = Some ErrWriteCommand ->
      ret_at (sendATCommand s command port) = 0%N)
  /\ (err (sendATCommand s command port) = Some ErrCommandTimeout ->
      ret_at (sendATCommand s command port) = 10000%N).
Proof.
  intros s command port. split.
  - rewrite sendATCommand_shape, !writes_app.
    rewrite (writes_no_port_write _ (pauseListener_chan s)).
    rewrite (writes_no_port_write _ (resumeListener_chan s)). reflexivity.
  - pose proof (elapsed_arrived command_deadline (done_on_tie port) (lines port) 0)
      as Hb.
    unfold sendATCommand. destruct (write_ok port).
    + destruct (readLines command
                  (arrived command_deadline (done_on_tie port) 0 (lines port))
                  0 "") as [[stop response] rest].
      assert (Hle : (elapsed (arrived command_deadline (done_on_tie port) 0
                                (lines port)) - elapsed rest <= 10000)%N).
      { assert (H0 : (0 <= command_deadline)%N) by (unfold command_deadline; lia).
        specialize (Hb H0).
        remember (elapsed (arrived command_deadline (done_on_tie port) 0
                             (lines port))) as t eqn:Et.
        clear Et. unfold command_deadline in Hb. lia. }
      destruct stop; cbn [ret_at err];
        (split; [first [exact Hle | unfold command_deadline; lia]|]);
        (split; [auto|]); (split; [split; discriminate|]);
        split; (discriminate || reflexivity || auto).
    + cbn [ret_at err]. split; [lia|]. split; [auto|].
      split; [split; reflexivity|]. split; [reflexivity | discriminate].
Qed.

Lemma terminal_not_empty : forall l, is_terminal l = true -> l <> EmptyString.
Proof. intros l H E. subst l. discriminate. Qed.

(** The reader stops on the first line with a terminal token, and the call
    returns what was read so far, with a nil error. *)
Lemma sendATCommand_answered : forall s command port pre d raw post,
  write_ok port = true ->
  lines port = (pre ++ (d, ReadOk raw) :: post)%list ->
  still_reading command pre ->
  is_terminal (strings.TrimSpace raw) = true ->
  strings.TrimSpace raw <> command ->
  (elapsed pre + d < command_deadline)%N ->
  err (sendATCommand s command port) = None
  /\ resp (sendATCommand s command port)
     = strings.Join (kept command pre ++ [strings.TrimSpace raw]) LF
  /\ ret_at (sendATCommand s command port) = (elapsed pre + d)%N.
Proof.
  intros s command port pre d raw post Hw Hl Hpre Hterm Hecho Ht.
  set (tie := done_on_tie port).
  set (late := arrived command_deadline tie (elapsed pre + d) post).
  assert (Hgot : arrived command_deadline tie 0 (lines port)
                 = (pre ++ (d, ReadOk raw) :: late)%list).
  { rewrite Hl, arrived_app by lia. f_equal. simpl.
    replace (elapsed pre + d <? command_deadline)%N with true
      by (symmetry; apply N.ltb_lt; exact Ht).
    reflexivity. }
  assert (He : String.eqb (strings.TrimSpace raw) command = false)
    by (apply String.eqb_neq; exact Hecho).
  assert (Hb : String.eqb (strings.TrimSpace raw) "" = false)
    by (apply String.eqb_neq, terminal_not_empty, Hterm).
  assert (Hrun : readLines command (pre ++ (d, ReadOk raw) :: late) 0 ""
                 = (StopTerminal,
                    ("" ++ accumulate (kept command pre))
                    ++ strings.TrimSpace raw ++ LF, late)).
  { rewrite readLines_app by (apply still_reading_blocked, Hpre).
    cbn [readLines]. rewrite He, Hb, Hterm. reflexivity. }
  fold tie in Hgot. rewrite <- Hgot in Hrun.
  destruct (sendATCommand_done s command port _ _ _ Hw Hrun) as (H1 & H2 & H3);
    [discriminate|].
  split; [exact H2|]. split.
  - rewrite H1.
    assert (Hk : kept command (pre ++ [(d, ReadOk raw)])
                 = (kept command pre ++ [strings.TrimSpace raw])%list).
    { apply kept_snoc_line; [reflexivity | |].
      - unfold is_echo, line_of. cbn [snd]. exact He.
      - unfold is_blank, line_of. cbn [snd]. exact Hb. }
    rewrite <- Hk.
    rewrite <- (TrimSpace_kept command (pre ++ [(d, ReadOk raw)])).
    rewrite Hk, accumulate_snoc. cbn [append]. reflexivity.
  - rewrite H3. fold tie. rewrite Hgot, elapsed_app. simpl.
    fold (elapsed late). lia.
Qed.

(** X9. An [ERROR] from the modem is no error of [sendATCommand]: when the
    line that ends the answer holds [ERROR] (or [+CME ERROR]), the call
    returns a nil error, and the text it returns ends with that line. *)
Theorem modem_ERROR_is_returned_as_text : forall s command port pre d raw post,
  write_ok port = true ->
  lines port = (pre ++ (d, ReadOk raw) :: post)%list ->
  still_reading command pre ->
  strings.Contains (strings.TrimSpace raw) "ERROR" = true ->
  strings.TrimSpace raw <> command ->
  (elapsed pre + d < command_deadline)%N ->
  err (sendATCommand s command port) = None
  /\ resp (sendATCommand s command port)
     = strings.Join (kept command pre ++ [strings.TrimSpace raw]) LF.
Proof.
  intros s command port pre d raw post Hw Hl Hpre Herr Hecho Ht.
  assert (Hterm : is_terminal (strings.TrimSpace raw) = true).
  { unfold is_terminal. rewrite Herr. now rewrite orb_true_r. }
  destruct (sendATCommand_answered s command port pre d raw post
              Hw Hl Hpre Hterm Hecho Ht) as (H1 & H2 & _).
  split; assumption.
Qed.

Lemma modem_ERROR_is_returned_as_text_witness :
  err (sendATCommand idle "AT+CMGD=7"
         (port_of [ok_line 5 "AT+CMGD=7"; ok_line 5 "+CMS ERROR: 321"]))
  = None
  /\ resp (sendATCommand idle "AT+CMGD=7"
             (port_of [ok_line 5 "AT+CMGD=7"; ok_line 5 "+CMS ERROR: 321"]))
     = strings.Join (kept "AT+CMGD=7" [ok_line 5 "AT+CMGD=7"]
                     ++ [strings.TrimSpace ("+CMS ERROR: 321" ++ CRLF)]) LF.
Proof.
  apply (modem_ERROR_is_returned_as_text idle "AT+CMGD=7"
           (port_of [ok_line 5 "AT+CMGD=7"; ok_line 5 "+CMS ERROR: 321"])
           [ok_line 5 "AT+CMGD=7"] 5%N ("+CMS ERROR: 321" ++ CRLF) []).
  - reflexivity.
  - reflexivity.
  - apply still_reading_short.
    + repeat constructor.
    + repeat constructor.
    + simpl. lia.
  - reflexivity.
  - vm_compute. discriminate.
  - vm_compute. reflexivity.
Defined.

(** ** initModem and NewSMSHandler *)

Lemma writes_sendATCommand : forall s command port,
  writes (effs (sendATCommand s command port)) = [command ++ CRLF].
Proof.
  intros s command port. rewrite sendATCommand_shape, !writes_app.
  rewrite (writes_no_port_write _ (pauseListener_chan s)).
  rewrite (writes_no_port_write _ (resumeListener_chan s)). reflexivity.
Qed.

Lemma answers_no_error : forall s command port,
  answers command port -> err (sendATCommand s command port) = None.
Proof.
  intros s command port (Hw & pre & d & raw & post & Hl & Hpre & Hterm & Hecho & Ht).
  apply (sendATCommand_answered s command port pre d raw post); assumption.
Qed.

(** X10. [initModem] takes any answer for a yes: as soon as each of its
    first five commands is answered in time by a line with a terminal token,
    [ERROR] included, it returns nil, having written AT, AT+CMGF=1,
    AT+CSCS="GSM", AT+CPMS="SM","SM","SM" and AT+CNMI=1,2,0,1,0 in this
    order and nothing else: the two other CNMI settings are not tried. *)
Theorem initModem_takes_any_answer : forall s ports,
  answers cmd_AT (ports 0) -> answers cmd_CMGF (ports 1) ->
  answers cmd_CSCS (ports 2) -> answers cmd_CPMS (ports 3) ->
  answers cmd_CNMI_1 (ports 4) ->
  fst (initModem s ports) = None
  /\ writes (snd (initModem s ports))
     = [cmd_AT ++ CRLF; cmd_CMGF ++ CRLF; cmd_CSCS ++ CRLF; cmd_CPMS ++ CRLF;
        cmd_CNMI_1 ++ CRLF].
Proof.
  intros s ports H0 H1 H2 H3 H4. unfold initModem.
  rewrite (answers_no_error s _ _ H0), (answers_no_error s _ _ H1),
          (answers_no_error s _ _ H2), (answers_no_error s _ _ H3),
          (answers_no_error s _ _ H4).
  cbn [fst snd]. split; [reflexivity|].
  rewrite !writes_app, !writes_sendATCommand. reflexivity.
Qed.

Lemma says_answers : forall text command,
  is_terminal (strings.TrimSpace (text ++ CRLF)) = true ->
  strings.TrimSpace (text ++ CRLF) <> command ->
  answers command (says text).
Proof.
  intros text command Hterm Hecho. split; [reflexivity|].
  exists [], 5%N, (text ++ CRLF), []. split; [reflexivity|].
  split; [|split; [exact Hterm | split; [exact Hecho | reflexivity]]].
  apply still_reading_short; [constructor | constructor | simpl; lia].
Qed.

Lemma initModem_takes_any_answer_witness :
  fst (initModem idle (fun _ => says "ERROR")) = None
  /\ writes (snd (initModem idle (fun _ => says "ERROR")))
     = [cmd_AT ++ CRLF; cmd_CMGF ++ CRLF; cmd_CSCS ++ CRLF; cmd_CPMS ++ CRLF;
        cmd_CNMI_1 ++ CRLF].
Proof.
  apply (initModem_takes_any_answer idle (fun _ => says "ERROR"));
    (apply says_answers; [reflexivity | vm_compute; discriminate]).
Defined.

Lemma sendATCommand_errors : forall s command port e,
  err (sendATCommand s command port) = Some e ->
  e = ErrWriteCommand \/ e = ErrCommandTimeout.
Proof.
  intros s command port e. unfold sendATCommand.
  destruct (write_ok port).
  - destruct (readLines command
                (arrived command_deadline (done_on_tie port) 0 (lines port))
                0 "") as [[stop response] rest].
    destruct stop; cbn [err]; intros E; inversion E; auto.
  - cbn [err]. intros E. inversion E. auto.
Qed.

(** X11. The fallback of [initModem] between the three CNMI settings: the
    second is written only when the transaction of the first failed to
    write or met its 10-second timer, the third only when the second did
    too, and [initModem] gives up on notifications only when all three did;
    the error it wraps is the one of the third. *)
Theorem CNMI_fallback_follows_a_failed_transaction : forall s ports,
  (In (cmd_CNMI_2 ++ CRLF) (writes (snd (initModem s ports))) ->
   failed (sendATCommand s cmd_CNMI_1 (ports 4)))
  /\ (In (cmd_CNMI_3 ++ CRLF) (writes (snd (initModem s ports))) ->
      failed (sendATCommand s cmd_CNMI_1 (ports 4))
      /\ failed (sendATCommand s cmd_CNMI_2 (ports 5)))
  /\ (forall e, fst (initModem s ports) = Some (ErrNotifications e) ->
      failed (sendATCommand s cmd_CNMI_1 (ports 4))
      /\ failed (sendATCommand s cmd_CNMI_2 (ports 5))
      /\ err (sendATCommand s cmd_CNMI_3 (ports 6)) = Some e).
Proof.
  intros s ports. unfold failed, initModem.
  assert (Hf : forall k command e,
            err (sendATCommand s command (ports k)) = Some e ->
            Some e = Some ErrWriteCommand \/ Some e = Some ErrCommandTimeout).
  { intros k command e E. destruct (sendATCommand_errors _ _ _ _ E); subst; auto. }
  assert (Hno : forall x l, In x l -> existsb (String.eqb x) l = true).
  { intros x l H. apply existsb_exists. exists x. split; [exact H|].
    apply String.eqb_refl. }
  destruct (err (sendATCommand s cmd_AT (ports 0))) as [e0|] eqn:E0;
  [|destruct (err (sendATCommand s cmd_CMGF (ports 1))) as [e1|] eqn:E1;
  [|destruct (err (sendATCommand s cmd_CSCS (ports 2))) as [e2|] eqn:E2;
  [|destruct (err (sendATCommand s cmd_CPMS (ports 3))) as [e3|] eqn:E3;
  [|destruct (err (sendATCommand s cmd_CNMI_1 (ports 4))) as [e4|] eqn:E4;
  [destruct (err (sendATCommand s cmd_CNMI_2 (ports 5))) as [e5|] eqn:E5;
  [destruct (err (sendATCommand s cmd_CNMI_3 (ports 6))) as [e6|] eqn:E6|]|]]]]];
    cbn [fst snd]; rewrite ?writes_app, ?writes_sendATCommand;
    (split; [|split]);
    try (intros H; apply Hno in H; vm_compute in H; discriminate);
    try (intros e H; discriminate);
    eauto.
  intros e H. inversion H. subst. eauto.
Qed.

Lemma CNMI_fallback_follows_a_failed_transaction_witness :
  In (cmd_CNMI_2 ++ CRLF) (writes (snd (initModem idle (failing_at 4))))
  /\ fst (initModem idle (failing_at 4)) = None
  /\ failed (sendATCommand idle cmd_CNMI_1 (failing_at 4 4)).
Proof.
  assert (H : In (cmd_CNMI_2 ++ CRLF) (writes (snd (initModem idle (failing_at 4))))).
  { vm_compute. auto 7. }
  split; [exact H|]. split; [reflexivity|].
  destruct (CNMI_fallback_follows_a_failed_transaction idle (failing_at 4))
    as (H1 & _).
  apply H1, H.
Defined.


(** ** The body of a [+CMT:] message *)

Lemma cmtBody_blanks : forall sms blanks rest clock,
  forallb is_blank blanks = true ->
  (clock + elapsed blanks < cmt_deadline)%N ->
  cmtBody sms (blanks ++ rest) clock []
  = cmtBody sms rest (clock + elapsed blanks)%N [].
Proof.
  intros sms blanks rest. induction blanks as [|[d r] blanks IH]; intros clock Hb Ht.
  - simpl. now rewrite N.add_0_r.
  - cbn [forallb] in Hb. apply andb_prop in Hb. destruct Hb as [Hr Hb].
    cbn [elapsed fold_right fst] in Ht. fold (elapsed blanks) in Ht.
    cbn [app cmtBody].
    replace (cmt_deadline <=? clock)%N with false
      by (symmetry; apply N.leb_gt; lia).
    unfold is_blank, line_of in Hr. cbn [snd] in Hr.
    destruct r as [raw|]; [|discriminate].
    rewrite Hr. cbn [length Nat.eqb andb].
    rewrite IH by (auto; lia).
    cbn [elapsed fold_right fst]. fold (elapsed blanks).
    now rewrite N.add_assoc.
Qed.

Lemma cmtBody_lines : forall sms body rest clock ml,
  forallb is_body_line body = true ->
  (clock + elapsed body < cmt_deadline)%N ->
  cmtBody sms (body ++ rest) clock ml
  = cmtBody sms rest (clock + elapsed body)%N (ml ++ ok_lines body).
Proof.
  intros sms body rest. induction body as [|[d r] body IH]; intros clock ml Hb Ht.
  - simpl. now rewrite N.add_0_r, app_nil_r.
  - cbn [forallb] in Hb. apply andb_prop in Hb. destruct Hb as [Hr Hb].
    cbn [elapsed fold_right fst] in Ht. fold (elapsed body) in Ht.
    cbn [app cmtBody].
    replace (cmt_deadline <=? clock)%N with false
      by (symmetry; apply N.leb_gt; lia).
    unfold is_body_line, line_of in Hr. cbn [snd] in Hr.
    destruct r as [raw|]; [|discriminate].
    apply andb_prop in Hr. destruct Hr as [Hne Hend].
    apply negb_true_iff in Hne, Hend. unfold ends_body in Hend.
    rewrite Hne, Hend. cbn [andb negb].
    rewrite IH by (auto; lia).
    cbn [elapsed fold_right fst ok_lines]. fold (elapsed body).
    unfold line_of. cbn [snd]. rewrite N.add_assoc, <- app_assoc. reflexivity.
Qed.

(** X13. The body of a [+CMT:] message: after a header with three parts
    or more and a sender part longer than 6 bytes, the blank lines that come
    first are skipped, and the lines that follow, up to the first blank
    line, the first line that begins with [+CMT:], [+CMTI:], [OK], [ERROR]
    or [AT+], or the end of the stream, are handed to the callback once,
    trimmed and joined by newlines, with the sender and the date of the
    header, provided they are read within the two seconds. *)
Theorem cmt_body_lines_are_joined : forall line blanks body tail,
  3 <= length (strings.Split line ",") ->
  6 < String.length (nth 0 (strings.Split line ",") EmptyString) ->
  forallb is_blank blanks = true ->
  forallb is_body_line body = true ->
  body <> [] ->
  (elapsed (blanks ++ body) < cmt_deadline)%N ->
  (tail = []
   \/ exists d raw rest,
        tail = (d, ReadOk raw) :: rest
        /\ (strings.TrimSpace raw = EmptyString
            \/ ends_body (strings.TrimSpace raw) = true)) ->
  handleCMTMessage line (blanks ++ body ++ tail)
  = [Callback {| Index := 0; Status := EmptyString;
                 Sender := strings.Trim
                             (drop 6 (nth 0 (strings.Split line ",") EmptyString)) dq;
                 Date := strings.Trim (nth 2 (strings.Split line ",") EmptyString) dq;
                 Message := strings.Join (ok_lines body) LF |}].
Proof.
  intros line blanks body tail H3 H6 Hblanks Hbody Hne Ht Htail.
  unfold handleCMTMessage.
  replace (length (strings.Split line ",") <? 3)%nat with false
    by (symmetry; apply Nat.ltb_ge; exact H3).
  replace (6 <? String.length (nth 0 (strings.Split line ",") ""))%nat with true
    by (symmetry; apply Nat.ltb_lt; exact H6).
  replace (3 <=? length (strings.Split line ","))%nat with true
    by (symmetry; apply Nat.leb_le; exact H3).
  rewrite elapsed_app in Ht.
  rewrite cmtBody_blanks by (auto; lia).
  rewrite cmtBody_lines by (auto; lia). cbn [app].
  assert (Hlen : (0 <? length (ok_lines body))%nat = true).
  { destruct body as [|[d r] body]; [congruence|].
    cbn [forallb] in Hbody. apply andb_prop in Hbody. destruct Hbody as [Hr _].
    unfold is_body_line in Hr. cbn [ok_lines].
    destruct (line_of (d, r)); [reflexivity | discriminate]. }
  assert (Hlen0 : (length (ok_lines body) =? 0)%nat = false).
  { apply Nat.ltb_lt in Hlen. apply Nat.eqb_neq. lia. }
  destruct Htail as [-> | (d & raw & rest & -> & Hraw)].
  - cbn [cmtBody].
    destruct (cmt_deadline <=? 0 + elapsed blanks + elapsed body)%N;
      unfold deliver; rewrite Hlen; reflexivity.
  - cbn [cmtBody].
    replace (cmt_deadline <=? 0 + elapsed blanks + elapsed body)%N with false
      by (symmetry; apply N.leb_gt; lia).
    destruct Hraw as [Hraw | Hraw].
    + rewrite Hraw, Hlen0, Hlen. reflexivity.
    + unfold ends_body in Hraw. rewrite Hraw, Hlen0, andb_false_r.
      unfold deliver. rewrite Hlen. reflexivity.
Qed.

Lemma cmt_body_lines_are_joined_witness :
  handleCMTMessage cmt_header
    ([ok_line 1 ""] ++ [ok_line 1 "Hello"; ok_line 1 " there"]
     ++ [ok_line 1 "+CMTI: x"])
  = [Callback {| Index := 0; Status := EmptyString;
                 Sender := strings.Trim
                             (drop 6 (nth 0 (strings.Split cmt_header ",") EmptyString))
                             dq;
                 Date := strings.Trim
                           (nth 2 (strings.Split cmt_header ",") EmptyString) dq;
                 Message := strings.Join
                              (ok_lines [ok_line 1 "Hello"; ok_line 1 " there"]) LF |}].
Proof.
  apply (cmt_body_lines_are_joined cmt_header [ok_line 1 ""]
           [ok_line 1 "Hello"; ok_line 1 " there"] [ok_line 1 "+CMTI: x"]).
  - vm_compute. lia.
  - vm_compute. lia.
  - reflexivity.
  - reflexivity.
  - discriminate.
  - reflexivity.
  - right. exists 1%N, ("+CMTI: x" ++ CRLF), []. split; [reflexivity|].
    right. reflexivity.
Defined.

(** ** The listener's classification *)

(** X14. What the listener does with a line: an empty line and a line
    [isATResponse] recognises have no effect; a line that begins with
    [+CMT:] goes to [handleCMTMessage] and to it alone, a line that begins
    with [+CMTI:] to [handleCMTIMessage] and to it alone (neither is ever
    taken for an AT response); any other line has no effect. *)
Theorem listener_dispatches_each_line_once : forall s raw body port,
  (strings.TrimSpace raw = EmptyString \/ isATResponse (strings.TrimSpace raw) = true ->
   listenLine s raw body port = ([], false))
  /\ (strings.HasPrefix (strings.TrimSpace raw) "+CMT:" = true ->
      listenLine s raw body port
      = (handleCMTMessage (strings.TrimSpace raw) body, false))
  /\ (strings.HasPrefix (strings.TrimSpace raw) "+CMTI:" = true ->
      listenLine s raw body port
      = handleCMTIMessage s (strings.TrimSpace raw) port)
  /\ (strings.HasPrefix (strings.TrimSpace raw) "+CMT:" = false ->
      strings.HasPrefix (strings.TrimSpace raw) "+CMTI:" = false ->
      listenLine s raw body port = ([], false)).
Proof.
  intros s raw body port. unfold listenLine.
  split; [|split; [|split]].
  - intros [H | H]; [now rewrite H|].
    rewrite H. now destruct (String.eqb (strings.TrimSpace raw) "").
  - unfold strings.HasPrefix at 1.
    destruct (strings.strip "+CMT:" (strings.TrimSpace raw)) as [r|] eqn:E;
      [|discriminate].
    intros _. apply strip_prefix_of in E. rewrite E.
    replace (String.eqb ("+CMT:" ++ r) "") with false by reflexivity.
    replace (isATResponse ("+CMT:" ++ r)) with false by reflexivity.
    replace (strings.HasPrefix ("+CMT:" ++ r) "+CMT:") with true by reflexivity.
    replace (strings.HasPrefix ("+CMT:" ++ r) "+CMTI:") with false by reflexivity.
    now rewrite app_nil_r.
  - unfold strings.HasPrefix at 1.
    destruct (strings.strip "+CMTI:" (strings.TrimSpace raw)) as [r|] eqn:E;
      [|discriminate].
    intros _. apply strip_prefix_of in E. rewrite E.
    destruct (cmti_line_facts r) as (H1 & H2 & H3 & H4).
    rewrite H1, H2, H3, H4.
    now destruct (handleCMTIMessage s ("+CMTI:" ++ r) port).
  - intros H1 H2. rewrite H1, H2.
    destruct (String.eqb (strings.TrimSpace raw) ""); [reflexivity|].
    now destruct (isATResponse (strings.TrimSpace raw)).
Qed.

Lemma listener_dispatches_each_line_once_witness :
  listenLine idle ("OK" ++ CRLF) cmt_body cmgr_port = ([], false)
  /\ listenLine idle (cmt_header ++ CRLF) cmt_body cmgr_port
     = (handleCMTMessage (strings.TrimSpace (cmt_header ++ CRLF)) cmt_body, false)
  /\ listenLine idle (cmti_line ++ CRLF) cmt_body cmgr_port
     = handleCMTIMessage idle (strings.TrimSpace (cmti_line ++ CRLF)) cmgr_port
  /\ listenLine idle ("RING" ++ CRLF) cmt_body cmgr_port = ([], false).
Proof.
  split; [|split; [|split]].
  - destruct (listener_dispatches_each_line_once idle ("OK" ++ CRLF)
                cmt_body cmgr_port) as (H1 & _).
    apply H1. right. reflexivity.
  - destruct (listener_dispatches_each_line_once idle (cmt_header ++ CRLF)
                cmt_body cmgr_port) as (_ & H2 & _).
    apply H2. reflexivity.
  - destruct (listener_dispatches_each_line_once idle (cmti_line ++ CRLF)
                cmt_body cmgr_port) as (_ & _ & H3 & _).
    apply H3. reflexivity.
  - destruct (listener_dispatches_each_line_once idle ("RING" ++ CRLF)
                cmt_body cmgr_port) as (_ & _ & _ & H4).
    apply H4; reflexivity.
Defined.






(** ** The answer to a message *)

Lemma HasPrefix_app : forall a r, strings.HasPrefix (a ++ r) a = true.
Proof.
  intros a r. unfold strings.HasPrefix.
  induction a as [|c a IH]; [reflexivity|].
  cbn [append strings.strip]. now rewrite Ascii.eqb_refl.
Qed.

Lemma Contains_unfold : forall s substr,
  strings.Contains s substr
  = if strings.HasPrefix s substr then true
    else match s with
         | EmptyString => false
         | String _ s' => strings.Contains s' substr
         end.
Proof. intros [|c s] substr; reflexivity. Qed.

Lemma Contains_app_r : forall a s b,
  strings.Contains s b = true -> strings.Contains (a ++ s) b = true.
Proof.
  induction a as [|c a IH]; intros s b H; [exact H|].
  cbn [append]. rewrite Contains_unfold.
  destruct (strings.HasPrefix (String c (a ++ s)) b); [reflexivity|].
  now apply IH.
Qed.

Lemma Contains_suffix : forall a b s,
  strings.Contains s (a ++ b) = true -> strings.Contains s b = true.
Proof.
  intros a b. induction s as [|c s IH]; rewrite Contains_unfold;
    unfold strings.HasPrefix at 1;
    destruct (strings.strip (a ++ b) _) as [r|] eqn:E.
  - intros _. apply strip_prefix_of in E. rewrite E, <- append_assoc.
    apply Contains_app_r. rewrite Contains_unfold. now rewrite HasPrefix_app.
  - discriminate.
  - intros _. apply strip_prefix_of in E. rewrite E, <- append_assoc.
    apply Contains_app_r. rewrite Contains_unfold. now rewrite HasPrefix_app.
  - intros H. rewrite Contains_unfold.
    destruct (strings.HasPrefix (String c s) b); [reflexivity|]. now apply IH.
Qed.

Lemma checkResponse_facts : forall r e,
  checkResponse r = Some e ->
  match e with
  | SendOk => strings.Contains r "+CMGS:" = true
  | SendFailed r' =>
      r' = r /\ strings.Contains r "ERROR" = true
      /\ strings.Contains r "+CMGS:" = false
  | _ => False
  end.
Proof.
  intros r e. unfold checkResponse.
  destruct (strings.Contains r "+CMGS:") eqn:Hs.
  - rewrite orb_true_l. cbn [andb]. intros E. inversion E. reflexivity.
  - rewrite andb_false_r.
    destruct (strings.Contains r "ERROR") eqn:He.
    + cbn [orb]. intros E. inversion E. auto.
    + cbn [orb]. destruct (strings.Contains r "+CMS ERROR") eqn:Hc.
      * apply (Contains_suffix "+CMS " "ERROR") in Hc. congruence.
      * discriminate.
Qed.

Lemma answer_ok_checked : forall rb p e clock,
  checkResponse (rb ++ p) = Some e ->
  answer_ok rb e [PortRead clock (RdData p)].
Proof.
  intros rb p e clock H. apply checkResponse_facts in H.
  unfold answer_ok. cbn [bytes_read]. rewrite append_empty_r.
  destruct e; try contradiction; [exact H|].
  destruct H as (-> & H1 & H2). auto.
Qed.

Lemma answer_ok_step : forall rb p e ios clock,
  checkResponse (rb ++ p) = None ->
  answer_ok (rb ++ p) e ios ->
  answer_ok rb e (PortRead clock (RdData p) :: ios).
Proof.
  intros rb p e ios clock Hc H. unfold answer_ok in *. cbn [bytes_read].
  rewrite append_assoc. destruct e; auto.
  destruct H as [H1 H2]. auto.
Qed.

Lemma answer_ok_skip : forall rb e ios clock got,
  match got with RdData (String _ _) => False | _ => True end ->
  answer_ok rb e ios -> answer_ok rb e (PortRead clock got :: ios).
Proof.
  intros rb e ios clock got Hgot H.
  destruct got as [[|b data]| |]; try contradiction; exact H.
Qed.

Lemma answer_ok_app : forall rb rb' e ios ios',
  answer_ok rb (PiecesUsed rb') ios -> answer_ok rb' e ios' ->
  answer_ok rb e (ios ++ ios').
Proof.
  intros rb rb' e ios ios' [-> Hc] H. unfold answer_ok in *.
  rewrite bytes_read_app, append_assoc. destruct e; auto.
  destruct H as [H1 H2]. auto.
Qed.

Lemma responsePieces_answer : forall ps clock rb,
  answer_ok rb (fst (responsePieces clock ps rb)) (snd (responsePieces clock ps rb)).
Proof.
  induction ps as [|p ps IH]; intros clock rb; cbn [responsePieces].
  - cbn [fst snd answer_ok bytes_read]. rewrite append_empty_r. auto.
  - destruct (response_deadline <=? clock)%N.
    + cbn [fst snd answer_ok bytes_read]. rewrite append_empty_r. auto.
    + destruct (checkResponse (rb ++ p)) as [e|] eqn:E.
      * cbn [fst snd]. now apply answer_ok_checked.
      * specialize (IH clock (rb ++ p)).
        destruct (responsePieces clock ps (rb ++ p)) as [e ios].
        cbn [fst snd] in *. now apply answer_ok_step.
Qed.

Lemma responseLoop_answer : forall inp clock rb,
  answer_ok rb (fst (responseLoop inp clock rb)) (snd (responseLoop inp clock rb)).
Proof.
  intros inp. induction inp as [|[d r] inp IH]; intros clock rb.
  - simpl. destruct (response_deadline <=? clock)%N;
      cbn [fst snd answer_ok bytes_read]; rewrite append_empty_r; auto.
  - cbn [responseLoop]. destruct (response_deadline <=? clock)%N.
    { cbn [fst snd answer_ok bytes_read]. rewrite append_empty_r. auto. }
    assert (Hskip : forall r0,
      match r0 with RdData (String _ _) => False | _ => True end ->
      answer_ok rb
        (fst (let '(e, ios) := responseLoop inp (clock + d) rb in
              (e, PortRead clock r0 :: ios)))
        (snd (let '(e, ios) := responseLoop inp (clock + d) rb in
              (e, PortRead clock r0 :: ios)))).
    { intros r0 Hr0. specialize (IH (clock + d)%N rb).
      destruct (responseLoop inp (clock + d) rb). cbn [fst snd] in *.
      now apply answer_ok_skip. }
    destruct r as [data | | ]; [| now apply Hskip | now apply Hskip].
    destruct data as [|b data]; [now apply Hskip|].
    cbv zeta.
    destruct (checkResponse (rb ++ take 128 (String b data))) as [e|] eqn:E.
    + cbn [fst snd]. now apply answer_ok_checked.
    + pose proof (responsePieces_answer
        (chunks (String.length (String b data)) 128 (drop 128 (String b data)))
        (clock + d)%N (rb ++ take 128 (String b data))) as HP.
      destruct (responsePieces (clock + d)
        (chunks (String.length (String b data)) 128 (drop 128 (String b data)))
        (rb ++ take 128 (String b data))) as [e ios].
      cbn [fst snd] in HP.
      destruct e; try (cbn [fst snd]; now apply answer_ok_step).
      specialize (IH (clock + d)%N responseBuffer).
      destruct (responseLoop inp (clock + d) responseBuffer) as [e' ios'].
      cbn [fst snd] in *.
      change (PortRead clock (RdData (take 128 (String b data))) :: ios ++ ios')%list
        with (PortRead clock (RdData (take 128 (String b data)))
              :: (ios ++ ios'))%list.
      apply answer_ok_step; [exact E|].
      now apply (answer_ok_app _ responseBuffer).
Qed.

(** X16. The outcome of [SendSMS] once the message is written is read off
    the bytes read after it: nil only when they hold [+CMGS:]; the error
    [SMS failed] only when they hold [ERROR] and no [+CMGS:], and its text
    is all of these bytes; the error [SMS timeout] only when they hold
    neither. *)
Theorem SendSMS_outcome_follows_the_answer : forall s phoneNumber message port,
  match fst (SendSMS s phoneNumber message port) with
  | None | Some (ErrSMSFailed _) | Some ErrSMSTimeout =>
      exists before reads2,
        snd (SendSMS s phoneNumber message port)
        = (before ++ [PortWrite (message ++ CtrlZ) true] ++ reads2
           ++ resumeListener s)%list
        /\ Forall (fun e => is_port_read e = true) reads2
        /\ match fst (SendSMS s phoneNumber message port) with
           | None => strings.Contains (bytes_read reads2) "+CMGS:" = true
           | Some (ErrSMSFailed r) =>
               r = bytes_read reads2
               /\ strings.Contains r "ERROR" = true
               /\ strings.Contains r "+CMGS:" = false
           | _ =>
               strings.Contains (bytes_read reads2) "+CMGS:" = false
               /\ strings.Contains (bytes_read reads2) "ERROR" = false
           end
  | Some _ => True
  end.
Proof.
  intros s phoneNumber message port. unfold SendSMS.
  destruct (cmgs_write_ok port); simpl negb; cbv iota; [|exact I].
  destruct (promptLoop (input port) 0 "") as [pe io1].
  destruct pe as [pb pending rest | pb]; [|exact I].
  destruct (body_write_ok port); simpl negb; cbv iota; [|exact I].
  set (r2 := match responsePieces 0 (chunks (String.length pending) 128 pending) "" with
             | (PiecesUsed rb, ios) =>
                 let '(e, ios') := responseLoop rest 0 rb in (e, (ios ++ ios')%list)
             | other => other
             end).
  assert (H2 : Forall (fun e => is_port_read e = true) (snd r2)
               /\ answer_ok "" (fst r2) (snd r2)
               /\ (forall rb, fst r2 <> PiecesUsed rb)).
  { subst r2.
    pose proof (responsePieces_reads (chunks (String.length pending) 128 pending)
                  0%N "") as HP.
    pose proof (responsePieces_answer (chunks (String.length pending) 128 pending)
                  0%N "") as HA.
    destruct (responsePieces 0 (chunks (String.length pending) 128 pending) "")
      as [e ios]. cbn [fst snd] in HP, HA.
    destruct e; try (split; [exact HP | split; [exact HA | discriminate]]).
    pose proof (responseLoop_reads rest 0%N responseBuffer) as HL.
    pose proof (responseLoop_answer rest 0%N responseBuffer) as HB.
    assert (HN : forall rb, fst (responseLoop rest 0 responseBuffer) <> PiecesUsed rb).
    { clear. generalize 0%N as clock. generalize responseBuffer as rb0.
      induction rest as [|[d r] rest IH]; intros rb0 clock rb.
      - simpl. destruct (response_deadline <=? clock)%N; discriminate.
      - cbn [responseLoop]. destruct (response_deadline <=? clock)%N; [discriminate|].
        assert (Hskip : forall r0,
          fst (let '(e, ios) := responseLoop rest (clock + d) rb0 in
               (e, PortRead clock r0 :: ios)) <> PiecesUsed rb).
        { intros r0. specialize (IH rb0 (clock + d)%N rb).
          destruct (responseLoop rest (clock + d) rb0) as [e' ios'].
          cbn [fst] in *. exact IH. }
        destruct r as [data | | ]; [| apply Hskip | apply Hskip].
        destruct data as [|b data]; [apply Hskip|].
        cbv zeta.
        destruct (checkResponse (rb0 ++ take 128 (String b data))) as [e|] eqn:E.
        + apply checkResponse_facts in E. cbn [fst].
          destruct e; try contradiction; discriminate.
        + destruct (responsePieces (clock + d)
            (chunks (String.length (String b data)) 128 (drop 128 (String b data)))
            (rb0 ++ take 128 (String b data))) as [e ios].
          destruct e as [| | | rbx]; try (cbn [fst]; discriminate).
          specialize (IH rbx (clock + d)%N rb).
          destruct (responseLoop rest (clock + d) rbx) as [e' ios'].
          cbn [fst] in *. exact IH. }
    destruct (responseLoop rest 0 responseBuffer) as [e' ios'].
    cbn [fst snd] in *. split; [apply Forall_app; split; assumption|].
    split; [now apply (answer_ok_app _ responseBuffer) | exact HN]. }
  destruct r2 as [r io2]. cbn [fst snd] in H2. destruct H2 as (HR & HA & HN).
  assert (Hshape :
    (pauseListener s
     ++ ([Sleep 100; PortWrite (("AT+CMGS=" ++ quoted phoneNumber) ++ CR) true]
         ++ io1 ++ [Sleep 100; PortWrite (message ++ CtrlZ) true] ++ io2)
     ++ resumeListener s)%list
    = ((pauseListener s
        ++ [Sleep 100; PortWrite (("AT+CMGS=" ++ quoted phoneNumber) ++ CR) true]
        ++ io1 ++ [Sleep 100])
       ++ [PortWrite (message ++ CtrlZ) true] ++ io2 ++ resumeListener s)%list).
  { rewrite <- !app_assoc. reflexivity. }
  cbn [fst snd]. unfold answer_ok in HA. cbn [append] in HA.
  destruct r as [| response | | rb].
  - eexists; exists io2. split; [exact Hshape|]. split; [exact HR | exact HA].
  - eexists; exists io2. split; [exact Hshape|]. split; [exact HR | exact HA].
  - eexists; exists io2. split; [exact Hshape|]. split; [exact HR|].
    specialize (HA eq_refl). unfold checkResponse in HA.
    destruct (strings.Contains (bytes_read io2) "+CMGS:").
    + rewrite orb_true_l in HA. discriminate.
    + rewrite andb_false_r in HA.
      destruct (strings.Contains (bytes_read io2) "ERROR"); [discriminate|].
      split; reflexivity.
  - now destruct (HN rb).
Qed.

(** ** The handshake between the callers and the listener *)


Lemma count_nth : forall f i p cs,
  nth_error cs i = Some p -> f p = true -> 1 <= count f cs.
Proof.
  intros f i p cs. revert i. unfold count.
  induction cs as [|h t IH]; intros i H Hp.
  - destruct i; discriminate.
  - destruct i as [|i]; cbn in H.
    + inversion H. subst h. cbn [filter]. rewrite Hp. cbn [length]. lia.
    + specialize (IH i H Hp). cbn [filter]. destruct (f h); cbn [length]; lia.
Qed.

Lemma count_zero : forall f cs, count f cs = 0 -> existsb f cs = false.
Proof.
  intros f cs. unfold count. induction cs as [|h t IH]; [reflexivity|].
  cbn [filter existsb]. destruct (f h); [discriminate | exact IH].
Qed.

Lemma nth_error_set_nth_other : forall (A : Type) i j (x : A) l,
  i <> j -> nth_error (set_nth j x l) i = nth_error l i.
Proof.
  intros A i j x l. revert i j. induction l as [|h t IH]; intros i j Hij.
  - destruct j; reflexivity.
  - destruct j as [|j], i as [|i]; try reflexivity; try congruence.
    cbn [set_nth nth_error]. apply IH. congruence.
Qed.

Lemma inside_form_head : forall p,
  inside_form p -> in_transaction p = true /\ awaits_ack p = false.
Proof.
  intros p (io & rest & -> & Hio & _). destruct io as [|e io]; [split; reflexivity|].
  inversion Hio as [|? ? He _]; subst. cbn [app].
  destruct e; try discriminate; split; reflexivity.
Qed.

Lemma transactions_head : forall p,
  transactions p -> in_transaction p = false /\ awaits_ack p = false.
Proof. intros p H. destruct H; split; reflexivity. Qed.

(** A caller whose next effect touches no channel is inside an operation,
    and stays there. *)
Lemma caller_ok_io : forall e todo,
  caller_ok (e :: todo) -> is_chan_op e = false ->
  in_transaction (e :: todo) = true /\ awaits_ack (e :: todo) = false
  /\ caller_ok todo /\ in_transaction todo = true /\ awaits_ack todo = false.
Proof.
  intros e todo [H | [H | H]] He.
  - inversion H; subst. discriminate.
  - destruct H as (q & E & _). inversion E; subst. discriminate.
  - pose proof (inside_form_head _ H) as [H1 H2].
    destruct H as (io & rest & E & Hio & Hrest).
    destruct io as [|e' io]; cbn [app] in E; inversion E; subst; [discriminate|].
    inversion Hio; subst.
    assert (Hin : inside_form (io ++ ChanSend resumeChan :: rest))
      by (exists io, rest; auto).
    destruct (inside_form_head _ Hin). unfold caller_ok. auto 6.
Qed.


(** A caller whose next effect is a receive waits for the acknowledgement
    of its pause. *)
Lemma caller_ok_recv : forall c todo,
  caller_ok (ChanRecv c :: todo) ->
  c = resumeChan /\ awaits_ack (ChanRecv c :: todo) = true
  /\ caller_ok todo /\ in_transaction todo = true /\ awaits_ack todo = false.
Proof.
  intros c todo [H | [H | H]].
  - inversion H.
  - destruct H as (q & E & Hin). inversion E; subst.
    destruct (inside_form_head _ Hin). unfold caller_ok. auto 6.
  - destruct H as (io & rest & E & Hio & Hrest).
    destruct io as [|e' io]; cbn [app] in E; inversion E; subst.
    inversion Hio; subst. discriminate.
Qed.

Lemma caller_ok_nth : forall cs i p,
  Forall caller_ok cs -> nth_error cs i = Some p -> caller_ok p.
Proof.
  intros cs i p H Hn. rewrite Forall_forall in H. apply H.
  eapply nth_error_In, Hn.
Qed.






Lemma count_transactions : forall cs,
  Forall transactions cs ->
  count awaits_ack cs = 0 /\ count in_transaction cs = 0.
Proof.
  intros cs H. unfold count. induction H as [|p cs Hp _ [IH1 IH2]]; [split; reflexivity|].
  destruct (transactions_head _ Hp) as [H1 H2].
  cbn [filter]. rewrite H1, H2. auto.
Qed.




Lemma sendATCommand_transactions : forall s command port,
  listening s = true -> transactions (effs (sendATCommand s command port)).
Proof.
  intros s command port Hs. rewrite sendATCommand_shape.
  unfold pauseListener, resumeListener. rewrite Hs.
  apply (tx_cons [PortWrite (command ++ CRLF) (write_ok port)] []);
    repeat constructor.
Qed.

Lemma SendSMS_transactions : forall s phoneNumber message port,
  listening s = true -> transactions (snd (SendSMS s phoneNumber message port)).
Proof.
  intros s phoneNumber message port Hs.
  destruct (SendSMS_shape s phoneNumber message port) as (io & E & Hio & _).
  rewrite E. unfold pauseListener, resumeListener. rewrite Hs.
  apply (tx_cons io []); [exact Hio | constructor].
Qed.


Lemma steps_trans : forall sys1 sys2 sys3,
  steps sys1 sys2 -> steps sys2 sys3 -> steps sys1 sys3.
Proof.
  induction 1 as [sys|sys1 sys2 sys2' Hstep _ IH]; intros H; [exact H|].
  eapply steps_step; [exact Hstep | now apply IH].
Qed.

Lemma steps_caller_io : forall l io rest,
  Forall (fun e => is_chan_op e = false) io ->
  steps (l, [(io ++ rest)%list]) (l, [rest]).
Proof.
  intros l io rest H. induction H as [|e io He _ IH]; [apply steps_refl|].
  eapply steps_step; [|exact IH].
  apply (step_caller l [(e :: io ++ rest)%list] 0 e (io ++ rest)%list);
    [reflexivity | exact He].
Qed.

Lemma transaction_completes : forall io,
  Forall (fun e => is_chan_op e = false) io ->
  steps (AtSelect,
         [([ChanSend pauseChan; ChanRecv resumeChan] ++ io
           ++ [ChanSend resumeChan])%list])
        (AtSelect, [[]]).
Proof.
  intros io Hio. cbn [app].
  eapply steps_step.
  { eapply step_listener_recv with (i := 0); reflexivity. }
  eapply steps_step.
  { eapply step_listener_send with (i := 0); reflexivity. }
  cbn [set_nth].
  eapply steps_trans; [apply (steps_caller_io Paused io _ Hio)|].
  eapply steps_step; [|apply steps_refl].
  apply (step_listener_recv Paused AtSelect resumeChan [[ChanSend resumeChan]] 0 []);
    reflexivity.
Qed.

(** X18. With the listener at its select, an operation called from another
    goroutine can run to its end: the pause is received and acknowledged,
    the effects on the port are made, the resume is received, and the
    listener is back at its select.  This holds for [sendATCommand] and for
    [SendSMS], on every exit path. *)
Theorem operation_completes_beside_the_listener : forall s,
  listening s = true ->
  (forall command port,
     steps (AtSelect, [effs (sendATCommand s command port)]) (AtSelect, [[]]))
  /\ (forall phoneNumber message port,
        steps (AtSelect, [snd (SendSMS s phoneNumber message port)])
              (AtSelect, [[]])).
Proof.
  intros s Hs. split.
  - intros command port. rewrite sendATCommand_shape.
    unfold pauseListener, resumeListener. rewrite Hs.
    apply transaction_completes. repeat constructor.
  - intros phoneNumber message port.
    destruct (SendSMS_shape s phoneNumber message port) as (io & E & Hio & _).
    rewrite E. unfold pauseListener, resumeListener. rewrite Hs.
    now apply transaction_completes.
Qed.

Lemma operation_completes_beside_the_listener_witness :
  listening listened = true
  /\ steps (AtSelect, [effs (sendATCommand listened "AT" (says "OK"))])
           (AtSelect, [[]])
  /\ steps (AtSelect, [snd (SendSMS listened "+1" "hi" (prompt_then "ERROR"))])
           (AtSelect, [[]]).
Proof.
  split; [reflexivity|].
  destruct (operation_completes_beside_the_listener listened eq_refl) as [H1 H2].
  split; [apply H1 | apply H2].
Defined.

(** X19. After a [+CMTI:] notification nothing moves any more: with the
    listener at the pause of its own nested [sendATCommand], and callers
    that stand before their operations, no step is possible; every
    operation called from then on blocks at its pause for ever. *)
Theorem cmti_notification_blocks_every_caller :
  forall s raw body port cs sys',
    listening s = true ->
    strings.HasPrefix (strings.TrimSpace raw) "+CMTI:" = true ->
    2 <= length (strings.Split (strings.TrimSpace raw) ",") ->
    Forall transactions cs ->
    ~ step (Handling (fst (listenLine s raw body port))
                     (snd (listenLine s raw body port)), cs) sys'.
Proof.
  intros s raw body port cs sys' Hs Hp Hlen Hcs Hstep.
  destruct (listenLine_cmti_pauses s raw body port Hs Hp Hlen) as [todo E].
  rewrite E in Hstep.
  destruct (count_transactions cs Hcs) as [Ca Ci].
  assert (Hok : Forall caller_ok cs).
  { eapply Forall_impl; [|exact Hcs]. intros p Hq. now left. }
  inversion Hstep; subst.
  - discriminate.
  - match goal with
    | Hn : nth_error cs _ = Some _, He : is_chan_op _ = false |- _ =>
        pose proof (caller_ok_io _ _ (caller_ok_nth _ _ _ Hok Hn) He) as (K1 & _);
        pose proof (count_nth in_transaction _ _ _ Hn K1)
    end. lia.
  - discriminate.
  - match goal with
    | Hl : listener_send _ = Some _, Hn : nth_error cs _ = Some _ |- _ =>
        cbn in Hl; inversion Hl; subst;
        pose proof (caller_ok_recv _ _ (caller_ok_nth _ _ _ Hok Hn)) as (K0 & _)
    end. discriminate.
  - match goal with
    | Hj : nth_error cs _ = Some (ChanRecv _ :: _) |- _ =>
        pose proof (caller_ok_recv _ _ (caller_ok_nth _ _ _ Hok Hj)) as (_ & K1 & _);
        pose proof (count_nth awaits_ack _ _ _ Hj K1)
    end. lia.
Qed.

Lemma cmti_notification_blocks_every_caller_witness :
  listening listened = true
  /\ ~ step (Handling (fst (listenLine listened (cmti_line ++ CRLF) [] cmgr_port))
                      (snd (listenLine listened (cmti_line ++ CRLF) [] cmgr_port)),
             [effs (sendATCommand listened "AT+CSQ" (says "OK"));
              snd (SendSMS listened "+1" "hi" (prompt_then "OK"))])
            (AtSelect, []).
Proof.
  split; [reflexivity|].
  apply (cmti_notification_blocks_every_caller listened (cmti_line ++ CRLF) []
           cmgr_port).
  - reflexivity.
  - reflexivity.
  - vm_compute. lia.
  - constructor; [now apply sendATCommand_transactions|].
    constructor; [now apply SendSMS_transactions | constructor].
Defined.

(** ** The mock port of the tests *)



(** X21. Reading the mock: on an open mock with no read error set,
    successive [Read] calls with a buffer of [size] bytes return the unread
    bytes in order, [size] at a time, until the buffer is empty and [Read]
    returns [io.EOF]; put end to end they are the unread bytes, none lost
    and none twice. *)
Theorem mock_reads_drain_the_buffer : forall fuel size m,
  MockSerialPort.closed m = false ->
  MockSerialPort.readErr m = None ->
  0 < size ->
  MockSerialPort.read_all fuel size m
  = chunks fuel size (MockSerialPort.readBuffer m)
  /\ (String.length (MockSerialPort.readBuffer m) <= fuel ->
      String.concat EmptyString (MockSerialPort.read_all fuel size m)
      = MockSerialPort.readBuffer m).
Proof.
  intros fuel size m Hc He Hs.
  assert (H : MockSerialPort.read_all fuel size m
              = chunks fuel size (MockSerialPort.readBuffer m)).
  { revert m Hc He. induction fuel as [|fuel IH]; intros m Hc He; [reflexivity|].
    cbn [MockSerialPort.read_all chunks]. unfold MockSerialPort.Read.
    rewrite Hc, He.
    destruct (MockSerialPort.readBuffer m) as [|b data] eqn:Hb.
    - replace (size =? 0)%nat with false
        by (symmetry; apply Nat.eqb_neq; lia).
      reflexivity.
    - f_equal. rewrite IH by (cbn; auto). reflexivity. }
  split; [exact H|]. intros Hlen. rewrite H. now apply chunks_concat.
Qed.

Lemma mock_reads_drain_the_buffer_witness :
  MockSerialPort.read_all 20 4
    (MockSerialPort.SimulateIncoming MockSerialPort.NewMockSerialPort
       "+CMGS: 123")
  = ["+CMG"; "S: 1"; "23"].
Proof.
  destruct (mock_reads_drain_the_buffer 20 4
              (MockSerialPort.SimulateIncoming MockSerialPort.NewMockSerialPort
                 "+CMGS: 123") eq_refl eq_refl) as [H _].
  - lia.
  - exact H.
Defined.

(** ** Headers without fields, refusals, and the lines of a response *)

Lemma splitLoop_no_separator : forall s skip inQuotes current parts,
  free_of "," s = true ->
  length (splitLoop "," s skip inQuotes current parts) <= S (length parts).
Proof.
  induction s as [|c s IH]; intros skip inQuotes current parts H.
  - cbn [splitLoop]. destruct (0 <? String.length current)%nat;
      rewrite ?length_app; cbn [length]; lia.
  - cbn [free_of strings.mem_ascii] in H. rewrite orb_false_r in H.
    apply andb_prop in H. destruct H as [Hc Hs]. apply negb_true_iff in Hc.
    cbn [splitLoop]. destruct skip as [|k]; [|now apply IH].
    destruct (rune_width (String c s)) as [|[|k]]; try now apply IH.
    rewrite Hc. cbn [andb]. now apply IH.
Qed.

Lemma free_of_trim_left : forall set ps fuel s,
  free_of set s = true -> free_of set (strings.trim_left ps fuel s) = true.
Proof.
  intros set ps fuel s H. destruct (trim_left_suffix ps fuel s) as [w E].
  rewrite E, free_of_app in H. apply andb_prop in H. apply H.
Qed.

Lemma free_of_TrimSpace : forall set s,
  free_of set s = true -> free_of set (strings.TrimSpace s) = true.
Proof.
  intros set s H. unfold strings.TrimSpace, strings.TrimRightSpace,
    strings.TrimLeftSpace.
  rewrite free_of_rev. apply free_of_trim_left. rewrite free_of_rev.
  now apply free_of_trim_left.
Qed.

Lemma free_of_TrimPrefix : forall set s p,
  free_of set s = true -> free_of set (strings.TrimPrefix s p) = true.
Proof.
  intros set s p H. unfold strings.TrimPrefix.
  destruct (strings.strip p s) as [r|] eqn:E; [|exact H].
  apply strip_prefix_of in E. rewrite E, free_of_app in H.
  apply andb_prop in H. apply H.
Qed.

(** X22. [parseSMSHeader] refuses every header that holds no comma: with
    the error [invalid SMS header] when the header does not hold [+CMGR:],
    with [insufficient fields in SMS header] when it does; the record it
    returns beside the error is the zero record. *)
Theorem parseSMSHeader_refuses_a_single_field : forall header,
  free_of "," header = true ->
  parseSMSHeader header
  = (SMS_zero,
     Some (if strings.Contains header "+CMGR:" then ErrInsufficientFields
           else ErrInvalidHeader)).
Proof.
  intros header H. unfold parseSMSHeader.
  destruct (strings.Contains header "+CMGR:"); cbn [negb]; [|reflexivity].
  pose proof (splitLoop_no_separator
                (strings.TrimSpace (strings.TrimPrefix header "+CMGR:"))
                0 false "" []
                (free_of_TrimSpace _ _ (free_of_TrimPrefix _ _ "+CMGR:" H))) as Hlen.
  fold (splitRespectingQuotes
          (strings.TrimSpace (strings.TrimPrefix header "+CMGR:")) ",") in Hlen.
  cbn [length] in Hlen.
  replace (length (splitRespectingQuotes
                     (strings.TrimSpace (strings.TrimPrefix header "+CMGR:")) ",")
           <? 2)%nat with true; [reflexivity|].
  symmetry. apply Nat.ltb_lt. lia.
Qed.

Lemma parseSMSHeader_refuses_a_single_field_witness :
  parseSMSHeader "INVALID" = (SMS_zero, Some ErrInvalidHeader)
  /\ parseSMSHeader ("+CMGR: " ++ quoted "REC READ")
     = (SMS_zero, Some ErrInsufficientFields).
Proof.
  split.
  - apply (parseSMSHeader_refuses_a_single_field "INVALID"). reflexivity.
  - apply (parseSMSHeader_refuses_a_single_field ("+CMGR: " ++ quoted "REC READ")).
    reflexivity.
Defined.

Lemma refuses_response : forall s command port,
  refuses command port ->
  err (sendATCommand s command port) = None
  /\ exists line,
       resp (sendATCommand s command port) = line
       /\ strings.Split line LFc = [line]
       /\ strings.HasPrefix (strings.TrimSpace line) "+CMGL:" = false.
Proof.
  intros s command port
    (Hw & pre & d & raw & post & Hl & Hpre & Hk & Herr & Hh & Hlf & Hecho & Ht).
  assert (Hterm : is_terminal (strings.TrimSpace raw) = true).
  { unfold is_terminal. rewrite Herr. now rewrite orb_true_r. }
  destruct (sendATCommand_answered s command port pre d raw post
              Hw Hl Hpre Hterm Hecho Ht) as (H1 & H2 & _).
  split; [exact H1|]. exists (strings.TrimSpace raw).
  rewrite H2, Hk. split; [reflexivity|].
  split; [now apply Split_free|]. now rewrite TrimSpace_idempotent.
Qed.

(** X23. A refusal cannot be told from an empty store: when the modem
    answers [ERROR] to the listing command, [ReadSMS] and [ReadNewSMS]
    return no record and a nil error, and when it answers [ERROR] to the
    deletion, [DeleteSMS] returns nil. *)
Theorem refusal_reads_as_nothing : forall s,
  (forall port, refuses ("AT+CMGL=" ++ quoted "ALL") port ->
     fst (ReadSMS s port) = ([], None))
  /\ (forall port, refuses ("AT+CMGL=" ++ quoted "REC UNREAD") port ->
        fst (ReadNewSMS s port) = ([], None))
  /\ (forall index port, refuses ("AT+CMGD=" ++ fmt.Sprintf_d index) port ->
        fst (DeleteSMS s index port) = None).
Proof.
  intros s. split; [|split].
  - intros port H. unfold ReadSMS.
    destruct (refuses_response s _ _ H) as (He & line & Hr & Hs & Hp).
    rewrite He, Hr. cbn [fst]. unfold parseSMSList. rewrite Hs.
    cbn [parseSMSLines]. now rewrite Hp.
  - intros port H. unfold ReadNewSMS.
    destruct (refuses_response s _ _ H) as (He & line & Hr & Hs & Hp).
    rewrite He, Hr. cbn [fst]. unfold parseSMSList. rewrite Hs.
    cbn [parseSMSLines]. now rewrite Hp.
  - intros index port H. unfold DeleteSMS.
    destruct (refuses_response s _ _ H) as (He & _). now rewrite He.
Qed.

Lemma says_refuses : forall text command,
  strings.Contains (strings.TrimSpace (text ++ CRLF)) "ERROR" = true ->
  strings.HasPrefix (strings.TrimSpace (text ++ CRLF)) "+CMGL:" = false ->
  free_of LF (strings.TrimSpace (text ++ CRLF)) = true ->
  strings.TrimSpace (text ++ CRLF) <> command ->
  refuses command (says text).
Proof.
  intros text command H1 H2 H3 H4. split; [reflexivity|].
  exists [], 5%N, (text ++ CRLF), []. split; [reflexivity|].
  split; [apply still_reading_short; [constructor | constructor | simpl; lia]|].
  split; [reflexivity|]. repeat (split; [assumption|]). reflexivity.
Qed.

Lemma refusal_reads_as_nothing_witness :
  fst (ReadSMS idle (says "+CMS ERROR: 302")) = ([], None)
  /\ fst (ReadNewSMS idle (says "ERROR")) = ([], None)
  /\ fst (DeleteSMS idle 7 (says "ERROR")) = None.
Proof.
  destruct (refusal_reads_as_nothing idle) as (H1 & H2 & H3).
  split; [|split].
  - apply H1. apply says_refuses; try reflexivity. vm_compute. discriminate.
  - apply H2. apply says_refuses; try reflexivity. vm_compute. discriminate.
  - apply H3. apply says_refuses; try reflexivity. vm_compute. discriminate.
Defined.

Lemma Split_Join : forall k ks,
  Forall (fun l => free_of LF l = true) (k :: ks) ->
  strings.Split (strings.Join (k :: ks) LF) LFc = k :: ks.
Proof.
  intros k ks. revert k. induction ks as [|k' ks IH]; intros k H.
  - inversion H; subst. now apply Split_free.
  - inversion H; subst. rewrite Join_cons.
    change (LF ++ strings.Join (k' :: ks) LF)
      with (String LFc (strings.Join (k' :: ks) LF)).
    rewrite Split_app by assumption. f_equal. now apply IH.
Qed.

Lemma arrived_prefix : forall deadline tie reads clock,
  exists late, reads = (arrived deadline tie clock reads ++ late)%list.
Proof.
  intros deadline tie reads. induction reads as [|[d r] rest IH]; intros clock.
  - exists []. reflexivity.
  - cbn [arrived].
    destruct ((clock + d <? deadline)%N || tie && (clock + d =? deadline)%N).
    + destruct (IH (clock + d)%N) as [late E]. exists late. cbn [app]. now f_equal.
    + exists ((d, r) :: rest). reflexivity.
Qed.

Lemma kept_one_line_each : forall command reads,
  one_line_each reads -> Forall (fun l => free_of LF l = true) (kept command reads).
Proof.
  intros command reads H. induction H as [|r rest Hr _ IH]; [constructor|].
  cbn [kept]. destruct (line_of r) as [l|]; [|exact IH].
  destruct (String.eqb l command || String.eqb l ""); [exact IH|].
  constructor; assumption.
Qed.

(** X24. The text [sendATCommand] returns and the lines the parsers make
    of it: whenever the write succeeds, the text returned, split at its
    newlines, is the list of the lines kept from a prefix of the stream
    (trimmed, none empty, none the echo of the command), in order; when no
    line was kept the text is empty, and splits into one empty line. *)
Theorem response_splits_into_the_kept_lines : forall s command port,
  write_ok port = true ->
  one_line_each (lines port) ->
  exists used rest,
    lines port = (used ++ rest)%list
    /\ resp (sendATCommand s command port) = strings.Join (kept command used) LF
    /\ strings.Split (resp (sendATCommand s command port)) LFc
       = match kept command used with
         | [] => [EmptyString]
         | ks => ks
         end
    /\ Forall (fun l => l <> EmptyString /\ l <> command) (kept command used).
Proof.
  intros s command port Hw Hone.
  set (got := arrived command_deadline (done_on_tie port) 0 (lines port)).
  destruct (arrived_prefix command_deadline (done_on_tie port) (lines port) 0%N)
    as [late Elate]. fold got in Elate.
  destruct (readLines_spec command got 0 "") as (used & H1 & H2 & _).
  destruct (readLines command got 0 "") as [[stop response] rest] eqn:Hr.
  cbn [fst snd] in H1, H2.
  assert (Hresp : resp (sendATCommand s command port)
                  = strings.TrimSpace response).
  { destruct stop.
    - apply (sendATCommand_done s command port _ _ _ Hw Hr). discriminate.
    - apply (sendATCommand_done s command port _ _ _ Hw Hr). discriminate.
    - apply (sendATCommand_done s command port _ _ _ Hw Hr). discriminate.
    - apply (sendATCommand_timer s command port _ _ Hw Hr). }
  exists used, (rest ++ late)%list.
  assert (Hlines : lines port = (used ++ rest ++ late)%list).
  { rewrite Elate at 1. rewrite H1. now rewrite app_assoc. }
  split; [exact Hlines|].
  assert (Hjoin : resp (sendATCommand s command port)
                  = strings.Join (kept command used) LF).
  { rewrite Hresp, H2. apply TrimSpace_kept. }
  split; [exact Hjoin|]. split.
  - rewrite Hjoin.
    assert (Hu : one_line_each used).
    { unfold one_line_each in *. rewrite Hlines in Hone.
      apply Forall_app in Hone. apply Hone. }
    pose proof (kept_one_line_each command used Hu) as Hk.
    destruct (kept command used) as [|k ks]; [reflexivity|].
    now apply Split_Join.
  - clear. induction used as [|r used IH]; [constructor|].
    cbn [kept]. destruct (line_of r) as [l|]; [|exact IH].
    destruct (String.eqb l command) eqn:E1; [exact IH|].
    destruct (String.eqb l "") eqn:E2; [exact IH|].
    cbn [orb]. constructor; [|exact IH].
    split; [now apply String.eqb_neq | now apply String.eqb_neq].
Qed.

Lemma response_splits_into_the_kept_lines_witness :
  exists used rest,
    lines (port_of csq_reads) = (used ++ rest)%list
    /\ resp (sendATCommand idle "AT+CSQ" (port_of csq_reads))
       = strings.Join (kept "AT+CSQ" used) LF
    /\ strings.Split (resp (sendATCommand idle "AT+CSQ" (port_of csq_reads))) LFc
       = match kept "AT+CSQ" used with
         | [] => [EmptyString]
         | ks => ks
         end
    /\ Forall (fun l => l <> EmptyString /\ l <> "AT+CSQ") (kept "AT+CSQ" used).
Proof.
  apply (response_splits_into_the_kept_lines idle "AT+CSQ" (port_of csq_reads)).
  - reflexivity.
  - repeat constructor.
Defined.


